(** * The framerate filter (libavfilter/vf_framerate.c): model and properties

    A shallow embedding of the frame-rate converter: the scene detector
    ([get_scene_score]), the blend engine ([filter_slice8], [filter_slice16],
    [blend_frames]), the interpolation policy ([process_work_frame]) and the
    timeline scheduler ([filter_frame], [request_frame]).

    Conventions of the embedding.
    - C integers are [Z].  Conversions that C defines by reduction modulo a
      power of two are written out ([u8], [u16], [to_int]).  Signed [int] and
      [int64_t] arithmetic is exact: C gives no meaning to its overflow.
    - [double] and [float] are the binary64 and binary32 formats of IEEE 754,
      as the Standard Library's SpecFloat defines them: every operation of
      the scene score rounds as the format says.
    - A pointer into a plane is a buffer ([list Z], one entry per sample) with an
      offset.  C gives no meaning to an access outside a buffer; here such a
      read yields 0 and such a write is dropped, and the theorems about samples
      state the bounds they need.
    - A NULL frame pointer is [None].  Frames are immutable values: a new
      reference to a frame is the frame itself.
    - What the filter calls in the rest of libavfilter (buffer allocation, the
      downstream link, the slice-thread pool with the order in which it takes
      its jobs) is the class [FilterGraph]. *)

From Stdlib Require Import ZArith QArith Qabs Qminmax Qpower Lia Bool List.
From Stdlib Require Import Floats.SpecFloat.
From stdpp Require Import base list list_numbers.
Import ListNotations.

Local Open Scope Z_scope.

(** ** C conversions *)

(** Conversion to [uint8_t]. *)
Definition u8 (v : Z) : Z := v mod 2 ^ 8.

(** Conversion to [uint16_t]. *)
Definition u16 (v : Z) : Z := v mod 2 ^ 16.

(** Conversion of an [int64_t] to [int] (two's complement, 32 bits). *)
Definition to_int (v : Z) : Z := (v + 2 ^ 31) mod 2 ^ 32 - 2 ^ 31.

(** ** libavutil: macros and helpers *)

(** Modelled from the spec: the marker of a frame that lacks a timestamp
    (libavutil/avutil.h, absent here, defines AV_NOPTS_VALUE as the least
    [int64_t]). *)
Definition AV_NOPTS_VALUE : Z := - 2 ^ 63.

Definition INT64_MIN : Z := - 2 ^ 63.

(** Modelled from the spec: the code of [AllocationFailure], AVERROR(ENOMEM) of
    libavutil/error.h, absent here. *)
Definition AVERROR_ENOMEM : Z := -12.

(** Modelled from the spec: the end-of-stream signal, AVERROR_EOF of
    libavutil/error.h, absent here. *)
Definition AVERROR_EOF : Z := -541478725.

(** Modelled from the spec: the macros FFABS, FFMIN and FFMAX of
    libavutil/common.h, absent here, with the comparisons they expand to. *)
Definition FFABS (a : Z) : Z := if 0 <=? a then a else - a.
Definition FFMAX (a b : Z) : Z := if b <? a then a else b.
Definition FFMIN (a b : Z) : Z := if b <? a then b else a.

(** ** Floating point

    A value of type [double] or [float] is a [spec_float]: a signed zero, a
    signed infinity, NaN, or [(-1)^s * m * 2^e].  The operations are
    SpecFloat's for the precision and the exponent range of the format; they
    round to the nearest value of the format, ties to even. *)

(** [(double) z] for an integer [z]. *)
Definition int_to_double (z : Z) : spec_float :=
  binary_normalize 53 1024 z 0 false.

(** [(float) z] for an integer [z]. *)
Definition int_to_float (z : Z) : spec_float :=
  binary_normalize 24 128 z 0 false.

(** [*], [/] and [-] on [double]. *)
Definition double_mul : spec_float -> spec_float -> spec_float := SFmul 53 1024.
Definition double_div : spec_float -> spec_float -> spec_float := SFdiv 53 1024.
Definition double_sub : spec_float -> spec_float -> spec_float := SFsub 53 1024.

(** [(float) x] for a [double]: the value rounded to binary32. *)
Definition double_to_float (x : spec_float) : spec_float :=
  match x with
  | S754_finite s m e => binary_normalize 24 128 (cond_Zopp s (Zpos m)) e s
  | _ => x
  end.

(** [(double) x] for a [float]: every value of binary32 is one of binary64
    and the conversion keeps it.  The filter does no arithmetic on a value
    converted this way, it only compares it. *)
Definition float_to_double (x : spec_float) : spec_float := x.

(** The rational a finite value stands for; 0 for the zeros (and, unused, for
    the infinities and NaN). *)
Definition SF2Q (x : spec_float) : Q :=
  match x with
  | S754_finite s m e => (inject_Z (cond_Zopp s (Zpos m)) * 2 ^ e)%Q
  | _ => 0%Q
  end.

(** The comparison of IEEE 754, by value: NaN compares with nothing, the
    infinities lie beyond every finite value, the two zeros are equal. *)
Definition fp_compare (x y : spec_float) : option comparison :=
  match x, y with
  | S754_nan, _ | _, S754_nan => None
  | S754_infinity s1, S754_infinity s2 =>
      Some (match s1, s2 with
            | true, false => Lt
            | false, true => Gt
            | _, _ => Eq
            end)
  | S754_infinity s, _ => Some (if s then Lt else Gt)
  | _, S754_infinity s => Some (if s then Gt else Lt)
  | _, _ => Some (SF2Q x ?= SF2Q y)%Q
  end.

(** [x < y] and [x <= y]. *)
Definition fp_lt (x y : spec_float) : bool :=
  match fp_compare x y with Some Lt => true | _ => false end.

Definition fp_le (x y : spec_float) : bool :=
  match fp_compare x y with Some (Lt | Eq) => true | _ => false end.

(** The literals [0] (an [int] converted), [100.0] and [-1.0]. *)
Definition double_zero : spec_float := int_to_double 0.
Definition double_100 : spec_float := int_to_double 100.
Definition double_minus_one : spec_float := SFopp (int_to_double 1).

Arguments double_zero : simpl never.
Arguments double_100 : simpl never.
Arguments double_minus_one : simpl never.

(** FFMIN on [double]: [((a) > (b) ? (b) : (a))]. *)
Definition FFMINd (a b : spec_float) : spec_float := if fp_lt b a then b else a.

(** [fabs]. *)
Definition fabs (a : spec_float) : spec_float := SFabs a.

(** Modelled from the spec: the clamp of the score, av_clipf of
    libavutil/common.h, absent here.  Its three parameters are [float]s. *)
Definition av_clipf (a amin amax : spec_float) : spec_float :=
  if fp_lt a amin then amin
  else if fp_lt amax a then amax
  else a.

Module AVRational.
Record t := mk { num : Z; den : Z }.
End AVRational.

(** Modelled from the spec: av_inv_q of libavutil/rational.h, absent here. *)
Definition av_inv_q (q : AVRational.t) : AVRational.t :=
  AVRational.mk (AVRational.den q) (AVRational.num q).

(** Modelled from the spec: the rational rescaling of libavutil/mathematics.c,
    absent here, [a * b / c] rounded to the nearest integer.  libavutil rounds
    a half away from zero and answers INT64_MIN when [c] is not positive or [b]
    is negative. *)
Definition av_rescale_rnd (a b c : Z) : Z :=
  if (c <=? 0) || (b <? 0) then INT64_MIN
  else Z.sgn a * ((Z.abs a * b + c / 2) / c).

Definition av_rescale (a b c : Z) : Z := av_rescale_rnd a b c.

Definition av_rescale_q (a : Z) (bq cq : AVRational.t) : Z :=
  let b := AVRational.num bq * AVRational.den cq in
  let c := AVRational.num cq * AVRational.den bq in
  av_rescale_rnd a b c.

(** ** Buffers and loops *)

(** A pointer that is not NULL. *)
Definition is_set {A : Type} (p : option A) : bool :=
  match p with Some _ => true | None => false end.

(** [p[i]] for a pointer [p] to the start of [buf]. *)
Definition load (buf : list Z) (i : Z) : Z :=
  if i <? 0 then 0 else default 0 (buf !! Z.to_nat i).

(** [p[i] = v]. *)
Definition store (buf : list Z) (i : Z) (v : Z) : list Z :=
  if i <? 0 then buf else <[Z.to_nat i := v]> buf.

(** [for (; i < bound; i += step) acc = body i acc], run for at most [fuel]
    iterations. *)
Fixpoint for_lt {A : Type} (fuel : nat) (i step bound : Z)
    (body : Z -> A -> A) (acc : A) : A :=
  match fuel with
  | O => acc
  | S fuel' =>
      if i <? bound then for_lt fuel' (i + step) step bound body (body i acc)
      else acc
  end.

(** The loops of the filter start below their bound and step by 1 or by 8:
    [bound - start] iterations are always enough. *)
Definition for_range {A : Type} (start step bound : Z)
    (body : Z -> A -> A) (acc : A) : A :=
  for_lt (Z.to_nat (bound - start)) start step bound body acc.

(** ** Frames *)

Module Frame.
(** The fields of AVFrame the filter reads.  [data] holds the four plane
    pointers ([None] is NULL), [linesize] the bytes from one stored line to
    the next. *)
Record t := mk {
  data : list (option (list Z));
  linesize : list Z;
  width : Z;
  height : Z;
  pts : Z;
  interlaced_frame : bool
}.

Definition plane (f : t) (p : nat) : option (list Z) :=
  default None (data f !! p).

Definition stride (f : t) (p : nat) : Z :=
  default 0 (linesize f !! p).

Definition set_plane (p : nat) (buf : list Z) (f : t) : t :=
  mk (<[p := Some buf]> (data f)) (linesize f) (width f) (height f) (pts f)
     (interlaced_frame f).

Definition set_pts (v : Z) (f : t) : t :=
  mk (data f) (linesize f) (width f) (height f) v (interlaced_frame f).

(** av_frame_copy_props: the properties of [src] on the buffers of [dst]. *)
Definition copy_props (dst src : t) : t :=
  mk (data dst) (linesize dst) (width dst) (height dst) (pts src)
     (interlaced_frame src).
End Frame.

(** A sum of absolute differences over an 8x8 block: two pointers (buffer and
    offset), each with its stride. *)
Definition sad_fn : Type := list Z -> Z -> Z -> list Z -> Z -> Z -> Z.

(** ** The filter's private context *)

Module Ctx.
(** FrameRateContext, field for field.  [flush] is the [int] the code uses
    as a truth value. *)
Record t := mk {
  dest_frame_rate : AVRational.t;
  flags : Z;
  scene_score : spec_float;
  interp_start : Z;
  interp_end : Z;
  interp_start_param : Z;
  interp_end_param : Z;
  line_size : list Z;
  vsub : Z;
  srce_time_base : AVRational.t;
  dest_time_base : AVRational.t;
  sad : sad_fn;
  prev_mafd : spec_float;
  max : Z;
  bitdepth : Z;
  work : option Frame.t;
  f0 : option Frame.t;
  f1 : option Frame.t;
  pts0 : Z;
  pts1 : Z;
  delta : Z;
  score : spec_float;
  flush : bool;
  start_pts : Z;
  n : Z
}.

Definition set_prev_mafd (v : spec_float) (s : t) : t :=
  mk (dest_frame_rate s) (flags s) (scene_score s) (interp_start s)
     (interp_end s) (interp_start_param s) (interp_end_param s) (line_size s)
     (vsub s) (srce_time_base s) (dest_time_base s) (sad s) v (max s)
     (bitdepth s) (work s) (f0 s) (f1 s) (pts0 s) (pts1 s) (delta s)
     (score s) (flush s) (start_pts s) (n s).

Definition set_work (v : option Frame.t) (s : t) : t :=
  mk (dest_frame_rate s) (flags s) (scene_score s) (interp_start s)
     (interp_end s) (interp_start_param s) (interp_end_param s) (line_size s)
     (vsub s) (srce_time_base s) (dest_time_base s) (sad s) (prev_mafd s)
     (max s) (bitdepth s) v (f0 s) (f1 s) (pts0 s) (pts1 s) (delta s)
     (score s) (flush s) (start_pts s) (n s).

Definition set_f0 (v : option Frame.t) (s : t) : t :=
  mk (dest_frame_rate s) (flags s) (scene_score s) (interp_start s)
     (interp_end s) (interp_start_param s) (interp_end_param s) (line_size s)
     (vsub s) (srce_time_base s) (dest_time_base s) (sad s) (prev_mafd s)
     (max s) (bitdepth s) (work s) v (f1 s) (pts0 s) (pts1 s) (delta s)
     (score s) (flush s) (start_pts s) (n s).

Definition set_f1 (v : option Frame.t) (s : t) : t :=
  mk (dest_frame_rate s) (flags s) (scene_score s) (interp_start s)
     (interp_end s) (interp_start_param s) (interp_end_param s) (line_size s)
     (vsub s) (srce_time_base s) (dest_time_base s) (sad s) (prev_mafd s)
     (max s) (bitdepth s) (work s) (f0 s) v (pts0 s) (pts1 s) (delta s)
     (score s) (flush s) (start_pts s) (n s).

Definition set_pts0 (v : Z) (s : t) : t :=
  mk (dest_frame_rate s) (flags s) (scene_score s) (interp_start s)
     (interp_end s) (interp_start_param s) (interp_end_param s) (line_size s)
     (vsub s) (srce_time_base s) (dest_time_base s) (sad s) (prev_mafd s)
     (max s) (bitdepth s) (work s) (f0 s) (f1 s) v (pts1 s) (delta s)
     (score s) (flush s) (start_pts s) (n s).

Definition set_pts1 (v : Z) (s : t) : t :=
  mk (dest_frame_rate s) (flags s) (scene_score s) (interp_start s)
     (interp_end s) (interp_start_param s) (interp_end_param s) (line_size s)
     (vsub s) (srce_time_base s) (dest_time_base s) (sad s) (prev_mafd s)
     (max s) (bitdepth s) (work s) (f0 s) (f1 s) (pts0 s) v (delta s)
     (score s) (flush s) (start_pts s) (n s).

Definition set_delta (v : Z) (s : t) : t :=
  mk (dest_frame_rate s) (flags s) (scene_score s) (interp_start s)
     (interp_end s) (interp_start_param s) (interp_end_param s) (line_size s)
     (vsub s) (srce_time_base s) (dest_time_base s) (sad s) (prev_mafd s)
     (max s) (bitdepth s) (work s) (f0 s) (f1 s) (pts0 s) (pts1 s) v
     (score s) (flush s) (start_pts s) (n s).

Definition set_score (v : spec_float) (s : t) : t :=
  mk (dest_frame_rate s) (flags s) (scene_score s) (interp_start s)
     (interp_end s) (interp_start_param s) (interp_end_param s) (line_size s)
     (vsub s) (srce_time_base s) (dest_time_base s) (sad s) (prev_mafd s)
     (max s) (bitdepth s) (work s) (f0 s) (f1 s) (pts0 s) (pts1 s) (delta s)
     v (flush s) (start_pts s) (n s).

Definition set_flush (v : bool) (s : t) : t :=
  mk (dest_frame_rate s) (flags s) (scene_score s) (interp_start s)
     (interp_end s) (interp_start_param s) (interp_end_param s) (line_size s)
     (vsub s) (srce_time_base s) (dest_time_base s) (sad s) (prev_mafd s)
     (max s) (bitdepth s) (work s) (f0 s) (f1 s) (pts0 s) (pts1 s) (delta s)
     (score s) v (start_pts s) (n s).

Definition set_start_pts (v : Z) (s : t) : t :=
  mk (dest_frame_rate s) (flags s) (scene_score s) (interp_start s)
     (interp_end s) (interp_start_param s) (interp_end_param s) (line_size s)
     (vsub s) (srce_time_base s) (dest_time_base s) (sad s) (prev_mafd s)
     (max s) (bitdepth s) (work s) (f0 s) (f1 s) (pts0 s) (pts1 s) (delta s)
     (score s) (flush s) v (n s).

Definition set_n (v : Z) (s : t) : t :=
  mk (dest_frame_rate s) (flags s) (scene_score s) (interp_start s)
     (interp_end s) (interp_start_param s) (interp_end_param s) (line_size s)
     (vsub s) (srce_time_base s) (dest_time_base s) (sad s) (prev_mafd s)
     (max s) (bitdepth s) (work s) (f0 s) (f1 s) (pts0 s) (pts1 s) (delta s)
     (score s) (flush s) (start_pts s) v.
End Ctx.

Definition FRAMERATE_FLAG_SCD : Z := 1.

(** ** Scene detector *)

Definition sad_8x8_16 (src1 : list Z) (o1 stride1 : Z)
    (src2 : list Z) (o2 stride2 : Z) : Z :=
  let '(sum, _, _) :=
    for_range 0 1 8
      (fun y '(sum, o1, o2) =>
         let sum :=
           for_range 0 1 8
             (fun x sum => sum + FFABS (load src1 (o1 + x) - load src2 (o2 + x)))
             sum in
         (sum, o1 + stride1, o2 + stride2))
      (0, o1, o2) in
  sum.

Definition scene_sad16 (s : Ctx.t) (p1 : list Z) (p1_linesize : Z)
    (p2 : list Z) (p2_linesize : Z) (width height : Z) : Z :=
  for_range 0 8 (height - 7)
    (fun y sad =>
       for_range 0 8 (width - 7)
         (fun x sad =>
            sad + sad_8x8_16 p1 (y * p1_linesize + x) p1_linesize
                             p2 (y * p2_linesize + x) p2_linesize)
         sad)
    0.

Definition scene_sad8 (s : Ctx.t) (p1 : list Z) (p1_linesize : Z)
    (p2 : list Z) (p2_linesize : Z) (width height : Z) : Z :=
  for_range 0 8 (height - 7)
    (fun y sad =>
       for_range 0 8 (width - 7)
         (fun x sad =>
            sad + Ctx.sad s p1 (y * p1_linesize + x) p1_linesize
                            p2 (y * p2_linesize + x) p2_linesize)
         sad)
    0.

(** The luma pointer [f->data[0]]. *)
Definition luma (f : Frame.t) : list Z := default [] (Frame.plane f 0).

(** The mean absolute frame difference of line 162: the sum converted to
    [double], times [100.0], divided by the two [int]s converted. *)
Definition mafd_of (s : Ctx.t) (crnt : Frame.t) (sad : Z) : spec_float :=
  double_div
    (double_div
       (double_mul (int_to_double sad) double_100)
       (int_to_double (FFMAX 1 (Z.land (Frame.height crnt) (Z.lnot 7)
                                * Z.land (Frame.width crnt) (Z.lnot 7)))))
    (int_to_double (Z.shiftl 1 (Ctx.bitdepth s))).

(** get_scene_score.  The arguments of av_clipf are converted to [float],
    the type of its parameters, and its answer back to [double]. *)
Definition get_scene_score (s : Ctx.t) (crnt next : Frame.t)
  : spec_float * Ctx.t :=
  if (Frame.height crnt =? Frame.height next)
     && (Frame.width crnt =? Frame.width next)
  then
    let sad :=
      if Ctx.bitdepth s =? 8 then
        scene_sad8 s (luma crnt) (Frame.stride crnt 0)
                     (luma next) (Frame.stride next 0)
                     (Frame.width crnt) (Frame.height crnt)
      else
        scene_sad16 s (luma crnt) (Frame.stride crnt 0 ÷ 2)
                      (luma next) (Frame.stride next 0 ÷ 2)
                      (Frame.width crnt) (Frame.height crnt) in
    let mafd := mafd_of s crnt sad in
    let diff := fabs (double_sub mafd (Ctx.prev_mafd s)) in
    let ret :=
      float_to_double
        (av_clipf (double_to_float (FFMINd mafd diff))
                  (int_to_float 0) (double_to_float double_100)) in
    (ret, Ctx.set_prev_mafd mafd s)
  else (double_zero, s).

(** ** Blend engine *)

Module ThreadData.
Record t := mk {
  copy_src1 : Frame.t;
  copy_src2 : Frame.t;
  src1_factor : Z;
  src2_factor : Z
}.
End ThreadData.

(** The two nested loops every branch of the slice functions runs: lines
    [start] to [end_], [width] samples a line, the three pointers moved on by
    their line sizes after each line.  [px] is the sample expression of the
    branch, conversion to the destination type included. *)
Definition blend_lines (px : Z -> Z -> Z) (start end_ width : Z)
    (src1 : list Z) (ls1 : Z) (src2 : list Z) (ls2 : Z) (lsd : Z)
    (st : list Z * Z * Z * Z) : list Z * Z * Z * Z :=
  for_range start 1 end_
    (fun line '(dst, o1, o2, od) =>
       (for_range 0 1 width
          (fun pixel dst =>
             store dst (od + pixel)
                   (px (load src1 (o1 + pixel)) (load src2 (o2 + pixel))))
          dst,
        o1 + ls1, o2 + ls2, od + lsd))
    st.

(** [for (plane = 0; plane < 4 && src1->data[plane] && src2->data[plane];
    plane++)]. *)
Fixpoint planes_loop (fuel : nat) (plane : Z) (td : ThreadData.t)
    (body : Z -> list Z -> list Z -> Ctx.t -> Ctx.t) (s : Ctx.t) : Ctx.t :=
  match fuel with
  | O => s
  | S fuel' =>
      if plane <? 4 then
        match Frame.plane (ThreadData.copy_src1 td) (Z.to_nat plane),
              Frame.plane (ThreadData.copy_src2 td) (Z.to_nat plane) with
        | Some d1, Some d2 =>
            planes_loop fuel' (plane + 1) td body (body plane d1 d2 s)
        | _, _ => s
        end
      else s
  end.

(** The body of the plane loop, shared by the two slice functions: [sample] is
    the size of a sample in bytes (the 16-bit function halves every line size),
    [luma_px] and [chroma_px] the sample expressions of its two branches. *)
Definition slice_plane (sample : Z) (luma_px chroma_px : Z -> Z -> Z)
    (td : ThreadData.t) (job nb_jobs : Z)
    (plane : Z) (cpy_src1_data cpy_src2_data : list Z) (s : Ctx.t) : Ctx.t :=
  let p := Z.to_nat plane in
  let cpy_line_width := default 0 (Ctx.line_size s !! p) in
  let cpy_src1_line_size := Frame.stride (ThreadData.copy_src1 td) p ÷ sample in
  let cpy_src2_line_size := Frame.stride (ThreadData.copy_src2 td) p ÷ sample in
  let cpy_src_h :=
    if (0 <? plane) && (plane <? 3)
    then Z.shiftr (Frame.height (ThreadData.copy_src1 td)) (Ctx.vsub s)
    else Frame.height (ThreadData.copy_src1 td) in
  match Ctx.work s with
  | None => s
  | Some work =>
      match Frame.plane work p with
      | None => s
      | Some cpy_dst_data =>
          let cpy_dst_line_size := Frame.stride work p ÷ sample in
          let start := (cpy_src_h * job) ÷ nb_jobs in
          let end_ := (cpy_src_h * (job + 1)) ÷ nb_jobs in
          let st := (cpy_dst_data, start * cpy_src1_line_size,
                     start * cpy_src2_line_size, start * cpy_dst_line_size) in
          let '(dst, _, _, _) :=
            if (plane <? 1) || (2 <? plane) then
              (* luma or alpha *)
              blend_lines luma_px start end_ cpy_line_width
                cpy_src1_data cpy_src1_line_size
                cpy_src2_data cpy_src2_line_size cpy_dst_line_size st
            else
              (* chroma *)
              blend_lines chroma_px start end_ cpy_line_width
                cpy_src1_data cpy_src1_line_size
                cpy_src2_data cpy_src2_line_size cpy_dst_line_size st in
          Ctx.set_work (Some (Frame.set_plane p dst work)) s
      end
  end.

(** The sample expressions of filter_slice8, with the conversion to
    [uint8_t] of the store. *)
Definition luma8 (src1_factor src2_factor : Z) (a b : Z) : Z :=
  u8 (Z.shiftr (a * src1_factor + b * src2_factor + 128) 8).

Definition chroma8 (src1_factor src2_factor : Z) (a b : Z) : Z :=
  u8 (Z.shiftr ((a - 128) * src1_factor + (b - 128) * src2_factor + 32896) 8).

Definition filter_slice8 (s : Ctx.t) (td : ThreadData.t) (job nb_jobs : Z)
  : Ctx.t :=
  let src1_factor := ThreadData.src1_factor td in
  let src2_factor := ThreadData.src2_factor td in
  planes_loop 4 0 td
    (slice_plane 1 (luma8 src1_factor src2_factor)
                   (chroma8 src1_factor src2_factor) td job nb_jobs)
    s.

(** The sample expressions of filter_slice16, with the conversion to
    [uint16_t] of the store. *)
Definition luma16 (half shift src1_factor src2_factor : Z) (a b : Z) : Z :=
  u16 (Z.shiftr (a * src1_factor + b * src2_factor + half) shift).

Definition chroma16 (half uv shift src1_factor src2_factor : Z) (a b : Z)
  : Z :=
  u16 (Z.shiftr ((a - half) * src1_factor + (b - half) * src2_factor + uv)
                shift).

Definition filter_slice16 (s : Ctx.t) (td : ThreadData.t) (job nb_jobs : Z)
  : Ctx.t :=
  let src1_factor := ThreadData.src1_factor td in
  let src2_factor := ThreadData.src2_factor td in
  let half := Ctx.max s ÷ 2 in
  let uv := (Ctx.max s + 1) * half in
  let shift := Ctx.bitdepth s in
  planes_loop 4 0 td
    (slice_plane 2 (luma16 half shift src1_factor src2_factor)
                   (chroma16 half uv shift src1_factor src2_factor)
                   td job nb_jobs)
    s.

(** The jobs of a call of [ctx->internal->execute], run one after the other
    in the order [order]. *)
Definition run_jobs (func : Ctx.t -> ThreadData.t -> Z -> Z -> Ctx.t)
    (td : ThreadData.t) (nb_jobs : Z) (order : list Z) (s : Ctx.t) : Ctx.t :=
  fold_left (fun s job => func s td job nb_jobs) order s.

(** The rest of the filter graph, as the filter calls it: the geometry of the
    output link and the number of slice threads; the order in which the
    slice-thread pool takes the jobs of a call, every job from 0 to
    [nb_jobs - 1] once, which is the pool's to choose and may differ from
    call to call; the allocation of an output buffer ([None]: no memory); a
    new reference to a frame ([None]: no memory), which is the frame it
    refers to; and the downstream filter, which answers a pushed frame with a
    status. *)
Class FilterGraph := {
  outlink_w : Z;
  outlink_h : Z;
  ff_filter_get_nb_threads : Z;
  job_order : Ctx.t -> Z -> list Z;
  job_order_all : forall s nb_jobs, job_order s nb_jobs ≡ₚ seqZ 0 nb_jobs;
  ff_get_video_buffer : Z -> Z -> option Frame.t;
  av_frame_clone : Frame.t -> option Frame.t;
  av_frame_clone_ref : forall f g, av_frame_clone f = Some g -> g = f;
  ff_filter_frame : Frame.t -> Z
}.

Inductive warning : Type :=
| WInterlaced
| WNoPTS
| WSamePTS
| WDiscontinuity
| WInexact.

(** What a call lets the outside see: a warning logged, a frame passed to
    the output link. *)
Inductive event : Type :=
| Warn (w : warning)
| Out (f : Frame.t).

(** The frames of a trace, in order. *)
Definition outputs (evs : list event) : list Frame.t :=
  omap (fun e => match e with Out f => Some f | Warn _ => None end) evs.

Section Filter.
Context {graph : FilterGraph}.

(** [ctx->internal->execute]: the slice-thread pool runs the jobs 0 to
    [nb_jobs - 1] of [func] and waits for all of them.  The jobs read the two
    sources and store into the work frame, nothing else; the model takes each
    job as a whole, in the order of the pool. *)
Definition execute (func : Ctx.t -> ThreadData.t -> Z -> Z -> Ctx.t)
    (td : ThreadData.t) (nb_jobs : Z) (s : Ctx.t) : Ctx.t :=
  run_jobs func td nb_jobs (job_order s nb_jobs) s.

Definition blend_frames (s : Ctx.t) (interpolate : Z) : Z * Ctx.t :=
  match Ctx.f0 s, Ctx.f1 s with
  | Some fr0, Some fr1 =>
      let '(interpolate_scene_score, s) :=
        if negb (Z.land (Ctx.flags s) FRAMERATE_FLAG_SCD =? 0) then
          if fp_le double_zero (Ctx.score s) then (Ctx.score s, s)
          else
            let '(r, s) := get_scene_score s fr0 fr1 in
            (r, Ctx.set_score r s)
        else (double_zero, s) in
      (* decide if the shot-change detection allows us to blend two frames *)
      if fp_lt interpolate_scene_score (Ctx.scene_score s) then
        let src2_factor := u16 interpolate in
        let src1_factor := u16 (Ctx.max s - src2_factor) in
        let td := ThreadData.mk fr0 fr1 src1_factor src2_factor in
        (* get work-space for output frame *)
        match ff_get_video_buffer outlink_w outlink_h with
        | None => (AVERROR_ENOMEM, Ctx.set_work None s)
        | Some buf =>
            let s := Ctx.set_work (Some (Frame.copy_props buf fr0)) s in
            let s :=
              execute (if Ctx.bitdepth s =? 8 then filter_slice8
                       else filter_slice16)
                      td (FFMIN outlink_h ff_filter_get_nb_threads) s in
            (1, s)
        end
      else (0, s)
  | _, _ => (0, s)
  end.

(** The end of process_work_frame, from line 355 on. *)
Definition emit_work (work_pts : Z) (s : Ctx.t) : Z * Ctx.t :=
  match Ctx.work s with
  | None => (AVERROR_ENOMEM, s)
  | Some w =>
      (1, Ctx.set_n (Ctx.n s + 1)
            (Ctx.set_work (Some (Frame.set_pts work_pts w)) s))
  end.

(** The candidate timestamp of line 329. *)
Definition work_pts_of (s : Ctx.t) : Z :=
  Ctx.start_pts s
  + av_rescale_q (Ctx.n s) (av_inv_q (Ctx.dest_frame_rate s))
                 (Ctx.dest_time_base s).

Definition process_work_frame (s : Ctx.t) : Z * Ctx.t :=
  match Ctx.f1 s with
  | None => (0, s)
  | Some fr1 =>
      if negb (is_set (Ctx.f0 s)) && negb (Ctx.flush s)
      then (0, s)
      else
        let work_pts := work_pts_of s in
        if (work_pts >=? Ctx.pts1 s) && negb (Ctx.flush s) then (0, s)
        else
          match Ctx.f0 s with
          | None => emit_work work_pts (Ctx.set_work (av_frame_clone fr1) s)
          | Some fr0 =>
              if (work_pts >=? Ctx.pts1 s + Ctx.delta s) && Ctx.flush s
              then (0, s)
              else
                let interpolate :=
                  to_int (av_rescale (work_pts - Ctx.pts0 s) (Ctx.max s)
                                     (Ctx.delta s)) in
                if interpolate >? Ctx.interp_end s then
                  emit_work work_pts (Ctx.set_work (av_frame_clone fr1) s)
                else if interpolate <? Ctx.interp_start s then
                  emit_work work_pts (Ctx.set_work (av_frame_clone fr0) s)
                else
                  let '(ret, s) := blend_frames s interpolate in
                  if ret <? 0 then (ret, s)
                  else if ret =? 0 then
                    emit_work work_pts
                      (Ctx.set_work
                         (av_frame_clone
                            (if interpolate >? Z.shiftr (Ctx.max s) 1
                             then fr1 else fr0))
                         s)
                  else emit_work work_pts s
          end
  end.

(** Lines 448 to 464 of filter_frame: the window takes the frame, whose
    timestamp in the destination time base is [pts]. *)
Definition shift_window (s : Ctx.t) (inpicref : Frame.t) (pts : Z)
  : Ctx.t * list event :=
  let s := Ctx.set_f0 None s in
  let s := Ctx.set_f0 (Ctx.f1 s) s in
  let s := Ctx.set_pts0 (Ctx.pts1 s) s in
  let s := Ctx.set_f1 (Some inpicref) s in
  let s := Ctx.set_pts1 pts s in
  let s := Ctx.set_delta (Ctx.pts1 s - Ctx.pts0 s) s in
  let s := Ctx.set_score double_minus_one s in
  let '(s, log) :=
    if Ctx.delta s <? 0 then
      let s := Ctx.set_start_pts (Ctx.pts1 s) s in
      let s := Ctx.set_n 0 s in
      (Ctx.set_f0 None s, [Warn WDiscontinuity])
    else (s, []) in
  let s :=
    if Ctx.start_pts s =? AV_NOPTS_VALUE
    then Ctx.set_start_pts (Ctx.pts1 s) s else s in
  (s, log).

(** The do-while loop of filter_frame.  [None]: the loop is still running
    when the fuel is spent (or it would pass a NULL frame on, which
    process_work_frame excludes when it answers 1). *)
Fixpoint output_loop (fuel : nat) (s : Ctx.t)
  : option (Z * Ctx.t * list event) :=
  match fuel with
  | O => None
  | S fuel' =>
      let '(ret, s) := process_work_frame s in
      if ret <=? 0 then Some (ret, s, [])
      else
        match Ctx.work s with
        | None => None
        | Some w =>
            let ret := ff_filter_frame w in
            if ret >=? 0 then
              match output_loop fuel' s with
              | Some (ret, s, evs) => Some (ret, s, Out w :: evs)
              | None => None
              end
            else Some (ret, s, [Out w])
        end
  end.

Definition filter_frame (fuel : nat) (s : Ctx.t) (inpicref : Frame.t)
  : option (Z * Ctx.t * list event) :=
  let log0 :=
    if Frame.interlaced_frame inpicref then [Warn WInterlaced] else [] in
  if Frame.pts inpicref =? AV_NOPTS_VALUE then
    Some (0, s, log0 ++ [Warn WNoPTS])
  else
    let pts := av_rescale_q (Frame.pts inpicref) (Ctx.srce_time_base s)
                            (Ctx.dest_time_base s) in
    if is_set (Ctx.f1 s) && (pts =? Ctx.pts1 s) then
      Some (0, s, log0 ++ [Warn WSamePTS])
    else
      let '(s, log1) := shift_window s inpicref pts in
      match output_loop fuel s with
      | Some (ret, s, evs) => Some (ret, s, log0 ++ log1 ++ evs)
      | None => None
      end.

(** request_frame.  [upstream] is what ff_request_frame answered for the
    input link, [s] the context after that call.  [None]: a NULL frame would
    be passed on. *)
Definition request_frame (upstream : Z) (s : Ctx.t)
  : option (Z * Ctx.t * list event) :=
  let ret := upstream in
  if (ret =? AVERROR_EOF) && is_set (Ctx.f1 s)
     && negb (Ctx.flush s)
  then
    let s := Ctx.set_flush true s in
    let '(ret, s) := process_work_frame s in
    if ret <? 0 then Some (ret, s, [])
    else if ret =? 0 then Some (AVERROR_EOF, s, [])
    else
      match Ctx.work s with
      | None => None
      | Some w => Some (ff_filter_frame w, s, [Out w])
      end
  else Some (ret, s, []).

End Filter.

(** ** Setting the filter up *)

Definition sumZ (l : list Z) : Z := foldr Z.add 0 l.

(** Modelled from the spec: the 8x8 function av_pixelutils_get_sad_fn hands
    out (libavutil/pixelutils.c, absent here), the sum of absolute differences
    between corresponding samples of two 8x8 blocks. *)
Definition pixelutils_sad_8x8 : sad_fn :=
  fun src1 o1 stride1 src2 o2 stride2 =>
    sumZ (map (fun y =>
                 sumZ (map (fun x =>
                              Z.abs (load src1 (o1 + y * stride1 + x)
                                     - load src2 (o2 + y * stride2 + x)))
                           (seqZ 0 8)))
              (seqZ 0 8)).

(** The private context as libavfilter hands it to [init]: zeroed, with the
    options of [framerate_options] set. *)
Definition new_context (fps : AVRational.t)
    (interp_start_param interp_end_param : Z) (scene : spec_float) (flags : Z)
  : Ctx.t :=
  Ctx.mk fps flags scene 0 0 interp_start_param interp_end_param [0; 0; 0; 0]
         0 (AVRational.mk 0 0) (AVRational.mk 0 0)
         (fun _ _ _ _ _ _ => 0) (S754_zero false) 0 0 None None None 0 0 0
         (S754_zero false) false 0 0.

Definition init (s : Ctx.t) : Ctx.t := Ctx.set_start_pts AV_NOPTS_VALUE s.

(** config_input.  What it reads from the input link and the pixel format
    descriptor is given: the depth of a component, log2_chroma_h, the bytes of
    a line of each plane (av_image_get_linesize) and the time base. *)
Definition config_input (s : Ctx.t) (depth log2_chroma_h : Z)
    (line_sizes : list Z) (time_base : AVRational.t) : Ctx.t :=
  Ctx.mk (Ctx.dest_frame_rate s) (Ctx.flags s) (Ctx.scene_score s)
         (Z.shiftl (Ctx.interp_start_param s) (depth - 8))
         (Z.shiftl (Ctx.interp_end_param s) (depth - 8))
         (Ctx.interp_start_param s) (Ctx.interp_end_param s)
         line_sizes log2_chroma_h time_base (Ctx.dest_time_base s)
         pixelutils_sad_8x8 (Ctx.prev_mafd s) (Z.shiftl 1 depth) depth
         (Ctx.work s) (Ctx.f0 s) (Ctx.f1 s) (Ctx.pts0 s) (Ctx.pts1 s)
         (Ctx.delta s) (Ctx.score s) (Ctx.flush s) (Ctx.start_pts s)
         (Ctx.n s).

(** The greatest [int]. *)
Definition INT_MAX : Z := 2 ^ 31 - 1.

(** Modelled from the spec: av_gcd of libavutil/mathematics.c, absent here,
    the greatest common divisor of the "GCD reduction". *)
Definition av_gcd (a b : Z) : Z := Z.gcd a b.

Section Reduce.
(** What libavutil answers for a fraction that no pair of [int]s holds: the
    "best-effort approximation", which the specification leaves open. *)
Variable best_effort : Z -> Z -> Z -> AVRational.t.

(** Modelled from the spec: av_reduce of libavutil/rational.c, absent here.
    The fraction [num / den] in lowest terms when both of its terms are at
    most [max], with the answer "exact"; "if no exact representation is
    possible within representable range", the best-effort approximation, with
    the answer "not exact". *)
Definition av_reduce (num den max : Z) : bool * AVRational.t :=
  let g := av_gcd num den in
  if (Z.abs (num / g) <=? max) && (Z.abs (den / g) <=? max)
  then (true, AVRational.mk (num / g) (den / g))
  else (false, best_effort num den max).

(** config_output: the destination time base, and the warning when it is
    not exact. *)
Definition config_output (s : Ctx.t) : Ctx.t * list event :=
  let '(exact, dest_time_base) :=
    av_reduce
      (av_gcd (AVRational.num (Ctx.srce_time_base s)
               * AVRational.num (Ctx.dest_frame_rate s))
              (AVRational.den (Ctx.srce_time_base s)
               * AVRational.den (Ctx.dest_frame_rate s)))
      (AVRational.den (Ctx.srce_time_base s)
       * AVRational.num (Ctx.dest_frame_rate s))
      INT_MAX in
  (Ctx.mk (Ctx.dest_frame_rate s) (Ctx.flags s) (Ctx.scene_score s)
          (Ctx.interp_start s) (Ctx.interp_end s)
          (Ctx.interp_start_param s) (Ctx.interp_end_param s)
          (Ctx.line_size s) (Ctx.vsub s) (Ctx.srce_time_base s)
          dest_time_base
          (Ctx.sad s) (Ctx.prev_mafd s) (Ctx.max s) (Ctx.bitdepth s)
          (Ctx.work s) (Ctx.f0 s) (Ctx.f1 s) (Ctx.pts0 s) (Ctx.pts1 s)
          (Ctx.delta s) (Ctx.score s) (Ctx.flush s) (Ctx.start_pts s)
          (Ctx.n s),
   if exact then [] else [Warn WInexact]).

End Reduce.

(** ** The vocabulary of the proofs *)

(** The context without what the blend engine and the scene detector write. *)
Definition but_work (s : Ctx.t) : Ctx.t := Ctx.set_work None s.

Definition but_frame_state (s : Ctx.t) : Ctx.t :=
  Ctx.set_work None
    (Ctx.set_score double_zero (Ctx.set_prev_mafd double_zero s)).

(** The context without what producing an output writes. *)
Definition but_output (s : Ctx.t) : Ctx.t := but_frame_state (Ctx.set_n 0 s).

(** The number of iterations of [for (i = start; i < bound; i += step)]. *)
Definition trip_count (start step bound : Z) : nat :=
  Z.to_nat ((bound - start + step - 1) / step).


(** The height the slice functions give a plane. *)
Definition plane_height (s : Ctx.t) (src1 : Frame.t) (plane : Z) : Z :=
  if (0 <? plane) && (plane <? 3)
  then Z.shiftr (Frame.height src1) (Ctx.vsub s)
  else Frame.height src1.

(** The lines [lo] to [hi] of two source planes blended into [dst]. *)
Definition blend_rows (px : Z -> Z -> Z) (lo hi width : Z)
    (src1 : list Z) (ls1 : Z) (src2 : list Z) (ls2 : Z) (lsd : Z)
    (dst : list Z) : list Z :=
  fst (fst (fst (blend_lines px lo hi width src1 ls1 src2 ls2 lsd
                   (dst, lo * ls1, lo * ls2, lo * lsd)))).

(** The body of the plane loop for the lines from [lo h] to [hi h] of a
    plane of [h] lines; [slice_plane] is the case of the bounds of a job. *)
Definition slice_span (sample : Z) (luma_px chroma_px : Z -> Z -> Z)
    (td : ThreadData.t) (lo hi : Z -> Z)
    (plane : Z) (cpy_src1_data cpy_src2_data : list Z) (s : Ctx.t) : Ctx.t :=
  let p := Z.to_nat plane in
  match Ctx.work s with
  | None => s
  | Some work =>
      match Frame.plane work p with
      | None => s
      | Some cpy_dst_data =>
          let h := plane_height s (ThreadData.copy_src1 td) plane in
          Ctx.set_work
            (Some (Frame.set_plane p
                     (blend_rows
                        (if (plane <? 1) || (2 <? plane)
                         then luma_px else chroma_px)
                        (lo h) (hi h)
                        (default 0 (Ctx.line_size s !! p))
                        cpy_src1_data
                        (Frame.stride (ThreadData.copy_src1 td) p ÷ sample)
                        cpy_src2_data
                        (Frame.stride (ThreadData.copy_src2 td) p ÷ sample)
                        (Frame.stride work p ÷ sample)
                        cpy_dst_data)
                     work))
            s
      end
  end.

(** The planes the loop of a slice function visits from [plane] on, each
    with its data in the two sources. *)
Fixpoint planes_visited (fuel : nat) (plane : Z) (td : ThreadData.t)
  : list (Z * list Z * list Z) :=
  match fuel with
  | O => []
  | S fuel' =>
      if plane <? 4 then
        match Frame.plane (ThreadData.copy_src1 td) (Z.to_nat plane),
              Frame.plane (ThreadData.copy_src2 td) (Z.to_nat plane) with
        | Some d1, Some d2 =>
            (plane, d1, d2) :: planes_visited fuel' (plane + 1) td
        | _, _ => []
        end
      else []
  end.

(** The lines from [lo h] to [hi h] of every plane the loop visits. *)
Definition slice_all (sample : Z) (luma_px chroma_px : Z -> Z -> Z)
    (td : ThreadData.t) (lo hi : Z -> Z) (s : Ctx.t) : Ctx.t :=
  fold_left (fun a '(p, d1, d2) =>
               slice_span sample luma_px chroma_px td lo hi p d1 d2 a)
            (planes_visited 4 0 td) s.

(** A candidate is due: process_work_frame will make a frame of it or fail.
    Outside a flush that takes both frames of the window and a candidate
    before the newer one; in a flush, either no older frame or a candidate
    before the bound [pts1 + delta]. *)
Definition candidate_due (s : Ctx.t) : bool :=
  is_set (Ctx.f1 s)
  && (if Ctx.flush s
      then negb (is_set (Ctx.f0 s))
           || (work_pts_of s <? Ctx.pts1 s + Ctx.delta s)
      else is_set (Ctx.f0 s) && (work_pts_of s <? Ctx.pts1 s)).

(** The window between two calls of filter_frame: with an older frame there
    is a newer one, a positive [delta] apart; with a frame the cursor has
    started and has reached that frame; without one nothing has started. *)
Definition window_ok (s : Ctx.t) : Prop :=
  (is_set (Ctx.f0 s) = true ->
   is_set (Ctx.f1 s) = true
   /\ Ctx.delta s = Ctx.pts1 s - Ctx.pts0 s /\ 0 < Ctx.delta s)
  /\ (is_set (Ctx.f1 s) = true ->
      Ctx.start_pts s <> AV_NOPTS_VALUE /\ 0 <= Ctx.n s
      /\ Ctx.pts1 s <= work_pts_of s)
  /\ (is_set (Ctx.f1 s) = false ->
      Ctx.start_pts s = AV_NOPTS_VALUE /\ Ctx.n s = 0).

(** A graph in which nothing fails: there is memory for every frame and the
    output link takes every frame. *)
Definition never_fails (graph : FilterGraph) : Prop :=
  (forall f, is_set (av_frame_clone f) = true)
  /\ is_set (ff_get_video_buffer outlink_w outlink_h) = true
  /\ (forall w, 0 <= ff_filter_frame w).



(** A value that is neither an infinity nor NaN. *)
Definition is_finite (x : spec_float) : bool :=
  match x with
  | S754_zero _ | S754_finite _ _ _ => true
  | _ => false
  end.

Definition is_nan (x : spec_float) : bool :=
  match x with S754_nan => true | _ => false end.

(** A [double] that is not negative: [+0], a positive number or
    [+infinity]. *)
Definition not_negative (x : spec_float) : bool :=
  match x with
  | S754_zero false | S754_infinity false | S754_finite false _ _ => true
  | _ => false
  end.

(** ** The contracts of the specification *)

(** The Blend Engine's [blend(src1, src2, weight1, weight2)]: the work frame
    blend_frames builds for these sources and weights, [None] when no buffer
    can be had. *)
Definition blend {graph : FilterGraph} (s : Ctx.t) (src1 src2 : Frame.t)
    (weight1 weight2 : Z) : option Frame.t :=
  match ff_get_video_buffer outlink_w outlink_h with
  | None => None
  | Some buf =>
      Ctx.work
        (execute (if Ctx.bitdepth s =? 8 then filter_slice8 else filter_slice16)
                 (ThreadData.mk src1 src2 weight1 weight2)
                 (FFMIN outlink_h ff_filter_get_nb_threads)
                 (Ctx.set_work (Some (Frame.copy_props buf src1)) s))
  end.

(** The luma SAD of the Scene Detector: the plane is cut into 8x8 blocks,
    rows and columns left over beyond the last whole block are ignored, and
    the SADs of the blocks are added up. *)
Definition luma_sad (p1 : list Z) (stride1 : Z) (p2 : list Z) (stride2 : Z)
    (width height : Z) : Z :=
  sumZ (map (fun by_ =>
               sumZ (map (fun bx =>
                            pixelutils_sad_8x8
                              p1 (8 * by_ * stride1 + 8 * bx) stride1
                              p2 (8 * by_ * stride2 + 8 * bx) stride2)
                         (seqZ 0 (width / 8))))
            (seqZ 0 (height / 8))).

(** The number of samples in whole blocks. *)
Definition usable_pixel_count (width height : Z) : Z :=
  (8 * (height / 8)) * (8 * (width / 8)).

(** [clamp(x, lo, hi)] on rationals. *)
Definition clamp (x lo hi : Q) : Q := Qmax lo (Qmin x hi).

(** The line size of the luma plane in samples, as get_scene_score passes
    it on. *)
Definition luma_stride (s : Ctx.t) (f : Frame.t) : Z :=
  if Ctx.bitdepth s =? 8 then Frame.stride f 0 else Frame.stride f 0 ÷ 2.

(** The MAFD of the specification for a pair of frames, in exact
    arithmetic: the luma SAD "normalized by 100 / usable_pixel_count /
    2^bitdepth". *)
Definition exact_mafd (s : Ctx.t) (crnt next : Frame.t) : Q :=
  (inject_Z (luma_sad (luma crnt) (luma_stride s crnt)
                      (luma next) (luma_stride s next)
                      (Frame.width crnt) (Frame.height crnt))
   * 100
   / inject_Z (usable_pixel_count (Frame.width crnt) (Frame.height crnt))
   / inject_Z (2 ^ Ctx.bitdepth s))%Q.

(** The score of the specification in exact arithmetic:
    [clamp(min(MAFD, |MAFD - previous_MAFD|), 0, 100)]. *)
Definition exact_score (mafd previous_mafd : Q) : Q :=
  clamp (Qmin mafd (Qabs (mafd - previous_mafd))) 0 100.

(** The same two in the arithmetic of the filter: the MAFD in [double], every
    operation rounded; the clamp in [float]. *)
Definition spec_mafd (s : Ctx.t) (crnt next : Frame.t) : spec_float :=
  double_div
    (double_div
       (double_mul
          (int_to_double (luma_sad (luma crnt) (luma_stride s crnt)
                                   (luma next) (luma_stride s next)
                                   (Frame.width crnt) (Frame.height crnt)))
          (int_to_double 100))
       (int_to_double (usable_pixel_count (Frame.width crnt)
                                          (Frame.height crnt))))
    (int_to_double (2 ^ Ctx.bitdepth s)).

Definition spec_score (mafd previous_mafd : spec_float) : spec_float :=
  let m := double_to_float
             (FFMINd mafd (SFabs (double_sub mafd previous_mafd))) in
  if fp_lt m (int_to_float 0) then int_to_float 0
  else if fp_lt (int_to_float 100) m then int_to_float 100
  else m.

(** The [int]s of line 162 have a value: the shift [1 << bitdepth] and the
    product of the two masked sizes of [crnt]. *)
Definition line_162_defined (s : Ctx.t) (crnt : Frame.t) : Prop :=
  0 <= Ctx.bitdepth s <= 30
  /\ Z.land (Frame.height crnt) (Z.lnot 7) * Z.land (Frame.width crnt) (Z.lnot 7)
     < 2 ^ 31.




(** Every sample of a buffer fits into [bits] bits. *)
Definition samples_fit (bits : Z) (buf : list Z) : Prop :=
  Forall (fun v => 0 <= v < 2 ^ bits) buf.



(** The depth config_input sets, for the formats the filter supports. *)
Definition depth_ok (s : Ctx.t) : Prop :=
  Ctx.max s = 2 ^ Ctx.bitdepth s
  /\ (Ctx.bitdepth s = 8 \/ 9 <= Ctx.bitdepth s <= 12).

(** What the Interpolation Policy resolves a candidate to. *)
Inductive decision : Type :=
| Clone (f : Frame.t)
| Blend (src1 src2 : Frame.t) (weight1 weight2 : Z).

Definition realise {graph : FilterGraph} (s : Ctx.t) (d : decision)
  : option Frame.t :=
  match d with
  | Clone f => av_frame_clone f
  | Blend src1 src2 weight1 weight2 => blend s src1 src2 weight1 weight2
  end.

(** Steps 3 and 4 of the policy as the claim words them: a blend when scene
    detection is disabled or the score is below the threshold. *)
Definition claimed_policy (interp_start interp_end max_value : Z)
    (scd_enabled : bool) (score threshold : spec_float) (f0 f1 : Frame.t)
    (ratio : Z) : decision :=
  if ratio >? interp_end then Clone f1
  else if ratio <? interp_start then Clone f0
  else if negb scd_enabled || fp_lt score threshold
       then Blend f0 f1 (max_value - ratio) ratio
  else if ratio >? max_value / 2 then Clone f1
  else Clone f0.

(** Steps 3 and 4 of the policy as the code has them: the score that is
    compared with the threshold is 0 when scene detection is disabled. *)
Definition policy (interp_start interp_end max_value : Z)
    (scd_enabled : bool) (score threshold : spec_float) (f0 f1 : Frame.t)
    (ratio : Z) : decision :=
  if ratio >? interp_end then Clone f1
  else if ratio <? interp_start then Clone f0
  else if fp_lt (if scd_enabled then score else double_zero) threshold
       then Blend f0 f1 (max_value - ratio) ratio
  else if ratio >? max_value / 2 then Clone f1
  else Clone f0.

Definition scd_enabled (s : Ctx.t) : bool :=
  negb (Z.land (Ctx.flags s) FRAMERATE_FLAG_SCD =? 0).

(** The scene score of the window: the cached one, or the detector's, which
    is then cached. *)
Definition window_score (s : Ctx.t) (f0 f1 : Frame.t)
  : spec_float * Ctx.t :=
  if fp_le double_zero (Ctx.score s) then (Ctx.score s, s)
  else
    let '(r, s) := get_scene_score s f0 f1 in
    (r, Ctx.set_score r s).

(** ** The output cursor *)

(** The frames of a stream pushed into the filter one after the other,
    whatever the calls answer; the events of the calls, in order. *)
Fixpoint run {graph : FilterGraph} (fuel : nat) (s : Ctx.t)
    (frames : list Frame.t) : option (Ctx.t * list event) :=
  match frames with
  | [] => Some (s, [])
  | f :: rest =>
      match filter_frame fuel s f with
      | Some (_, s1, evs1) =>
          match run fuel s1 rest with
          | Some (s2, evs2) => Some (s2, evs1 ++ evs2)
          | None => None
          end
      | None => None
      end
  end.

(** One period of the output, [1 / dest_frame_rate], in ticks of the
    destination time base, as the fraction av_rescale_q forms. *)
Definition period_num (s : Ctx.t) : Z :=
  AVRational.den (Ctx.dest_frame_rate s) * AVRational.den (Ctx.dest_time_base s).

Definition period_den (s : Ctx.t) : Z :=
  AVRational.num (Ctx.dest_time_base s) * AVRational.num (Ctx.dest_frame_rate s).

(** [rescale(n, 1 / dest_frame_rate, dest_time_base)]. *)
Definition periods (s : Ctx.t) (n : Z) : Z :=
  av_rescale_q n (av_inv_q (Ctx.dest_frame_rate s)) (Ctx.dest_time_base s).

(** The timestamp of a frame in the destination time base. *)
Definition dest_pts (s : Ctx.t) (f : Frame.t) : Z :=
  av_rescale_q (Frame.pts f) (Ctx.srce_time_base s) (Ctx.dest_time_base s).

(** The timestamps of [k] outputs in a row, the counter starting at [n0]. *)
Definition cursor_pts (s : Ctx.t) (n0 : Z) (k : nat) : list Z :=
  map (fun i => Ctx.start_pts s + periods s (n0 + Z.of_nat i)) (seq 0 k).

(** ** Reading a result *)

Definition code_of (r : option (Z * Ctx.t * list event)) : option Z :=
  option_map (fun r => fst (fst r)) r.

Definition state_of (r : option (Z * Ctx.t * list event)) : option Ctx.t :=
  option_map (fun r => snd (fst r)) r.

Definition events_of (r : option (Z * Ctx.t * list event))
  : option (list event) :=
  option_map snd r.

(** ** Examples *)

(** A frame of [w] by [h] samples, three planes without padding, every
    sample of a plane the same. *)
Definition flat_frame (w h : Z) (y u v : Z) (pts : Z) : Frame.t :=
  Frame.mk [Some (replicate (Z.to_nat (w * h)) y);
            Some (replicate (Z.to_nat (w * h)) u);
            Some (replicate (Z.to_nat (w * h)) v);
            None]
           [w; w; w; 0] w h pts false.

(** A graph that never runs out of memory and whose output link takes every
    frame: buffers of one-byte samples come zeroed, without padding. *)
Definition plain_graph (w h threads : Z) (fill : Z) : FilterGraph :=
  {| outlink_w := w;
     outlink_h := h;
     ff_filter_get_nb_threads := threads;
     job_order := fun _ nb_jobs => seqZ 0 nb_jobs;
     job_order_all := fun _ _ => reflexivity _;
     ff_get_video_buffer := fun w h => Some (flat_frame w h fill fill fill 0);
     av_frame_clone := Some;
     av_frame_clone_ref :=
       fun f g (H : Some f = Some g) =>
         match H in (_ = o) return (match o with Some g' => g' = f | None => True end)
         with eq_refl => eq_refl end;
     ff_filter_frame := fun _ => 0 |}.

(** The examples set up time bases that are exact; where libavutil's
    approximation of a fraction is wanted it is taken to be 0/1. *)
Definition no_approximation (num den max : Z) : AVRational.t :=
  AVRational.mk 0 1.

(** The filter set up for 4:4:4 input at 25 frames a second and output at
    50, with the default thresholds of interpolation. *)
Definition configured (flags : Z) (scene : spec_float) (depth : Z)
    (line_sizes : list Z) : Ctx.t :=
  fst (config_output no_approximation
         (config_input
            (init (new_context (AVRational.mk 50 1) 15 240 scene flags))
            depth 0 line_sizes (AVRational.mk 1 25))).

(** The default of the option [scene], the [double] nearest to 8.2. *)
Definition scene_default : spec_float :=
  double_div (int_to_double 82) (int_to_double 10).

(** The same with the default options, for 8-bit input. *)
Definition example_context (line_sizes : list Z) : Ctx.t :=
  configured 1 scene_default 8 line_sizes.

(** The same with two-byte samples: frames and a graph for the depths above
    8 bits. *)
Definition deep_frame (w h : Z) (y u v : Z) (pts : Z) : Frame.t :=
  Frame.mk [Some (replicate (Z.to_nat (w * h)) y);
            Some (replicate (Z.to_nat (w * h)) u);
            Some (replicate (Z.to_nat (w * h)) v);
            None]
           [2 * w; 2 * w; 2 * w; 0] w h pts false.

Definition deep_graph (w h threads : Z) (fill : Z) : FilterGraph :=
  {| outlink_w := w;
     outlink_h := h;
     ff_filter_get_nb_threads := threads;
     job_order := fun _ nb_jobs => seqZ 0 nb_jobs;
     job_order_all := fun _ _ => reflexivity _;
     ff_get_video_buffer := fun w h => Some (deep_frame w h fill fill fill 0);
     av_frame_clone := Some;
     av_frame_clone_ref :=
       fun f g (H : Some f = Some g) =>
         match H in (_ = o) return (match o with Some g' => g' = f | None => True end)
         with eq_refl => eq_refl end;
     ff_filter_frame := fun _ => 0 |}.

(** The window of [ctx] after the frames [a] and [b], at the destination
    timestamps 0 and 2, with one output already made: the next candidate is
    the timestamp 1, half way between them. *)
Definition half_way (ctx : Ctx.t) (a b : Frame.t) : Ctx.t :=
  Ctx.set_n 1 (fst (shift_window (fst (shift_window ctx a 0)) b 2)).

(** A graph without memory: no buffer, no new reference. *)
Definition starved_graph (w h threads : Z) : FilterGraph :=
  {| outlink_w := w;
     outlink_h := h;
     ff_filter_get_nb_threads := threads;
     job_order := fun _ nb_jobs => seqZ 0 nb_jobs;
     job_order_all := fun _ _ => reflexivity _;
     ff_get_video_buffer := fun _ _ => None;
     av_frame_clone := fun _ => None;
     av_frame_clone_ref :=
       fun f g (H : None = Some g) =>
         match H in (_ = o) return (match o with Some g' => g' = f | None => True end)
         with eq_refl => I end;
     ff_filter_frame := fun _ => 0 |}.

(** A graph whose output link refuses the frames from the timestamp [limit]
    on, with the code [code]. *)
Definition refusing_graph (w h threads : Z) (limit code : Z) : FilterGraph :=
  {| outlink_w := w;
     outlink_h := h;
     ff_filter_get_nb_threads := threads;
     job_order := fun _ nb_jobs => seqZ 0 nb_jobs;
     job_order_all := fun _ _ => reflexivity _;
     ff_get_video_buffer := fun w h => Some (flat_frame w h 0 0 0 0);
     av_frame_clone := Some;
     av_frame_clone_ref :=
       fun f g (H : Some f = Some g) =>
         match H in (_ = o) return (match o with Some g' => g' = f | None => True end)
         with eq_refl => eq_refl end;
     ff_filter_frame := fun f => if Frame.pts f <? limit then 0 else code |}.






(** A graph like [deep_graph] whose pool runs the jobs from the last to the
    first, with buffers of two-byte samples whose lines lie [stride] samples
    apart. *)
Definition deep_padded_frame (w h stride : Z) (y u v : Z) (pts : Z) : Frame.t :=
  Frame.mk [Some (replicate (Z.to_nat (stride * h)) y);
            Some (replicate (Z.to_nat (stride * h)) u);
            Some (replicate (Z.to_nat (stride * h)) v);
            None]
           [2 * stride; 2 * stride; 2 * stride; 0] w h pts false.

Definition backwards_graph (w h threads : Z) (fill : Z) : FilterGraph :=
  {| outlink_w := w;
     outlink_h := h;
     ff_filter_get_nb_threads := threads;
     job_order := fun _ nb_jobs => reverse (seqZ 0 nb_jobs);
     job_order_all := fun _ nb_jobs => reverse_Permutation (seqZ 0 nb_jobs);
     ff_get_video_buffer := fun w h => Some (deep_frame w h fill fill fill 0);
     av_frame_clone := Some;
     av_frame_clone_ref :=
       fun f g (H : Some f = Some g) =>
         match H in (_ = o) return (match o with Some g' => g' = f | None => True end)
         with eq_refl => eq_refl end;
     ff_filter_frame := fun _ => 0 |}.

(** * Properties *)

(** ** Loops *)

Lemma for_lt_invariant {A : Type} (P : A -> Prop) (body : Z -> A -> A)
    (fuel : nat) (i step bound : Z) (acc : A) :
  P acc -> (forall j a, P a -> P (body j a)) ->
  P (for_lt fuel i step bound body acc).
Proof.
  intros Hacc Hbody. revert i acc Hacc.
  induction fuel as [|fuel IH]; intros i acc Hacc; cbn; [assumption|].
  destruct (i <? bound); auto.
Qed.

Lemma for_range_invariant {A : Type} (P : A -> Prop) (body : Z -> A -> A)
    (start step bound : Z) (acc : A) :
  P acc -> (forall j a, P a -> P (body j a)) ->
  P (for_range start step bound body acc).
Proof. apply for_lt_invariant. Qed.

Lemma for_lt_ext {A : Type} (body1 body2 : Z -> A -> A) (fuel : nat)
    (i step bound : Z) (acc : A) :
  (forall j a, body1 j a = body2 j a) ->
  for_lt fuel i step bound body1 acc = for_lt fuel i step bound body2 acc.
Proof.
  intros H. revert i acc. induction fuel as [|fuel IH]; intros i acc; cbn;
    [reflexivity|].
  destruct (i <? bound); [|reflexivity]. rewrite H. apply IH.
Qed.

Lemma for_range_ext {A : Type} (body1 body2 : Z -> A -> A)
    (start step bound : Z) (acc : A) :
  (forall j a, body1 j a = body2 j a) ->
  for_range start step bound body1 acc = for_range start step bound body2 acc.
Proof. apply for_lt_ext. Qed.

Lemma trip_count_done (start step bound : Z) :
  0 < step -> bound <= start -> trip_count start step bound = O.
Proof.
  intros Hs Hb. unfold trip_count.
  assert ((bound - start + step - 1) / step <= 0); [|lia].
  destruct (Z.eq_dec bound start) as [->|Hne].
  - rewrite Z.div_small; lia.
  - assert ((bound - start + step - 1) / step < 1); [|lia].
    apply Z.div_lt_upper_bound; lia.
Qed.

Lemma trip_count_step (start step bound : Z) :
  0 < step -> start < bound ->
  trip_count start step bound = S (trip_count (start + step) step bound).
Proof.
  intros Hs Hb. unfold trip_count.
  replace (bound - start + step - 1)
    with (bound - (start + step) + step - 1 + 1 * step) by lia.
  rewrite Z.div_add by lia.
  assert (0 <= (bound - (start + step) + step - 1) / step).
  { apply Z.div_pos; lia. }
  lia.
Qed.

Lemma trip_count_le (start step bound : Z) :
  0 < step -> (trip_count start step bound <= Z.to_nat (bound - start))%nat.
Proof.
  intros Hs. unfold trip_count.
  destruct (Z_le_gt_dec bound start) as [Hle|Hgt].
  - pose proof (trip_count_done start step bound Hs Hle) as H.
    unfold trip_count in H. lia.
  - assert ((bound - start + step - 1) / step <= bound - start); [|lia].
    assert (0 <= (step - 1) * (bound - start - 1))
      by (apply Z.mul_nonneg_nonneg; lia).
    apply Z.div_le_upper_bound; lia.
Qed.

(** The rule for the loops of the filter: a property of the number of
    iterations done and of the state holds when the loop ends. *)
Lemma for_lt_count {A : Type} (body : Z -> A -> A) (step bound : Z)
    (fuel : nat) :
  0 < step ->
  forall (P : nat -> A -> Prop) (start : Z) (acc : A),
    (trip_count start step bound <= fuel)%nat ->
    P O acc ->
    (forall k a, (k < trip_count start step bound)%nat -> P k a ->
                 P (S k) (body (start + step * Z.of_nat k) a)) ->
    P (trip_count start step bound) (for_lt fuel start step bound body acc).
Proof.
  intros Hs. induction fuel as [|fuel IH]; intros P start acc Hfuel H0 Hstep.
  - cbn. replace (trip_count start step bound) with O by lia. exact H0.
  - cbn. destruct (start <? bound) eqn:Hlt.
    + apply Z.ltb_lt in Hlt.
      rewrite (trip_count_step start step bound Hs Hlt) in *.
      apply (IH (fun k a => P (S k) a)).
      * lia.
      * specialize (Hstep O acc ltac:(lia) H0).
        replace (start + step * Z.of_nat 0) with start in Hstep by lia.
        exact Hstep.
      * intros k a Hk HP. specialize (Hstep (S k) a ltac:(lia) HP).
        replace (start + step * Z.of_nat (S k))
          with (start + step + step * Z.of_nat k) in Hstep by lia.
        exact Hstep.
    + apply Z.ltb_ge in Hlt.
      rewrite (trip_count_done start step bound Hs Hlt). exact H0.
Qed.

Lemma for_range_count {A : Type} (body : Z -> A -> A) (start step bound : Z)
    (P : nat -> A -> Prop) (acc : A) :
  0 < step ->
  P O acc ->
  (forall k a, (k < trip_count start step bound)%nat -> P k a ->
               P (S k) (body (start + step * Z.of_nat k) a)) ->
  P (trip_count start step bound) (for_range start step bound body acc).
Proof.
  intros Hs H0 Hstep. unfold for_range.
  apply for_lt_count; [exact Hs|apply trip_count_le; exact Hs|exact H0|].
  exact Hstep.
Qed.

Lemma sumZ_app (l1 l2 : list Z) : sumZ (l1 ++ l2) = sumZ l1 + sumZ l2.
Proof.
  unfold sumZ. induction l1 as [|x l1 IH]; cbn; [reflexivity|].
  rewrite IH. lia.
Qed.

Lemma sumZ_seqZ_S (f : Z -> Z) (k : nat) :
  sumZ (map f (seqZ 0 (Z.of_nat (S k))))
  = sumZ (map f (seqZ 0 (Z.of_nat k))) + f (Z.of_nat k).
Proof.
  rewrite seqZ_S, map_app, sumZ_app, Z.add_0_l. cbn. lia.
Qed.

(** A loop that adds [f i] for every index it visits. *)
Lemma for_range_sum (f : Z -> Z) (step bound : Z) (acc : Z) :
  0 < step ->
  for_range 0 step bound (fun i a => a + f i) acc
  = acc + sumZ (map (fun k => f (step * k))
                    (seqZ 0 (Z.of_nat (trip_count 0 step bound)))).
Proof.
  intros Hs.
  apply (for_range_count (fun i a => a + f i) 0 step bound
           (fun k a => a = acc + sumZ (map (fun j => f (step * j))
                                           (seqZ 0 (Z.of_nat k))))).
  - exact Hs.
  - rewrite seqZ_nil by lia. cbn. lia.
  - intros k a _ ->. rewrite sumZ_seqZ_S, Z.add_0_l. lia.
Qed.

Lemma sumZ_ext (f g : Z -> Z) (l : list Z) :
  (forall x, x ∈ l -> f x = g x) -> sumZ (map f l) = sumZ (map g l).
Proof.
  intros H. induction l as [|x l IH]; [reflexivity|].
  cbn. rewrite H by apply list_elem_of_here.
  unfold sumZ in IH. rewrite IH; [reflexivity|].
  intros y Hy. apply H. apply list_elem_of_further. exact Hy.
Qed.

(** ** What each function leaves alone *)

Lemma slice_plane_but_work sample luma_px chroma_px td job nb_jobs plane d1 d2
    (s : Ctx.t) :
  let s' := slice_plane sample luma_px chroma_px td job nb_jobs plane d1 d2 s in
  but_work s' = but_work s /\ is_set (Ctx.work s') = is_set (Ctx.work s).
Proof.
  unfold slice_plane. destruct (Ctx.work s) as [w|] eqn:Hw; [|cbn; rewrite Hw; auto].
  destruct (Frame.plane w _); [|cbn; rewrite Hw; auto].
  destruct (_ || _); destruct (blend_lines _ _ _ _ _ _ _ _ _ _) as [[[dst ?] ?] ?];
    cbn; auto.
Qed.

Lemma planes_loop_invariant (P : Ctx.t -> Prop) fuel plane td body (s : Ctx.t) :
  P s -> (forall p d1 d2 a, P a -> P (body p d1 d2 a)) ->
  P (planes_loop fuel plane td body s).
Proof.
  intros Hs Hbody. revert plane s Hs.
  induction fuel as [|fuel IH]; intros plane s Hs; cbn; [assumption|].
  destruct (plane <? 4); [|assumption].
  destruct (Frame.plane _ _); [|assumption].
  destruct (Frame.plane _ _); auto.
Qed.

Lemma filter_slice8_but_work (s : Ctx.t) td job nb_jobs :
  let s' := filter_slice8 s td job nb_jobs in
  but_work s' = but_work s /\ is_set (Ctx.work s') = is_set (Ctx.work s).
Proof.
  unfold filter_slice8.
  apply (planes_loop_invariant
           (fun a => but_work a = but_work s
                     /\ is_set (Ctx.work a) = is_set (Ctx.work s))); [auto|].
  intros p d1 d2 a [Ha1 Ha2].
  match goal with
  | |- context [slice_plane ?u ?l ?c td job nb_jobs p d1 d2 a] =>
      destruct (slice_plane_but_work u l c td job nb_jobs p d1 d2 a) as [H1 H2]
  end.
  split; congruence.
Qed.

Lemma filter_slice16_but_work (s : Ctx.t) td job nb_jobs :
  let s' := filter_slice16 s td job nb_jobs in
  but_work s' = but_work s /\ is_set (Ctx.work s') = is_set (Ctx.work s).
Proof.
  unfold filter_slice16.
  apply (planes_loop_invariant
           (fun a => but_work a = but_work s
                     /\ is_set (Ctx.work a) = is_set (Ctx.work s))); [auto|].
  intros p d1 d2 a [Ha1 Ha2].
  match goal with
  | |- context [slice_plane ?u ?l ?c td job nb_jobs p d1 d2 a] =>
      destruct (slice_plane_but_work u l c td job nb_jobs p d1 d2 a) as [H1 H2]
  end.
  split; congruence.
Qed.

Lemma run_jobs_invariant (P : Ctx.t -> Prop) func td nb_jobs (order : list Z)
    (s : Ctx.t) :
  P s -> (forall a job, P a -> P (func a td job nb_jobs)) ->
  P (run_jobs func td nb_jobs order s).
Proof.
  intros Hs Hf. unfold run_jobs. revert s Hs.
  induction order as [|job order IH]; intros s Hs; cbn; [exact Hs|].
  apply IH. apply Hf. exact Hs.
Qed.

Lemma run_jobs_but_work func td nb_jobs (order : list Z) (s : Ctx.t) :
  (forall a job,
      but_work (func a td job nb_jobs) = but_work a
      /\ is_set (Ctx.work (func a td job nb_jobs)) = is_set (Ctx.work a)) ->
  let s' := run_jobs func td nb_jobs order s in
  but_work s' = but_work s /\ is_set (Ctx.work s') = is_set (Ctx.work s).
Proof.
  intros Hf.
  apply (run_jobs_invariant
           (fun a => but_work a = but_work s
                     /\ is_set (Ctx.work a) = is_set (Ctx.work s))); [auto|].
  intros a j [H1 H2]. destruct (Hf a j) as [H3 H4]. split; congruence.
Qed.

Lemma execute_but_work {graph : FilterGraph} func td nb_jobs (s : Ctx.t) :
  (forall a job,
      but_work (func a td job nb_jobs) = but_work a
      /\ is_set (Ctx.work (func a td job nb_jobs)) = is_set (Ctx.work a)) ->
  let s' := execute func td nb_jobs s in
  but_work s' = but_work s /\ is_set (Ctx.work s') = is_set (Ctx.work s).
Proof. intros Hf. unfold execute. apply run_jobs_but_work. exact Hf. Qed.

Lemma get_scene_score_but_prev_mafd (s : Ctx.t) crnt next :
  Ctx.set_prev_mafd double_zero (snd (get_scene_score s crnt next))
  = Ctx.set_prev_mafd double_zero s.
Proof.
  unfold get_scene_score. destruct (_ && _); reflexivity.
Qed.

(** blend_frames answers 0, 1 or AVERROR(ENOMEM); it writes the work frame,
    the cached score and the detector's state, nothing else; and when it
    answers 1 there is a work frame. *)
Lemma blend_frames_result {graph : FilterGraph} (s : Ctx.t) (interpolate : Z) :
  let '(ret, s') := blend_frames s interpolate in
  but_frame_state s' = but_frame_state s
  /\ (ret = 0 \/ (ret = 1 /\ is_set (Ctx.work s') = true)
      \/ ret = AVERROR_ENOMEM).
Proof.
  unfold blend_frames.
  destruct (Ctx.f0 s) as [fr0|]; [|auto].
  destruct (Ctx.f1 s) as [fr1|]; [|auto].
  set (gate := if negb (Z.land (Ctx.flags s) FRAMERATE_FLAG_SCD =? 0) then _ else _).
  assert (Hgate : but_frame_state (snd gate) = but_frame_state s).
  { subst gate. destruct (negb _); [|reflexivity].
    destruct (fp_le double_zero (Ctx.score s)); [reflexivity|].
    pose proof (get_scene_score_but_prev_mafd s fr0 fr1) as H.
    destruct (get_scene_score s fr0 fr1) as [r s1]. cbn in *.
    unfold but_frame_state.
    change (Ctx.set_prev_mafd double_zero (Ctx.set_score r s1))
      with (Ctx.set_score r (Ctx.set_prev_mafd double_zero s1)).
    rewrite H. reflexivity. }
  destruct gate as [sc s1]. cbn in Hgate.
  destruct (fp_lt sc (Ctx.scene_score s1)); [|auto].
  destruct (ff_get_video_buffer outlink_w outlink_h) as [buf|].
  - match goal with
    | |- context [execute ?f ?td ?nb ?a] =>
        destruct (execute_but_work f td nb a) as [H1 H2]
    end.
    { intros a job. destruct (Ctx.bitdepth _ =? 8).
      - apply filter_slice8_but_work.
      - apply filter_slice16_but_work. }
    split; [|right; left; split; [reflexivity|rewrite H2; reflexivity]].
    rewrite <- Hgate. unfold but_frame_state.
    apply (f_equal (fun a => Ctx.set_score double_zero (Ctx.set_prev_mafd double_zero a))) in H1.
    exact H1.
  - split; [|auto]. rewrite <- Hgate. reflexivity.
Qed.

Lemma emit_work_result (work_pts : Z) (s : Ctx.t) :
  let '(ret, s') := emit_work work_pts s in
  but_output s' = but_output s
  /\ ((ret = 1 /\ Ctx.n s' = Ctx.n s + 1
       /\ Ctx.work s' = option_map (Frame.set_pts work_pts) (Ctx.work s)
       /\ is_set (Ctx.work s) = true)
      \/ (ret = AVERROR_ENOMEM /\ Ctx.n s' = Ctx.n s /\ Ctx.work s = None)).
Proof.
  unfold emit_work. destruct (Ctx.work s) as [w|] eqn:Hw; cbn.
  - split; [reflexivity|]. left. auto.
  - split; [reflexivity|]. right. auto.
Qed.

(** process_work_frame answers 0 and changes nothing, or answers 1 with a work
    frame stamped with the candidate timestamp and the counter moved on by
    one, or fails for want of memory; in every case the window, the cursor's
    start and the configuration stay as they were. *)
Lemma process_work_frame_result {graph : FilterGraph} (s : Ctx.t) :
  let '(ret, s') := process_work_frame s in
  but_output s' = but_output s
  /\ ((ret = 0 /\ s' = s)
      \/ (ret = 1 /\ Ctx.n s' = Ctx.n s + 1
          /\ exists w, Ctx.work s' = Some w /\ Frame.pts w = work_pts_of s)
      \/ (ret = AVERROR_ENOMEM /\ Ctx.n s' = Ctx.n s)).
Proof.
  assert (Hemit : forall s1 : Ctx.t,
             but_output s1 = but_output s -> Ctx.n s1 = Ctx.n s ->
             let '(ret, s') := emit_work (work_pts_of s) s1 in
             but_output s' = but_output s
             /\ ((ret = 0 /\ s' = s)
                 \/ (ret = 1 /\ Ctx.n s' = Ctx.n s + 1
                     /\ exists w, Ctx.work s' = Some w
                                  /\ Frame.pts w = work_pts_of s)
                 \/ (ret = AVERROR_ENOMEM /\ Ctx.n s' = Ctx.n s))).
  { intros s1 H1 Hn. pose proof (emit_work_result (work_pts_of s) s1) as H.
    destruct (emit_work _ s1) as [ret s']. destruct H as [Hb H].
    split; [congruence|].
    destruct H as [(-> & Hn' & Hw & Hset)|(-> & Hn' & _)].
    - right; left. split; [reflexivity|]. split; [congruence|].
      destruct (Ctx.work s1) as [w|]; [|discriminate].
      exists (Frame.set_pts (work_pts_of s) w). split; [exact Hw|reflexivity].
    - right; right. split; [reflexivity|congruence]. }
  unfold process_work_frame.
  destruct (Ctx.f1 s) as [fr1|]; [|auto].
  destruct (negb (is_set (Ctx.f0 s)) && negb (Ctx.flush s)); [auto|].
  destruct ((work_pts_of s >=? Ctx.pts1 s) && negb (Ctx.flush s)); [auto|].
  destruct (Ctx.f0 s) as [fr0|] eqn:H0.
  2:{ apply Hemit; reflexivity. }
  destruct ((work_pts_of s >=? Ctx.pts1 s + Ctx.delta s) && Ctx.flush s);
    [auto|].
  destruct (_ >? Ctx.interp_end s); [apply Hemit; reflexivity|].
  destruct (_ <? Ctx.interp_start s); [apply Hemit; reflexivity|].
  match goal with
  | |- context [blend_frames s ?i] =>
      pose proof (blend_frames_result s i) as Hb;
      destruct (blend_frames s i) as [ret s1]
  end.
  destruct Hb as [Hb Hret].
  assert (Hb' : but_output s1 = but_output s /\ Ctx.n s1 = Ctx.n s).
  { split.
    - unfold but_output, but_frame_state in *.
      apply (f_equal (Ctx.set_n 0)) in Hb. exact Hb.
    - apply (f_equal Ctx.n) in Hb. exact Hb. }
  destruct Hb' as [Hb1 Hb2].
  destruct Hret as [->|[[-> Hw]| ->]]; cbn [Z.ltb Z.eqb Z.compare].
  - apply (Hemit (Ctx.set_work _ s1)); [exact Hb1|exact Hb2].
  - apply Hemit; assumption.
  - change (AVERROR_ENOMEM <? 0) with true. cbn. split; [exact Hb1|].
    right; right. auto.
Qed.

(** What the window looks like once it has taken a frame. *)
Lemma shift_window_fields (s : Ctx.t) (inpicref : Frame.t) (pts : Z) :
  let s' := fst (shift_window s inpicref pts) in
  let reset := pts - Ctx.pts1 s <? 0 in
  Ctx.f1 s' = Some inpicref /\ Ctx.pts1 s' = pts /\ Ctx.pts0 s' = Ctx.pts1 s
  /\ Ctx.delta s' = pts - Ctx.pts1 s /\ Ctx.flush s' = Ctx.flush s
  /\ Ctx.f0 s' = (if reset then None else Ctx.f1 s)
  /\ Ctx.n s' = (if reset then 0 else Ctx.n s)
  /\ Ctx.start_pts s' =
     (if reset then pts
      else if Ctx.start_pts s =? AV_NOPTS_VALUE then pts else Ctx.start_pts s)
  /\ snd (shift_window s inpicref pts)
     = (if reset then [Warn WDiscontinuity] else []).
Proof.
  unfold shift_window; cbn.
  destruct (pts - Ctx.pts1 s <? 0) eqn:Hd; cbn;
    repeat match goal with |- context [if ?b then _ else _] => destruct b end;
    cbn; auto 12.
Qed.

(** C10.  With no older frame and outside a flush, process_work_frame answers
    0 and leaves the context as it is; when it answers anything else for a
    context without an older frame, the filter is flushing; and the frame that
    arrives at a filter holding no frame produces no output. *)
Theorem C10_no_output_before_second_frame {graph : FilterGraph} (s : Ctx.t) :
  Ctx.f0 s = None ->
  (Ctx.flush s = false -> process_work_frame s = (0, s))
  /\ (fst (process_work_frame s) <> 0 -> Ctx.flush s = true)
  /\ (Ctx.f1 s = None -> Ctx.flush s = false ->
      forall fuel inpicref, exists s' evs,
        filter_frame (S fuel) s inpicref = Some (0, s', evs)
        /\ outputs evs = []).
Proof.
  intros H0. split; [|split].
  - intros Hf. unfold process_work_frame. rewrite H0, Hf.
    destruct (Ctx.f1 s); reflexivity.
  - unfold process_work_frame. rewrite H0.
    destruct (Ctx.f1 s); [|cbn; congruence].
    destruct (Ctx.flush s); [reflexivity|cbn; congruence].
  - intros H1 Hf fuel inpicref. unfold filter_frame.
    destruct (Frame.pts inpicref =? AV_NOPTS_VALUE).
    { eexists _, _. split; [reflexivity|].
      destruct (Frame.interlaced_frame inpicref); reflexivity. }
    rewrite H1. cbn [is_set andb].
    pose proof (shift_window_fields s inpicref
                  (av_rescale_q (Frame.pts inpicref) (Ctx.srce_time_base s)
                     (Ctx.dest_time_base s))) as Hs.
    destruct (shift_window _ _ _) as [s1 log1]. cbn in Hs.
    destruct Hs as (Hf1 & _ & _ & _ & Hfl & Hf0 & _ & _ & Hlog).
    assert (Hf0' : Ctx.f0 s1 = None).
    { rewrite Hf0, H1. destruct (_ <? 0); reflexivity. }
    cbn [output_loop]. unfold process_work_frame.
    rewrite Hf1, Hf0', Hfl, Hf. cbn.
    eexists _, _. split; [reflexivity|].
    unfold outputs. rewrite !omap_app, Hlog.
    destruct (Frame.interlaced_frame inpicref), (_ <? 0); reflexivity.
Qed.

(** The filter as set up, before any frame. *)
Lemma C10_no_output_before_second_frame_witness :
  let g := plain_graph 1 1 1 0 in
  let s := example_context [1; 1; 1; 0] in
  (Ctx.flush s = false -> @process_work_frame g s = (0, s))
  /\ (fst (@process_work_frame g s) <> 0 -> Ctx.flush s = true)
  /\ (Ctx.f1 s = None -> Ctx.flush s = false ->
      forall fuel inpicref, exists s' evs,
        @filter_frame g (S fuel) s inpicref = Some (0, s', evs)
        /\ outputs evs = []).
Proof.
  intros g s.
  apply (@C10_no_output_before_second_frame g s). reflexivity.
Defined.

(** ** Dropped frames, discontinuities and the end of the stream *)

(** C8, as amended.  A frame without a timestamp, and a frame whose rescaled
    timestamp equals [pts1] while the filter holds a current frame, is
    dropped with a warning: filter_frame answers 0, the context is unchanged
    and nothing is output. *)
Theorem C8_dropped_frame_leaves_state {graph : FilterGraph} (fuel : nat)
    (s : Ctx.t) (inpicref : Frame.t) :
  Frame.pts inpicref = AV_NOPTS_VALUE
  \/ (Ctx.f1 s <> None
      /\ av_rescale_q (Frame.pts inpicref) (Ctx.srce_time_base s)
                      (Ctx.dest_time_base s) = Ctx.pts1 s) ->
  exists evs,
    filter_frame fuel s inpicref = Some (0, s, evs)
    /\ outputs evs = []
    /\ (Warn WNoPTS ∈ evs \/ Warn WSamePTS ∈ evs).
Proof.
  intros H. unfold filter_frame.
  destruct (Frame.pts inpicref =? AV_NOPTS_VALUE) eqn:Hp.
  - eexists. split; [reflexivity|]. split.
    + destruct (Frame.interlaced_frame inpicref); reflexivity.
    + left. apply elem_of_app. right. apply list_elem_of_singleton. reflexivity.
  - destruct H as [H|[H1 H2]]; [apply Z.eqb_neq in Hp; contradiction|].
    rewrite H2, Z.eqb_refl. destruct (Ctx.f1 s); [|contradiction]. cbn.
    eexists. split; [reflexivity|]. split.
    + destruct (Frame.interlaced_frame inpicref); reflexivity.
    + right. apply elem_of_app. right. apply list_elem_of_singleton. reflexivity.
Qed.

(** A frame with the timestamp of the frame the filter holds. *)
Lemma C8_dropped_frame_leaves_state_witness :
  let s := Ctx.set_f1 (Some (flat_frame 1 1 0 0 0 0))
             (example_context [1; 1; 1; 0]) in
  exists evs,
    @filter_frame (plain_graph 1 1 1 1) 0 s (flat_frame 1 1 7 7 7 0)
    = Some (0, s, evs)
    /\ outputs evs = []
    /\ (Warn WNoPTS ∈ evs \/ Warn WSamePTS ∈ evs).
Proof.
  apply (@C8_dropped_frame_leaves_state (plain_graph 1 1 1 1)).
  right. split; [discriminate|reflexivity].
Defined.

(** C8 as stated fails before the first frame: [pts1] is still the 0 of the
    zeroed context, a first frame with timestamp 0 equals it, and that frame
    is taken, not dropped. *)
Lemma C8_counterexample :
  let s := example_context [1; 1; 1; 0] in
  let inpicref := flat_frame 1 1 7 7 7 0 in
  let r := @filter_frame (plain_graph 1 1 1 1) 1 s inpicref in
  av_rescale_q (Frame.pts inpicref) (Ctx.srce_time_base s)
               (Ctx.dest_time_base s) = Ctx.pts1 s
  /\ Ctx.f1 s = None
  /\ option_map Ctx.f1 (state_of r) = Some (Some inpicref)
  /\ state_of r <> Some s.
Proof.
  cbv zeta. split; [reflexivity|]. split; [reflexivity|].
  split; [vm_compute; reflexivity|].
  intros H. pose proof (f_equal (option_map Ctx.f1) H) as H'.
  vm_compute in H'. discriminate.
Qed.

(** C6.  An accepted frame whose rescaled timestamp lies before [pts1] resets
    the window: the older frame is cleared, the counter is 0 and the start of
    the cursor is the new timestamp, from which the output loop of the call
    goes on; outside a flush the call then answers 0 with the warning and no
    output. *)
Theorem C6_discontinuity_resets_window {graph : FilterGraph} (fuel : nat)
    (s : Ctx.t) (inpicref : Frame.t) :
  let pts := av_rescale_q (Frame.pts inpicref) (Ctx.srce_time_base s)
                          (Ctx.dest_time_base s) in
  Frame.pts inpicref <> AV_NOPTS_VALUE ->
  pts - Ctx.pts1 s < 0 ->
  exists s1,
    Ctx.f0 s1 = None /\ Ctx.n s1 = 0 /\ Ctx.start_pts s1 = pts
    /\ Ctx.f1 s1 = Some inpicref /\ Ctx.pts1 s1 = pts
    /\ Ctx.delta s1 = pts - Ctx.pts1 s
    /\ (forall fuel',
          filter_frame fuel' s inpicref
          = match output_loop fuel' s1 with
            | Some (ret, s', evs) =>
                Some (ret, s',
                      (if Frame.interlaced_frame inpicref
                       then [Warn WInterlaced] else [])
                      ++ [Warn WDiscontinuity] ++ evs)
            | None => None
            end)
    /\ (Ctx.flush s = false ->
        exists evs,
          filter_frame (S fuel) s inpicref = Some (0, s1, evs)
          /\ outputs evs = [] /\ Warn WDiscontinuity ∈ evs).
Proof.
  intros pts Hp Hd.
  pose proof (shift_window_fields s inpicref pts) as Hs.
  assert (Hfilter : forall fuel',
             filter_frame fuel' s inpicref
             = match output_loop fuel' (fst (shift_window s inpicref pts)) with
               | Some (ret, s', evs) =>
                   Some (ret, s',
                         (if Frame.interlaced_frame inpicref
                          then [Warn WInterlaced] else [])
                         ++ [Warn WDiscontinuity] ++ evs)
               | None => None
               end).
  { intros fuel'. unfold filter_frame.
    apply Z.eqb_neq in Hp. rewrite Hp. fold pts.
    replace (pts =? Ctx.pts1 s) with false by (symmetry; apply Z.eqb_neq; lia).
    rewrite andb_false_r.
    destruct (shift_window s inpicref pts) as [s1 log1]. cbn in Hs |- *.
    destruct Hs as (_ & _ & _ & _ & _ & _ & _ & _ & Hlog).
    apply Z.ltb_lt in Hd. rewrite Hd in Hlog. subst log1. reflexivity. }
  exists (fst (shift_window s inpicref pts)).
  cbn in Hs. destruct Hs as (Hf1 & Hp1 & Hp0 & Hdl & Hfl & Hf0 & Hn & Hst & _).
  pose proof Hd as Hd'. apply Z.ltb_lt in Hd'. rewrite Hd' in *.
  repeat (split; [assumption|]).
  intros Hflush. rewrite Hfilter. cbn [output_loop].
  unfold process_work_frame. rewrite Hf1, Hf0, Hfl, Hflush. cbn.
  eexists. split; [reflexivity|]. split.
  - destruct (Frame.interlaced_frame inpicref); reflexivity.
  - destruct (Frame.interlaced_frame inpicref); cbn;
      eauto using list_elem_of_here, list_elem_of_further.
Qed.

(** A frame at the destination timestamp 20 after a frame at 100. *)
Lemma C6_discontinuity_resets_window_witness :
  let s := Ctx.set_pts1 100 (Ctx.set_f1 (Some (flat_frame 1 1 0 0 0 50))
                               (example_context [1; 1; 1; 0])) in
  let inpicref := flat_frame 1 1 7 7 7 10 in
  exists s1,
    Ctx.f0 s1 = None /\ Ctx.n s1 = 0 /\ Ctx.start_pts s1 = 20
    /\ Ctx.f1 s1 = Some inpicref /\ Ctx.pts1 s1 = 20
    /\ Ctx.delta s1 = -80
    /\ (forall fuel',
          @filter_frame (plain_graph 1 1 1 1) fuel' s inpicref
          = match @output_loop (plain_graph 1 1 1 1) fuel' s1 with
            | Some (ret, s', evs) =>
                Some (ret, s', [] ++ [Warn WDiscontinuity] ++ evs)
            | None => None
            end)
    /\ (Ctx.flush s = false ->
        exists evs,
          @filter_frame (plain_graph 1 1 1 1) 1 s inpicref = Some (0, s1, evs)
          /\ outputs evs = [] /\ Warn WDiscontinuity ∈ evs).
Proof.
  apply (@C6_discontinuity_resets_window (plain_graph 1 1 1 1) 0
           (Ctx.set_pts1 100 (Ctx.set_f1 (Some (flat_frame 1 1 0 0 0 50))
                                (example_context [1; 1; 1; 0])))
           (flat_frame 1 1 7 7 7 10)).
  - discriminate.
  - reflexivity.
Defined.

Lemma work_pts_of_set_flush (b : bool) (s : Ctx.t) :
  work_pts_of (Ctx.set_flush b s) = work_pts_of s.
Proof. reflexivity. Qed.

(** C7, as amended.  At the end of the stream request_frame enters the flush
    and asks process_work_frame for one candidate.  A frame is passed on at
    most once, stamped with the candidate timestamp.  With an older frame in
    the window it is passed on only if the candidate lies below
    [pts1 + delta]; from that bound on, end-of-stream is answered and nothing
    is output.  Without an older frame the current frame is passed on whatever
    the candidate is.  A later request at the end of the stream asks for no
    further candidate. *)
Theorem C7_flush_requests_one_candidate {graph : FilterGraph} (s : Ctx.t)
    (fr1 : Frame.t) :
  Ctx.f1 s = Some fr1 -> Ctx.flush s = false ->
  exists ret s' evs,
    request_frame AVERROR_EOF s = Some (ret, s', evs)
    /\ Ctx.flush s' = true
    /\ (evs = []
        \/ exists w, evs = [Out w] /\ Frame.pts w = work_pts_of s
                     /\ ret = ff_filter_frame w /\ Ctx.n s' = Ctx.n s + 1
                     /\ (Ctx.f0 s = None
                         \/ work_pts_of s < Ctx.pts1 s + Ctx.delta s))
    /\ (Ctx.f0 s <> None -> work_pts_of s >= Ctx.pts1 s + Ctx.delta s ->
        ret = AVERROR_EOF /\ evs = [])
    /\ (Ctx.f0 s = None ->
        evs = match av_frame_clone fr1 with
              | Some _ => [Out (Frame.set_pts (work_pts_of s) fr1)]
              | None => []
              end)
    /\ request_frame AVERROR_EOF s' = Some (AVERROR_EOF, s', []).
Proof.
  intros H1 Hfl.
  set (sf := Ctx.set_flush true s).
  (* the flush check of process_work_frame, with an older frame *)
  assert (Hbound : Ctx.f0 s <> None ->
                   work_pts_of s >= Ctx.pts1 s + Ctx.delta s ->
                   process_work_frame sf = (0, sf)).
  { intros H0 Hge. unfold process_work_frame. subst sf. cbn.
    rewrite H1. destruct (Ctx.f0 s) as [fr0|]; [|contradiction]. cbn.
    rewrite andb_false_r. change (work_pts_of (Ctx.set_flush true s))
      with (work_pts_of s).
    replace (work_pts_of s >=? Ctx.pts1 s + Ctx.delta s) with true
      by (symmetry; apply Z.geb_le; lia).
    reflexivity. }
  assert (Hclone : Ctx.f0 s = None ->
                   process_work_frame sf
                   = emit_work (work_pts_of s)
                       (Ctx.set_work (av_frame_clone fr1) sf)).
  { intros H0. unfold process_work_frame. subst sf. cbn.
    rewrite H1, H0. cbn. rewrite andb_false_r. reflexivity. }
  pose proof (process_work_frame_result sf) as Hres.
  unfold request_frame. rewrite H1, Hfl, Z.eqb_refl. cbn [is_set andb negb].
  fold sf. destruct (process_work_frame sf) as [ret s1].
  destruct Hres as [Hbut Hres].
  assert (Hflush1 : Ctx.flush s1 = true).
  { apply (f_equal Ctx.flush) in Hbut. exact Hbut. }
  assert (Hagain : request_frame AVERROR_EOF s1 = Some (AVERROR_EOF, s1, [])).
  { unfold request_frame. rewrite Hflush1, andb_false_r. reflexivity. }
  assert (Hclone' : Ctx.f0 s = None ->
            match av_frame_clone fr1 with
            | Some _ => ret = 1
                        /\ Ctx.work s1 = Some (Frame.set_pts (work_pts_of s) fr1)
            | None => ret = AVERROR_ENOMEM
            end).
  { intros H0. specialize (Hclone H0). unfold emit_work in Hclone.
    cbn in Hclone. destruct (av_frame_clone fr1) as [g|] eqn:Hg.
    - apply av_frame_clone_ref in Hg. subst g.
      injection Hclone as -> ->. split; reflexivity.
    - injection Hclone as -> ->. reflexivity. }
  destruct Hres as [[-> ->]|[(-> & Hn & w & Hw & Hpts)|[-> Hn]]].
  - (* no candidate due *)
    cbn. eexists _, _, _. split; [reflexivity|].
    split; [reflexivity|]. split; [left; reflexivity|].
    split; [auto|]. split; [|exact Hagain].
    intros H0. specialize (Hclone' H0).
    destruct (av_frame_clone fr1); [destruct Hclone'|]; discriminate.
  - (* one frame passed on *)
    cbn. rewrite Hw. eexists _, _, _. split; [reflexivity|].
    split; [assumption|]. split.
    { right. exists w. repeat (split; [reflexivity || assumption|]).
      destruct (Ctx.f0 s) eqn:H0; [right|left; reflexivity].
      destruct (Z_lt_ge_dec (work_pts_of s) (Ctx.pts1 s + Ctx.delta s))
        as [Hlt|Hge]; [assumption|].
      assert (Hne : Some t <> None) by discriminate.
      specialize (Hbound Hne Hge). discriminate. }
    split.
    { intros H0 Hge. specialize (Hbound H0 Hge). discriminate. }
    split; [|exact Hagain].
    intros H0. specialize (Hclone' H0).
    destruct (av_frame_clone fr1); [|discriminate].
    destruct Hclone' as [_ Hw']. congruence.
  - (* no memory *)
    change (AVERROR_ENOMEM <? 0) with true. cbn.
    eexists _, _, _. split; [reflexivity|].
    split; [assumption|]. split; [left; reflexivity|]. split.
    { intros H0 Hge. specialize (Hbound H0 Hge). discriminate. }
    split; [|exact Hagain].
    intros H0. specialize (Hclone' H0).
    destruct (av_frame_clone fr1); [destruct Hclone'; discriminate|reflexivity].
Qed.

(** The end of a stream of one frame. *)
Lemma C7_flush_requests_one_candidate_witness :
  let fr1 := flat_frame 1 1 7 7 7 0 in
  let s := Ctx.set_f1 (Some fr1) (example_context [1; 1; 1; 0]) in
  exists ret s' evs,
    @request_frame (plain_graph 1 1 1 1) AVERROR_EOF s = Some (ret, s', evs)
    /\ Ctx.flush s' = true
    /\ (evs = []
        \/ exists w, evs = [Out w] /\ Frame.pts w = work_pts_of s
                     /\ ret = 0 /\ Ctx.n s' = Ctx.n s + 1
                     /\ (Ctx.f0 s = None
                         \/ work_pts_of s < Ctx.pts1 s + Ctx.delta s))
    /\ (Ctx.f0 s <> None -> work_pts_of s >= Ctx.pts1 s + Ctx.delta s ->
        ret = AVERROR_EOF /\ evs = [])
    /\ (Ctx.f0 s = None ->
        evs = [Out (Frame.set_pts (work_pts_of s) fr1)])
    /\ @request_frame (plain_graph 1 1 1 1) AVERROR_EOF s'
       = Some (AVERROR_EOF, s', []).
Proof.
  apply (@C7_flush_requests_one_candidate (plain_graph 1 1 1 1)
           (Ctx.set_f1 (Some (flat_frame 1 1 7 7 7 0))
              (example_context [1; 1; 1; 0]))
           (flat_frame 1 1 7 7 7 0)); reflexivity.
Defined.

(** C7 as stated fails when the window holds no older frame.  After the
    timestamps 50 and then 25 of the source (100 and 50 of the destination)
    the window is reset with [pts1 = 50] and [delta = -50]; at the end of the
    stream the candidate 50 is not below the bound 0, and the current frame is
    output all the same. *)
Lemma C7_counterexample :
  let g := plain_graph 1 1 1 1 in
  let a := flat_frame 1 1 1 1 1 50 in
  let b := flat_frame 1 1 2 2 2 25 in
  match state_of (@filter_frame g 1 (example_context [1; 1; 1; 0]) a) with
  | Some s1 =>
      match state_of (@filter_frame g 1 s1 b) with
      | Some s2 =>
          let r := @request_frame g AVERROR_EOF s2 in
          Ctx.flush s2 = false
          /\ Ctx.pts1 s2 + Ctx.delta s2 = 0
          /\ work_pts_of s2 = 50
          /\ code_of r = Some 0
          /\ option_map (fun evs => map Frame.pts (outputs evs))
                        (events_of r) = Some [50]
      | None => False
      end
  | None => False
  end.
Proof. vm_compute. repeat split. Qed.

(** ** Interpolation policy *)

(** The rescaling rounds to a nearest integer. *)
Lemma av_rescale_nearest (a b c : Z) :
  0 < c -> 0 <= b ->
  2 * Z.abs (av_rescale a b c * c - a * b) <= c.
Proof.
  intros Hc Hb. unfold av_rescale, av_rescale_rnd.
  replace (c <=? 0) with false by (symmetry; apply Z.leb_gt; lia).
  replace (b <? 0) with false by (symmetry; apply Z.ltb_ge; lia).
  cbn [orb].
  pose proof (Z.div_mod (Z.abs a * b + c / 2) c ltac:(lia)) as Hdm.
  pose proof (Z.mod_pos_bound (Z.abs a * b + c / 2) c Hc) as Hm.
  pose proof (Z.div_mod c 2 ltac:(lia)) as Hc2.
  pose proof (Z.mod_pos_bound c 2 ltac:(lia)) as Hm2.
  set (q := (Z.abs a * b + c / 2) / c) in *.
  set (r := (Z.abs a * b + c / 2) mod c) in *.
  destruct (Z.abs_spec a) as [[Ha Habs]|[Ha Habs]]; rewrite Habs in *.
  - destruct (Z.eq_dec a 0) as [->|Hne].
    + cbn. lia.
    + rewrite Z.sgn_pos by lia. nia.
  - rewrite Z.sgn_neg by lia. nia.
Qed.

(** The rescaling of a non-negative count. *)
Lemma av_rescale_rnd_nonneg (a b c : Z) :
  0 < c -> 0 <= b -> 0 <= a ->
  av_rescale_rnd a b c = (a * b + c / 2) / c.
Proof.
  intros Hc Hb Ha. unfold av_rescale_rnd.
  replace (c <=? 0) with false by (symmetry; apply Z.leb_gt; lia).
  replace (b <? 0) with false by (symmetry; apply Z.ltb_ge; lia).
  cbn [orb]. destruct (Z.eq_dec a 0) as [->|Hne].
  - change (Z.sgn 0) with 0. change (Z.abs 0) with 0.
    rewrite !Z.mul_0_l, Z.add_0_l. symmetry. apply Z.div_small.
    split; [apply Z.div_pos; lia|apply Z.div_lt; lia].
  - rewrite Z.sgn_pos, Z.abs_eq by lia. lia.
Qed.

Lemma av_rescale_rnd_opp (a b c : Z) :
  0 < c -> 0 <= b -> av_rescale_rnd (- a) b c = - av_rescale_rnd a b c.
Proof.
  intros Hc Hb. unfold av_rescale_rnd.
  replace (c <=? 0) with false by (symmetry; apply Z.leb_gt; lia).
  replace (b <? 0) with false by (symmetry; apply Z.ltb_ge; lia).
  cbn [orb]. rewrite Z.sgn_opp, Z.abs_opp. lia.
Qed.

Lemma to_int_small (v : Z) : - 2 ^ 31 <= v < 2 ^ 31 -> to_int v = v.
Proof.
  intros H. unfold to_int. rewrite Z.mod_small by lia. lia.
Qed.

Lemma u16_small (v : Z) : 0 <= v < 2 ^ 16 -> u16 v = v.
Proof. intros H. unfold u16. apply Z.mod_small. exact H. Qed.


Lemma but_work_eq (a b : Ctx.t) :
  but_work a = but_work b -> a = Ctx.set_work (Ctx.work a) b.
Proof.
  destruct a, b. unfold but_work. cbn. intros H. injection H. intros.
  subst. reflexivity.
Qed.

(** blend_frames, when its two frames are there and the weights fit their
    type: the gate of the scene score, then the Blend Engine. *)
Lemma blend_frames_spec {graph : FilterGraph} (s : Ctx.t) (fr0 fr1 : Frame.t)
    (interpolate : Z) :
  Ctx.f0 s = Some fr0 -> Ctx.f1 s = Some fr1 ->
  0 <= interpolate <= Ctx.max s -> Ctx.max s < 2 ^ 16 ->
  let '(sc, s1) :=
    if scd_enabled s then window_score s fr0 fr1 else (double_zero, s) in
  blend_frames s interpolate
  = if fp_lt sc (Ctx.scene_score s) then
      match blend s1 fr0 fr1 (Ctx.max s - interpolate) interpolate with
      | Some w => (1, Ctx.set_work (Some w) s1)
      | None => (AVERROR_ENOMEM, Ctx.set_work None s1)
      end
    else (0, s1).
Proof.
  intros H0 H1 Hi Hmax. unfold blend_frames, scd_enabled, window_score.
  rewrite H0, H1.
  set (gate := if negb (Z.land (Ctx.flags s) FRAMERATE_FLAG_SCD =? 0)
               then _ else _).
  assert (Hgate : but_frame_state (snd gate) = but_frame_state s).
  { subst gate. destruct (negb _); [|reflexivity].
    destruct (fp_le double_zero (Ctx.score s)); [reflexivity|].
    pose proof (get_scene_score_but_prev_mafd s fr0 fr1) as H.
    destruct (get_scene_score s fr0 fr1) as [r s1]. cbn in *.
    unfold but_frame_state.
    change (Ctx.set_prev_mafd double_zero (Ctx.set_score r s1))
      with (Ctx.set_score r (Ctx.set_prev_mafd double_zero s1)).
    rewrite H. reflexivity. }
  destruct gate as [sc s1]. cbn in Hgate.
  assert (Hsc : Ctx.scene_score s1 = Ctx.scene_score s)
    by (apply (f_equal Ctx.scene_score) in Hgate; exact Hgate).
  assert (Hmx : Ctx.max s1 = Ctx.max s)
    by (apply (f_equal Ctx.max) in Hgate; exact Hgate).
  rewrite Hsc, Hmx.
  destruct (fp_lt sc (Ctx.scene_score s)); [|reflexivity].
  rewrite (u16_small interpolate) by lia.
  rewrite (u16_small (Ctx.max s - interpolate)) by lia.
  unfold blend.
  destruct (ff_get_video_buffer outlink_w outlink_h) as [buf|]; [|reflexivity].
  cbn [Ctx.bitdepth Ctx.set_work].
  match goal with
  | |- context [execute ?f ?td ?nb ?a] =>
      destruct (execute_but_work f td nb a) as [Hb1 Hb2];
      [|set (s2 := execute f td nb a) in *]
  end.
  { intros a job. destruct (Ctx.bitdepth _ =? 8).
    - apply filter_slice8_but_work.
    - apply filter_slice16_but_work. }
  cbn in Hb2. destruct (Ctx.work s2) as [w|] eqn:Hw; [|discriminate].
  f_equal. apply but_work_eq in Hb1. rewrite Hb1, Hw. reflexivity.
Qed.

Lemma window_score_but_frame_state (s : Ctx.t) (fr0 fr1 : Frame.t) :
  but_frame_state (snd (window_score s fr0 fr1)) = but_frame_state s.
Proof.
  unfold window_score. destruct (fp_le double_zero (Ctx.score s)); [reflexivity|].
  pose proof (get_scene_score_but_prev_mafd s fr0 fr1) as H.
  destruct (get_scene_score s fr0 fr1) as [r s1]. cbn in *.
  unfold but_frame_state.
  change (Ctx.set_prev_mafd double_zero (Ctx.set_score r s1))
    with (Ctx.set_score r (Ctx.set_prev_mafd double_zero s1)).
  rewrite H. reflexivity.
Qed.

(** C1, as amended.  For a candidate processed while both frames of the
    window are set, with [ratio] the rescaling of [candidate - pts0] by
    [max / delta] (a nearest integer of the quotient): above [interp_end] the
    output is a clone of f1, below [interp_start] a clone of f0; in between,
    the score compared with the threshold is 0 when scene detection is
    disabled and the cached or freshly computed scene score when it is
    enabled; below the threshold the output is the blend of f0 and f1 with
    [weight2 = ratio] and [weight1 = max - ratio], otherwise a clone of f1
    when the ratio is past [max / 2] and a clone of f0 when it is not. *)
Theorem C1_interpolation_policy {graph : FilterGraph} (s : Ctx.t)
    (fr0 fr1 : Frame.t) :
  let work_pts := work_pts_of s in
  let ratio := av_rescale (work_pts - Ctx.pts0 s) (Ctx.max s) (Ctx.delta s) in
  let in_band :=
    negb (ratio >? Ctx.interp_end s) && negb (ratio <? Ctx.interp_start s) in
  Ctx.f0 s = Some fr0 -> Ctx.f1 s = Some fr1 ->
  0 <= Ctx.interp_start s -> Ctx.interp_end s <= Ctx.max s ->
  Ctx.max s < 2 ^ 16 ->
  - 2 ^ 31 <= ratio < 2 ^ 31 ->
  (work_pts < Ctx.pts1 s \/ Ctx.flush s = true) ->
  (work_pts < Ctx.pts1 s + Ctx.delta s \/ Ctx.flush s = false) ->
  let '(score, s1) :=
    if in_band && scd_enabled s then window_score s fr0 fr1 else (double_zero, s) in
  process_work_frame s
  = emit_work work_pts
      (Ctx.set_work
         (realise s1
            (policy (Ctx.interp_start s) (Ctx.interp_end s) (Ctx.max s)
                    (scd_enabled s) score (Ctx.scene_score s) fr0 fr1 ratio))
         s1)
  /\ (0 < Ctx.delta s -> 0 <= Ctx.max s ->
      2 * Z.abs (ratio * Ctx.delta s - (work_pts - Ctx.pts0 s) * Ctx.max s)
      <= Ctx.delta s).
Proof.
  intros work_pts ratio in_band H0 H1 Hstart Hend Hmax Hint Hdue Hbound.
  assert (Hnear : 0 < Ctx.delta s -> 0 <= Ctx.max s ->
                  2 * Z.abs (ratio * Ctx.delta s
                             - (work_pts - Ctx.pts0 s) * Ctx.max s)
                  <= Ctx.delta s).
  { intros Hd Hm. apply av_rescale_nearest; assumption. }
  assert (Hhead :
            process_work_frame s
            = if ratio >? Ctx.interp_end s then
                emit_work work_pts (Ctx.set_work (av_frame_clone fr1) s)
              else if ratio <? Ctx.interp_start s then
                emit_work work_pts (Ctx.set_work (av_frame_clone fr0) s)
              else
                let '(ret, s') := blend_frames s ratio in
                if ret <? 0 then (ret, s')
                else if ret =? 0 then
                  emit_work work_pts
                    (Ctx.set_work
                       (av_frame_clone
                          (if ratio >? Z.shiftr (Ctx.max s') 1
                           then fr1 else fr0)) s')
                else emit_work work_pts s').
  { unfold process_work_frame. rewrite H0, H1. cbn [is_set negb andb].
    fold work_pts.
    replace ((work_pts >=? Ctx.pts1 s) && negb (Ctx.flush s)) with false.
    2:{ symmetry. destruct Hdue as [Hlt| ->]; [|apply andb_false_r].
        apply andb_false_iff. left. rewrite Z.geb_leb. apply Z.leb_gt. lia. }
    replace ((work_pts >=? Ctx.pts1 s + Ctx.delta s) && Ctx.flush s)
      with false.
    2:{ symmetry. destruct Hbound as [Hlt| ->]; [|apply andb_false_r].
        apply andb_false_iff. left. rewrite Z.geb_leb. apply Z.leb_gt. lia. }
    fold ratio. rewrite (to_int_small ratio Hint). reflexivity. }
  unfold policy, realise. subst in_band.
  destruct (ratio >? Ctx.interp_end s) eqn:Hhi.
  { cbn [negb andb]. split; [exact Hhead|exact Hnear]. }
  destruct (ratio <? Ctx.interp_start s) eqn:Hlo.
  { cbn [negb andb]. split; [exact Hhead|exact Hnear]. }
  cbn [negb andb].
  assert (Hr : 0 <= ratio <= Ctx.max s).
  { apply Z.ltb_ge in Hlo. rewrite Z.gtb_ltb in Hhi. apply Z.ltb_ge in Hhi.
    lia. }
  pose proof (blend_frames_spec s fr0 fr1 ratio H0 H1 Hr Hmax) as Hb.
  pose proof (window_score_but_frame_state s fr0 fr1) as Hws.
  destruct (scd_enabled s).
  - destruct (window_score s fr0 fr1) as [sc s1]. cbn in Hws.
    assert (Hmx : Ctx.max s1 = Ctx.max s)
      by (apply (f_equal Ctx.max) in Hws; exact Hws).
    split; [|exact Hnear]. rewrite Hhead, Hb.
    destruct (fp_lt sc (Ctx.scene_score s)).
    + destruct (blend s1 fr0 fr1 (Ctx.max s - ratio) ratio); reflexivity.
    + cbn. rewrite Hmx, Z.shiftr_div_pow2 by lia.
      change (2 ^ 1) with 2. destruct (ratio >? Ctx.max s / 2); reflexivity.
  - split; [|exact Hnear]. rewrite Hhead, Hb.
    destruct (fp_lt double_zero (Ctx.scene_score s)).
    + destruct (blend s fr0 fr1 (Ctx.max s - ratio) ratio); reflexivity.
    + cbn. rewrite Z.shiftr_div_pow2 by lia.
      change (2 ^ 1) with 2. destruct (ratio >? Ctx.max s / 2); reflexivity.
Qed.

(** Half way between two frames, scene detection disabled and the default
    threshold: the blend with weights 128 and 128. *)
Lemma C1_interpolation_policy_witness :
  let g := plain_graph 1 1 1 0 in
  let a := flat_frame 1 1 10 100 100 0 in
  let b := flat_frame 1 1 200 100 100 1 in
  let s := half_way (configured 0 scene_default 8 [1; 1; 1; 0]) a b in
  let work_pts := work_pts_of s in
  let ratio := av_rescale (work_pts - Ctx.pts0 s) (Ctx.max s) (Ctx.delta s) in
  let in_band :=
    negb (ratio >? Ctx.interp_end s) && negb (ratio <? Ctx.interp_start s) in
  (work_pts = 1 /\ ratio = 128 /\ in_band = true)
  /\ let '(score, s1) :=
       if in_band && scd_enabled s then window_score s a b else (double_zero, s) in
     @process_work_frame g s
     = emit_work work_pts
         (Ctx.set_work
            (@realise g s1
               (policy (Ctx.interp_start s) (Ctx.interp_end s) (Ctx.max s)
                       (scd_enabled s) score (Ctx.scene_score s) a b ratio))
            s1)
     /\ (0 < Ctx.delta s -> 0 <= Ctx.max s ->
         2 * Z.abs (ratio * Ctx.delta s - (work_pts - Ctx.pts0 s) * Ctx.max s)
         <= Ctx.delta s).
Proof.
  intros g a b s work_pts ratio in_band.
  split; [repeat split; vm_compute; reflexivity|].
  apply (@C1_interpolation_policy g s a b).
  - reflexivity.
  - reflexivity.
  - apply Z.leb_le. vm_compute. reflexivity.
  - apply Z.leb_le. vm_compute. reflexivity.
  - apply Z.ltb_lt. vm_compute. reflexivity.
  - split; [apply Z.leb_le|apply Z.ltb_lt]; vm_compute; reflexivity.
  - left. apply Z.ltb_lt. vm_compute. reflexivity.
  - left. apply Z.ltb_lt. vm_compute. reflexivity.
Defined.

(** C1 as stated fails when scene detection is disabled and the threshold is
    0: half way between two frames, inside the band of interpolation, the
    claim asks for the blend with weights 128 and 128 (a luma of 105 between
    10 and 200); the filter outputs a clone of f0, as it does at the timestamp
    1 of the run of the two frames. *)
Lemma C1_counterexample :
  let g := plain_graph 1 1 1 0 in
  let a := flat_frame 1 1 10 100 100 0 in
  let b := flat_frame 1 1 200 100 100 1 in
  let s := half_way (configured 0 double_zero 8 [1; 1; 1; 0]) a b in
  let ratio :=
    av_rescale (work_pts_of s - Ctx.pts0 s) (Ctx.max s) (Ctx.delta s) in
  Ctx.f0 s = Some a /\ Ctx.f1 s = Some b
  /\ scd_enabled s = false
  /\ ratio = 128
  /\ Ctx.interp_start s <= ratio <= Ctx.interp_end s
  /\ claimed_policy (Ctx.interp_start s) (Ctx.interp_end s) (Ctx.max s)
       (scd_enabled s) double_zero (Ctx.scene_score s) a b ratio
     = Blend a b 128 128
  /\ option_map luma (@blend g s a b 128 128) = Some [105]
  /\ fst (@process_work_frame g s) = 1
  /\ option_map luma (Ctx.work (snd (@process_work_frame g s))) = Some [10]
  /\ option_map (fun r => map (fun w => (Frame.pts w, luma w))
                              (outputs (snd r)))
                (@run g 3 (configured 0 double_zero 8 [1; 1; 1; 0]) [a; b])
     = Some [(0, [10]); (1, [10])].
Proof.
  cbv zeta. repeat split; try (vm_compute; reflexivity);
    vm_compute; discriminate.
Qed.

(** A candidate between [pts0] and [pts0 + 2 * delta], as the scheduler
    produces them, has a ratio between 0 and twice the maximum, which fits
    an [int]. *)
Lemma ratio_fits_int (s : Ctx.t) :
  0 < Ctx.delta s -> 0 <= Ctx.max s < 2 ^ 16 ->
  0 <= work_pts_of s - Ctx.pts0 s <= 2 * Ctx.delta s ->
  0 <= av_rescale (work_pts_of s - Ctx.pts0 s) (Ctx.max s) (Ctx.delta s)
  <= 2 * Ctx.max s
  /\ - 2 ^ 31
     <= av_rescale (work_pts_of s - Ctx.pts0 s) (Ctx.max s) (Ctx.delta s)
     < 2 ^ 31.
Proof.
  intros Hd Hm Ha. unfold av_rescale.
  rewrite av_rescale_rnd_nonneg by lia.
  set (a := work_pts_of s - Ctx.pts0 s) in *.
  set (d := Ctx.delta s) in *. set (m := Ctx.max s) in *.
  assert (Hlo : 0 <= (a * m + d / 2) / d).
  { apply Z.div_pos; [|lia].
    assert (0 <= a * m) by (apply Z.mul_nonneg_nonneg; lia).
    assert (0 <= d / 2) by (apply Z.div_pos; lia). lia. }
  assert (Hhi : (a * m + d / 2) / d <= 2 * m).
  { assert (Hlt : (a * m + d / 2) / d < 2 * m + 1); [|lia].
    apply Z.div_lt_upper_bound; [lia|].
    assert (d / 2 < d) by (apply Z.div_lt; lia).
    assert (a * m <= 2 * d * m) by (apply Z.mul_le_mono_nonneg_r; lia).
    lia. }
  change (2 ^ 16) with 65536 in Hm. change (2 ^ 31) with 2147483648.
  lia.
Qed.

(** ** Scene detector *)

Lemma FFABS_abs (a : Z) : FFABS a = Z.abs a.
Proof. unfold FFABS. destruct (0 <=? a) eqn:H; lia. Qed.

Lemma seqZ_to_nat (m n : Z) : seqZ m (Z.of_nat (Z.to_nat n)) = seqZ m n.
Proof. unfold seqZ. rewrite Nat2Z.id. reflexivity. Qed.

Lemma trip_count_blocks (size : Z) :
  Z.of_nat (trip_count 0 8 (size - 7)) = Z.of_nat (Z.to_nat (size / 8)).
Proof.
  unfold trip_count. f_equal. f_equal. f_equal. lia.
Qed.

(** The loops of sad_8x8_16 add up the absolute differences of the block. *)
Lemma sad_8x8_16_spec (src1 : list Z) (o1 stride1 : Z) (src2 : list Z)
    (o2 stride2 : Z) :
  sad_8x8_16 src1 o1 stride1 src2 o2 stride2
  = pixelutils_sad_8x8 src1 o1 stride1 src2 o2 stride2.
Proof.
  unfold sad_8x8_16, pixelutils_sad_8x8.
  set (row := fun y =>
         sumZ (map (fun x => Z.abs (load src1 (o1 + y * stride1 + x)
                                    - load src2 (o2 + y * stride2 + x)))
                   (seqZ 0 8))).
  match goal with
  | |- context [for_range 0 1 8 ?body (0, o1, o2)] =>
      pose proof (for_range_count body 0 1 8
                    (fun k st =>
                       snd (fst st) = o1 + Z.of_nat k * stride1
                       /\ snd st = o2 + Z.of_nat k * stride2
                       /\ fst (fst st) = sumZ (map row (seqZ 0 (Z.of_nat k))))
                    (0, o1, o2) ltac:(lia)) as H;
      destruct (for_range 0 1 8 body (0, o1, o2)) as [[sum a1] a2]
  end.
  change (trip_count 0 1 8) with 8%nat in H.
  apply H.
  - repeat split; cbn; lia.
  - intros k [[sum' b1] b2] Hk (H1 & H2 & H3). cbn in H1, H2, H3. subst.
    cbn [fst snd]. repeat split; try lia.
    rewrite sumZ_seqZ_S, for_range_sum by lia.
    change (trip_count 0 1 8) with 8%nat. change (Z.of_nat 8) with 8.
    f_equal. subst row. cbn beta. apply sumZ_ext. intros x _.
    rewrite FFABS_abs. f_equal. f_equal; f_equal; lia.
Qed.

(** The loops of scene_sad16 add up the SADs of the whole blocks. *)
Lemma scene_sad16_spec (s : Ctx.t) (p1 : list Z) (ls1 : Z) (p2 : list Z)
    (ls2 : Z) (width height : Z) :
  scene_sad16 s p1 ls1 p2 ls2 width height
  = luma_sad p1 ls1 p2 ls2 width height.
Proof.
  unfold scene_sad16, luma_sad.
  rewrite (for_range_ext _
             (fun y sad =>
                sad + sumZ (map (fun bx =>
                                   pixelutils_sad_8x8 p1 (y * ls1 + 8 * bx) ls1
                                                      p2 (y * ls2 + 8 * bx) ls2)
                                (seqZ 0 (width / 8))))).
  - rewrite for_range_sum by lia.
    rewrite trip_count_blocks, seqZ_to_nat. reflexivity.
  - intros y sad.
    rewrite (for_range_sum
               (fun x => sad_8x8_16 p1 (y * ls1 + x) ls1 p2 (y * ls2 + x) ls2))
      by lia.
    rewrite trip_count_blocks, seqZ_to_nat. f_equal.
    apply sumZ_ext. intros x _. apply sad_8x8_16_spec.
Qed.

Lemma scene_sad8_spec (s : Ctx.t) (p1 : list Z) (ls1 : Z) (p2 : list Z)
    (ls2 : Z) (width height : Z) :
  Ctx.sad s = pixelutils_sad_8x8 ->
  scene_sad8 s p1 ls1 p2 ls2 width height
  = luma_sad p1 ls1 p2 ls2 width height.
Proof.
  intros Hsad. unfold scene_sad8, luma_sad. rewrite Hsad.
  rewrite (for_range_ext _
             (fun y sad =>
                sad + sumZ (map (fun bx =>
                                   pixelutils_sad_8x8 p1 (y * ls1 + 8 * bx) ls1
                                                      p2 (y * ls2 + 8 * bx) ls2)
                                (seqZ 0 (width / 8))))).
  - rewrite for_range_sum by lia.
    rewrite trip_count_blocks, seqZ_to_nat. reflexivity.
  - intros y sad.
    rewrite (for_range_sum
               (fun x => pixelutils_sad_8x8 p1 (y * ls1 + x) ls1
                                            p2 (y * ls2 + x) ls2))
      by lia.
    rewrite trip_count_blocks, seqZ_to_nat. reflexivity.
Qed.

(** Masking the low three bits rounds down to a multiple of 8. *)
Lemma land_lnot_7 (v : Z) : Z.land v (Z.lnot 7) = 8 * (v / 8).
Proof.
  change (Z.lnot 7) with (Z.lnot (Z.ones 3)).
  rewrite <- Z.ldiff_land, Z.ldiff_ones_r by lia.
  rewrite Z.shiftl_mul_pow2, Z.shiftr_div_pow2 by lia.
  change (2 ^ 3) with 8. lia.
Qed.

Lemma sumZ_nonneg (l : list Z) : Forall (fun x => 0 <= x) l -> 0 <= sumZ l.
Proof.
  induction 1 as [|x l Hx _ IH]; cbn; [lia|]. unfold sumZ in IH. lia.
Qed.

Lemma pixelutils_sad_8x8_nonneg src1 o1 stride1 src2 o2 stride2 :
  0 <= pixelutils_sad_8x8 src1 o1 stride1 src2 o2 stride2.
Proof.
  unfold pixelutils_sad_8x8. apply sumZ_nonneg, Forall_forall.
  intros v Hv. apply list_elem_of_In, in_map_iff in Hv.
  destruct Hv as (y & <- & _).
  apply sumZ_nonneg, Forall_forall. intros w Hw.
  apply list_elem_of_In, in_map_iff in Hw. destruct Hw as (x & <- & _). lia.
Qed.

Lemma luma_sad_no_block p1 ls1 p2 ls2 (width height : Z) :
  usable_pixel_count width height = 0 ->
  luma_sad p1 ls1 p2 ls2 width height = 0.
Proof.
  unfold usable_pixel_count, luma_sad. intros H.
  assert (height / 8 = 0 \/ width / 8 = 0) as [Hz|Hz] by lia; rewrite Hz.
  - reflexivity.
  - rewrite (seqZ_nil 0 0) by lia. cbn.
    induction (seqZ 0 (height / 8)) as [|y l IH]; [reflexivity|].
    cbn. unfold sumZ in IH. rewrite IH. reflexivity.
Qed.

(** The sum get_scene_score computes is the luma SAD of the pair. *)
Lemma scene_sad_spec (s : Ctx.t) (crnt next : Frame.t) :
  (Ctx.bitdepth s = 8 -> Ctx.sad s = pixelutils_sad_8x8) ->
  (if Ctx.bitdepth s =? 8 then
     scene_sad8 s (luma crnt) (Frame.stride crnt 0)
                  (luma next) (Frame.stride next 0)
                  (Frame.width crnt) (Frame.height crnt)
   else
     scene_sad16 s (luma crnt) (Frame.stride crnt 0 ÷ 2)
                   (luma next) (Frame.stride next 0 ÷ 2)
                   (Frame.width crnt) (Frame.height crnt))
  = luma_sad (luma crnt) (luma_stride s crnt) (luma next) (luma_stride s next)
             (Frame.width crnt) (Frame.height crnt).
Proof.
  intros Hsad. unfold luma_stride.
  destruct (Ctx.bitdepth s =? 8) eqn:Hb.
  - apply scene_sad8_spec, Hsad. apply Z.eqb_eq. exact Hb.
  - apply scene_sad16_spec.
Qed.

(** ** Floating point *)

Lemma shr_1_nonneg (mrs : shr_record) :
  0 <= shr_m mrs -> 0 <= shr_m (shr_1 mrs).
Proof.
  destruct mrs as [m r s]. cbn. intros H.
  destruct m as [|p|p]; [cbn; lia| |lia].
  destruct p; cbn; lia.
Qed.

Lemma iter_pos_invariant {A : Type} (f : A -> A) (P : A -> Prop) :
  (forall x, P x -> P (f x)) -> forall n x, P x -> P (SpecFloat.iter_pos f n x).
Proof.
  intros Hf. induction n as [n IH|n IH|]; intros x Hx; cbn; auto.
Qed.

Lemma shr_fexp_nonneg (prec emax m e : Z) (l : location) :
  0 <= m -> 0 <= shr_m (fst (shr_fexp prec emax m e l)).
Proof.
  intros Hm. unfold shr_fexp, shr.
  assert (H0 : 0 <= shr_m (shr_record_of_loc m l)).
  { destruct l as [|[]]; exact Hm. }
  destruct (_ - e) as [|n|n]; cbn [fst]; try exact H0.
  apply (iter_pos_invariant shr_1 (fun r => 0 <= shr_m r)); [|exact H0].
  apply shr_1_nonneg.
Qed.

Lemma round_nearest_even_nonneg (m : Z) (l : location) :
  0 <= m -> 0 <= round_nearest_even m l.
Proof.
  intros Hm. unfold round_nearest_even.
  destruct l as [|[]]; try destruct (Z.even m); lia.
Qed.

(** Rounding a magnitude gives a zero, a finite value or an infinity of the
    sign asked for, never NaN. *)
Lemma binary_round_aux_cases (prec emax : Z) (sx : bool) (mx ex : Z)
    (lx : location) :
  0 <= mx ->
  let r := binary_round_aux prec emax sx mx ex lx in
  r = S754_zero sx \/ r = S754_infinity sx
  \/ exists m e, r = S754_finite sx m e.
Proof.
  intros Hm. cbv zeta. unfold binary_round_aux.
  pose proof (shr_fexp_nonneg prec emax mx ex lx Hm) as H1.
  destruct (shr_fexp prec emax mx ex lx) as [mrs' e']. cbn [fst] in H1.
  pose proof (shr_fexp_nonneg prec emax
                (round_nearest_even (shr_m mrs') (loc_of_shr_record mrs')) e'
                loc_Exact (round_nearest_even_nonneg _ _ H1)) as H2.
  destruct (shr_fexp prec emax _ e' loc_Exact) as [mrs'' e'']. cbn [fst] in H2.
  destruct (shr_m mrs'') as [|m|m]; [auto| |lia].
  destruct (e'' <=? emax - prec); eauto.
Qed.

Lemma binary_normalize_cases (prec emax : Z) (m e : Z) (szero : bool) :
  let r := binary_normalize prec emax m e szero in
  r = S754_zero szero \/ r = S754_zero (m <? 0) \/ r = S754_infinity (m <? 0)
  \/ exists m' e', r = S754_finite (m <? 0) m' e'.
Proof.
  cbv zeta. unfold binary_normalize, binary_round.
  destruct m as [|p|p]; [auto| |].
  - destruct (shl_align _ _ _) as [mz ez].
    destruct (binary_round_aux_cases prec emax false (Zpos mz) ez loc_Exact)
      as [H|[H|H]]; [lia| | |]; change (Z.pos p <? 0) with false; auto.
  - destruct (shl_align _ _ _) as [mz ez].
    destruct (binary_round_aux_cases prec emax true (Zpos mz) ez loc_Exact)
      as [H|[H|H]]; [lia| | |]; change (Z.neg p <? 0) with true; auto.
Qed.

Lemma binary_normalize_not_nan (prec emax : Z) (m e : Z) (szero : bool) :
  is_nan (binary_normalize prec emax m e szero) = false.
Proof.
  destruct (binary_normalize_cases prec emax m e szero)
    as [H|[H|[H|(m' & e' & H)]]]; cbv zeta in H; rewrite H; reflexivity.
Qed.

Lemma int_to_double_not_nan (z : Z) : is_nan (int_to_double z) = false.
Proof. apply binary_normalize_not_nan. Qed.

Lemma double_to_float_nan (x : spec_float) :
  is_nan (double_to_float x) = is_nan x.
Proof.
  destruct x as [s|s| |s m e]; try reflexivity.
  apply binary_normalize_not_nan.
Qed.

Lemma double_mul_finite_not_nan (x : spec_float) (s : bool) (m : positive)
    (e : Z) :
  is_nan x = false -> is_nan (double_mul x (S754_finite s m e)) = false.
Proof.
  destruct x as [sx|sx| |sx mx ex]; intros Hx; try reflexivity;
    [discriminate|].
  unfold double_mul, SFmul.
  destruct (binary_round_aux_cases 53 1024 (xorb sx s) (Zpos (mx * m))
              (ex + e) loc_Exact) as [H|[H|(m' & e' & H)]]; [lia| | |];
    cbv zeta in H; rewrite H; reflexivity.
Qed.

Lemma div_eucl_quotient (a b : Z) : fst (Z.div_eucl a b) = a / b.
Proof. unfold Z.div. destruct (Z.div_eucl a b). reflexivity. Qed.

Lemma double_div_finite_not_nan (x : spec_float) (s : bool) (m : positive)
    (e : Z) :
  is_nan x = false -> is_nan (double_div x (S754_finite s m e)) = false.
Proof.
  destruct x as [sx|sx| |sx mx ex]; intros Hx; try reflexivity;
    [discriminate|].
  unfold double_div, SFdiv, SFdiv_core_binary.
  set (sh := _ - _ - _).
  set (m' := match sh with Z0 => Zpos mx | Zpos _ => Z.shiftl (Zpos mx) sh
                         | Zneg _ => 0 end).
  assert (Hm' : 0 <= m').
  { subst m'. destruct sh; [lia| |lia]. apply Z.shiftl_nonneg. lia. }
  pose proof (div_eucl_quotient m' (Zpos m)) as Hq.
  destruct (Z.div_eucl m' (Zpos m)) as [q r]. cbn [fst] in Hq.
  assert (0 <= q) by (rewrite Hq; apply Z.div_pos; lia).
  match goal with
  | |- context [binary_round_aux ?p ?em ?sg q ?ez ?lz] =>
      destruct (binary_round_aux_cases p em sg q ez lz)
        as [E|[E|(m1 & e1 & E)]]; [assumption| | |];
      cbv zeta in E; rewrite E; reflexivity
  end.
Qed.

(** The number of binary digits of a number below [2^n]. *)
Lemma digits2_pos_le (p : positive) (n : Z) :
  Zpos p < 2 ^ n -> Zpos (digits2_pos p) <= n.
Proof.
  revert n. induction p as [p IH|p IH|]; intros n Hn.
  - assert (Hn1 : 1 <= n).
    { destruct (Z_lt_ge_dec n 1) as [Hlt|]; [|lia].
      destruct (Z_lt_ge_dec n 0) as [Hneg|].
      - rewrite Z.pow_neg_r in Hn by exact Hneg. lia.
      - replace n with 0 in Hn by lia. cbn in Hn. lia. }
    replace n with (Z.succ (n - 1)) in Hn by lia.
    rewrite Z.pow_succ_r in Hn by lia.
    specialize (IH (n - 1)). cbn [digits2_pos]. rewrite Pos2Z.inj_succ.
    lia.
  - assert (Hn1 : 1 <= n).
    { destruct (Z_lt_ge_dec n 1) as [Hlt|]; [|lia].
      destruct (Z_lt_ge_dec n 0) as [Hneg|].
      - rewrite Z.pow_neg_r in Hn by exact Hneg. lia.
      - replace n with 0 in Hn by lia. cbn in Hn. lia. }
    replace n with (Z.succ (n - 1)) in Hn by lia.
    rewrite Z.pow_succ_r in Hn by lia.
    specialize (IH (n - 1)). cbn [digits2_pos]. rewrite Pos2Z.inj_succ.
    lia.
  - cbn. destruct (Z_lt_ge_dec n 1) as [Hlt|]; [|lia].
    destruct (Z_lt_ge_dec n 0) as [Hneg|].
    + rewrite Z.pow_neg_r in Hn by exact Hneg. lia.
    + replace n with 0 in Hn by lia. cbn in Hn. lia.
Qed.

Lemma digits2_pos_shift (p n : positive) :
  digits2_pos (Pos.iter xO p n) = (digits2_pos p + n)%positive.
Proof.
  induction n as [|n IH] using Pos.peano_ind.
  - cbn. lia.
  - rewrite Pos.iter_succ. cbn [digits2_pos]. rewrite IH. lia.
Qed.

(** A positive integer of at most 53 bits is a [double]: the conversion
    yields a finite, positive value. *)
Lemma int_to_double_finite (k : Z) :
  1 <= k < 2 ^ 53 ->
  exists m e, int_to_double k = S754_finite false m e.
Proof.
  intros [Hlo Hhi]. destruct k as [|p|p]; [lia| |lia].
  pose proof (digits2_pos_le p 53 Hhi) as Hd.
  unfold int_to_double, binary_normalize, binary_round.
  assert (Hal : exists mz ez,
             shl_align p 0 (fexp 53 1024 (Zpos (digits2_pos p) + 0)) = (mz, ez)
             /\ Zpos (digits2_pos mz) = 53 /\ ez = Zpos (digits2_pos p) - 53).
  { unfold shl_align, fexp, emin. rewrite Z.add_0_r, Z.sub_0_r.
    replace (Z.max (Zpos (digits2_pos p) - 53) (3 - 1024 - 53))
      with (Zpos (digits2_pos p) - 53) by lia.
    destruct (Zpos (digits2_pos p) - 53) as [|n|n] eqn:E; [|lia|].
    - exists p, 0. split; [reflexivity|]. lia.
    - eexists _, _. split; [reflexivity|]. split; [|reflexivity].
      rewrite digits2_pos_shift. lia. }
  destruct Hal as (mz & ez & -> & Hdz & Hez).
  assert (Hsh : shr_fexp 53 1024 (Zpos mz) ez loc_Exact
                = (Build_shr_record (Zpos mz) false false, ez)).
  { unfold shr_fexp, fexp, emin. cbn [Zdigits2]. rewrite Hdz.
    replace (Z.max (53 + ez - 53) (3 - 1024 - 53) - ez) with 0 by lia.
    reflexivity. }
  exists mz, ez. unfold binary_round_aux. rewrite Hsh.
  cbn [shr_m loc_of_shr_record round_nearest_even]. rewrite Hsh.
  cbn [shr_m].
  replace (ez <=? 1024 - 53) with true by (symmetry; apply Z.leb_le; lia).
  reflexivity.
Qed.

(** The comparison of two values that are neither infinite nor NaN is the
    comparison of the rationals they stand for. *)
Lemma fp_compare_finite (x y : spec_float) :
  is_finite x = true -> is_finite y = true ->
  fp_compare x y = Some (SF2Q x ?= SF2Q y)%Q.
Proof. destruct x, y; intros Hx Hy; try discriminate; reflexivity. Qed.

(** What is not below a value is at least that value. *)
Lemma fp_lt_finite_false (x y : spec_float) :
  is_finite x = true -> is_finite y = true ->
  fp_lt x y = false -> (SF2Q y <= SF2Q x)%Q.
Proof.
  intros Hx Hy H. unfold fp_lt in H.
  rewrite (fp_compare_finite x y Hx Hy) in H.
  assert (E : (SF2Q x ?= SF2Q y)%Q <> Lt).
  { intros E. rewrite E in H. discriminate H. }
  apply Qnot_lt_le. intros L. apply E. apply Qlt_alt. exact L.
Qed.

Lemma fp_lt_nan_l (y : spec_float) : fp_lt S754_nan y = false.
Proof. reflexivity. Qed.

Lemma fp_lt_nan_r (x : spec_float) : fp_lt x S754_nan = false.
Proof. destruct x; reflexivity. Qed.

(** What is below something is not NaN. *)
Lemma fp_lt_not_nan (x y : spec_float) :
  fp_lt x y = true -> is_nan x = false /\ is_nan y = false.
Proof.
  destruct x, y; intros H; try discriminate; split; reflexivity.
Qed.

Lemma SF2Q_abs_nonneg (x : spec_float) : (0 <= SF2Q (SFabs x))%Q.
Proof.
  destruct x as [s|s| |s m e]; cbn [SFabs SF2Q]; try apply Qle_refl.
  apply Qmult_le_0_compat.
  - change 0%Q with (inject_Z 0). rewrite <- Zle_Qle. cbn. lia.
  - apply Qpower_0_le. discriminate.
Qed.

(** An absolute value is not below zero. *)
Lemma fp_lt_abs_zero (x : spec_float) (s : bool) :
  fp_lt (SFabs x) (S754_zero s) = false.
Proof.
  destruct x as [sx|sx| |sx m e]; try reflexivity.
  unfold fp_lt.
  change (fp_compare (SFabs (S754_finite sx m e)) (S754_zero s))
    with (Some (SF2Q (SFabs (S754_finite sx m e)) ?= 0)%Q).
  destruct (SF2Q (SFabs (S754_finite sx m e)) ?= 0)%Q eqn:E; try reflexivity.
  exfalso.
  apply (Qle_not_lt _ _ (SF2Q_abs_nonneg (S754_finite sx m e))).
  apply Qlt_alt. exact E.
Qed.

(** FFMIN answers NaN only for a first argument that is NaN. *)
Lemma FFMINd_nan (a b : spec_float) : is_nan (FFMINd a b) = is_nan a.
Proof.
  unfold FFMINd. destruct (fp_lt b a) eqn:E; [|reflexivity].
  apply fp_lt_not_nan in E. destruct E as [-> ->]. reflexivity.
Qed.

Lemma int_to_float_0 : int_to_float 0 = S754_zero false.
Proof. reflexivity. Qed.

Lemma float_100 :
  double_to_float double_100 = S754_finite false 13107200 (-17).
Proof. vm_compute. reflexivity. Qed.

Lemma float_100_int : int_to_float 100 = double_to_float double_100.
Proof. vm_compute. reflexivity. Qed.

Lemma double_100_finite :
  double_100 = S754_finite false 7036874417766400 (-46).
Proof. vm_compute. reflexivity. Qed.

(** The clamp of line 164: its answer is NaN only for NaN, and otherwise a
    value from 0 to 100. *)
Lemma av_clipf_range (a : spec_float) :
  let r := av_clipf a (int_to_float 0) (double_to_float double_100) in
  is_nan r = is_nan a
  /\ (is_nan a = false ->
      is_finite r = true /\ (0 <= SF2Q r <= 100)%Q).
Proof.
  cbv zeta. rewrite int_to_float_0, float_100. unfold av_clipf.
  assert (H100 : is_finite (S754_finite false 13107200 (-17)) = true
                 /\ (0 <= SF2Q (S754_finite false 13107200 (-17)) <= 100)%Q).
  { split; [reflexivity|].
    split; apply Qle_bool_iff; vm_compute; reflexivity. }
  assert (H0 : is_finite (S754_zero false) = true
               /\ (0 <= SF2Q (S754_zero false) <= 100)%Q).
  { split; [reflexivity|]. split; apply Qle_bool_iff; reflexivity. }
  destruct (fp_lt a (S754_zero false)) eqn:L0.
  { apply fp_lt_not_nan in L0. destruct L0 as [-> _].
    split; [reflexivity|]. intros _. exact H0. }
  destruct (fp_lt (S754_finite false 13107200 (-17)) a) eqn:L1.
  { apply fp_lt_not_nan in L1. destruct L1 as [_ ->].
    split; [reflexivity|]. intros _. exact H100. }
  split; [reflexivity|]. intros Hnan.
  destruct a as [s|s| |s m e].
  - split; [reflexivity|]. cbn [SF2Q].
    split; apply Qle_bool_iff; reflexivity.
  - destruct s; [discriminate L0|discriminate L1].
  - discriminate Hnan.
  - split; [reflexivity|]. split.
    + apply (fp_lt_finite_false (S754_finite s m e) (S754_zero false));
        [reflexivity|reflexivity|exact L0].
    + apply Qle_trans with (SF2Q (S754_finite false 13107200 (-17)));
        [|apply H100].
      apply (fp_lt_finite_false (S754_finite false 13107200 (-17))
               (S754_finite s m e)); [reflexivity|reflexivity|exact L1].
Qed.

Lemma FFMAX_1_pos (v : Z) : 1 <= FFMAX 1 v.
Proof. unfold FFMAX. destruct (v <? 1) eqn:E; lia. Qed.

(** The two divisors of line 162 are finite and positive when the [int]s
    they are converted from have a value. *)
Lemma line_162_divisors (s : Ctx.t) (crnt : Frame.t) :
  line_162_defined s crnt ->
  (exists m e,
      int_to_double (FFMAX 1 (Z.land (Frame.height crnt) (Z.lnot 7)
                              * Z.land (Frame.width crnt) (Z.lnot 7)))
      = S754_finite false m e)
  /\ exists m e,
       int_to_double (Z.shiftl 1 (Ctx.bitdepth s)) = S754_finite false m e.
Proof.
  intros [Hb Hc]. split.
  - apply int_to_double_finite. split; [apply FFMAX_1_pos|].
    assert (H31 : 2 ^ 31 < 2 ^ 53) by reflexivity.
    unfold FFMAX. destruct (_ <? 1); lia.
  - apply int_to_double_finite. rewrite Z.shiftl_1_l. split.
    + pose proof (Z.pow_pos_nonneg 2 (Ctx.bitdepth s)). lia.
    + apply Z.pow_lt_mono_r; lia.
Qed.

(** The MAFD of line 162 is a number. *)
Lemma mafd_of_not_nan (s : Ctx.t) (crnt : Frame.t) (sad : Z) :
  line_162_defined s crnt -> is_nan (mafd_of s crnt sad) = false.
Proof.
  intros Hdef. unfold mafd_of.
  destruct (line_162_divisors s crnt Hdef) as [(m1 & e1 & ->) (m2 & e2 & ->)].
  apply double_div_finite_not_nan, double_div_finite_not_nan.
  rewrite double_100_finite.
  apply double_mul_finite_not_nan, int_to_double_not_nan.
Qed.

(** A sum of 0 gives a MAFD of [+0]. *)
Lemma mafd_of_zero (s : Ctx.t) (crnt : Frame.t) :
  line_162_defined s crnt -> mafd_of s crnt 0 = S754_zero false.
Proof.
  intros Hdef. unfold mafd_of.
  destruct (line_162_divisors s crnt Hdef) as [(m1 & e1 & ->) (m2 & e2 & ->)].
  rewrite double_100_finite. reflexivity.
Qed.

(** Lines 163 and 164 for a MAFD of [+0]: the score is [+0] whatever the
    MAFD before. *)
Lemma score_of_zero (prev : spec_float) :
  float_to_double
    (av_clipf (double_to_float
                 (FFMINd (S754_zero false)
                         (fabs (double_sub (S754_zero false) prev))))
              (int_to_float 0) (double_to_float double_100))
  = S754_zero false.
Proof.
  unfold FFMINd, fabs. rewrite fp_lt_abs_zero. reflexivity.
Qed.

(** The sum the detector passes to line 162, for two frames of the same
    size. *)
Lemma get_scene_score_same_size (s : Ctx.t) (crnt next : Frame.t) :
  Frame.height crnt = Frame.height next ->
  Frame.width crnt = Frame.width next ->
  exists sad,
    sad = (if Ctx.bitdepth s =? 8 then
             scene_sad8 s (luma crnt) (Frame.stride crnt 0)
                          (luma next) (Frame.stride next 0)
                          (Frame.width crnt) (Frame.height crnt)
           else
             scene_sad16 s (luma crnt) (Frame.stride crnt 0 ÷ 2)
                           (luma next) (Frame.stride next 0 ÷ 2)
                           (Frame.width crnt) (Frame.height crnt))
    /\ get_scene_score s crnt next
       = (float_to_double
            (av_clipf
               (double_to_float
                  (FFMINd (mafd_of s crnt sad)
                          (fabs (double_sub (mafd_of s crnt sad)
                                            (Ctx.prev_mafd s)))))
               (int_to_float 0) (double_to_float double_100)),
          Ctx.set_prev_mafd (mafd_of s crnt sad) s).
Proof.
  intros Hh Hw. eexists. split; [reflexivity|].
  unfold get_scene_score. rewrite Hh, Hw, !Z.eqb_refl. reflexivity.
Qed.

(** The score is NaN only when the MAFD is; otherwise it is a value from 0
    to 100. *)
Lemma score_range (mafd prev : spec_float) :
  let ret :=
    float_to_double
      (av_clipf (double_to_float
                   (FFMINd mafd (fabs (double_sub mafd prev))))
                (int_to_float 0) (double_to_float double_100)) in
  is_nan ret = is_nan mafd
  /\ (is_nan mafd = false ->
      is_finite ret = true /\ (0 <= SF2Q ret <= 100)%Q).
Proof.
  cbv zeta. unfold float_to_double.
  destruct (av_clipf_range
              (double_to_float (FFMINd mafd (fabs (double_sub mafd prev)))))
    as [Hn Hr].
  cbv zeta in Hn, Hr. rewrite double_to_float_nan, FFMINd_nan in Hn, Hr.
  split; assumption.
Qed.

(** The answer of the detector is a value from 0 to 100 when the [int]s of
    line 162 have a value. *)
Lemma get_scene_score_range (s : Ctx.t) (crnt next : Frame.t) :
  line_162_defined s crnt ->
  let ret := fst (get_scene_score s crnt next) in
  is_finite ret = true /\ (0 <= SF2Q ret <= 100)%Q.
Proof.
  intros Hdef. cbv zeta. unfold get_scene_score.
  destruct (_ && _); cbn [fst].
  - apply score_range. apply mafd_of_not_nan. exact Hdef.
  - split; [reflexivity|]. split; apply Qle_bool_iff; reflexivity.
Qed.

(** The value of line 162 is the MAFD of the specification when the frame
    holds a whole block. *)
Lemma mafd_of_spec (s : Ctx.t) (crnt next : Frame.t) :
  0 <= Ctx.bitdepth s ->
  0 < usable_pixel_count (Frame.width crnt) (Frame.height crnt) ->
  mafd_of s crnt (luma_sad (luma crnt) (luma_stride s crnt)
                           (luma next) (luma_stride s next)
                           (Frame.width crnt) (Frame.height crnt))
  = spec_mafd s crnt next.
Proof.
  intros Hb Hc. unfold mafd_of, spec_mafd, double_100. rewrite !land_lnot_7.
  fold (usable_pixel_count (Frame.width crnt) (Frame.height crnt)).
  rewrite Z.shiftl_mul_pow2, Z.mul_1_l by exact Hb.
  unfold FFMAX.
  replace (usable_pixel_count (Frame.width crnt) (Frame.height crnt) <? 1)
    with false by (symmetry; apply Z.ltb_ge; lia).
  reflexivity.
Qed.

(** Lines 163 and 164 are the score of the specification in the arithmetic
    of the filter. *)
Lemma score_spec (mafd prev : spec_float) :
  float_to_double
    (av_clipf (double_to_float (FFMINd mafd (fabs (double_sub mafd prev))))
              (int_to_float 0) (double_to_float double_100))
  = spec_score mafd prev.
Proof.
  unfold spec_score, av_clipf, fabs, float_to_double.
  rewrite float_100_int. reflexivity.
Qed.

(** C5, as amended.  The result of the scene detector is a value from 0 to
    100.  It is 0 for frames that differ in width or height.  For frames of
    the same size it is [clamp(min(MAFD, |MAFD - previous MAFD|), 0, 100)] as
    the filter computes it: [MAFD] is the luma SAD over the whole 8x8 blocks
    times 100, divided by the number of samples in those blocks and by
    [2^bitdepth], in [double], every operation rounded; the minimum is
    rounded to [float] before it is clamped.  A frame too small to hold a
    block has a score of 0. *)
Theorem C5_scene_score_contract (s : Ctx.t) (crnt next : Frame.t) :
  (Ctx.bitdepth s = 8 -> Ctx.sad s = pixelutils_sad_8x8) ->
  line_162_defined s crnt ->
  let ret := fst (get_scene_score s crnt next) in
  let count := usable_pixel_count (Frame.width crnt) (Frame.height crnt) in
  (is_finite ret = true /\ (0 <= SF2Q ret <= 100)%Q)
  /\ (Frame.height crnt <> Frame.height next
      \/ Frame.width crnt <> Frame.width next -> ret = S754_zero false)
  /\ (Frame.height crnt = Frame.height next ->
      Frame.width crnt = Frame.width next ->
      (0 < count ->
       ret = spec_score (spec_mafd s crnt next) (Ctx.prev_mafd s))
      /\ (count = 0 -> ret = S754_zero false)).
Proof.
  intros Hsad Hdef ret count.
  split; [apply get_scene_score_range; exact Hdef|].
  subst ret. unfold get_scene_score.
  destruct (Frame.height crnt =? Frame.height next) eqn:Hh;
    [destruct (Frame.width crnt =? Frame.width next) eqn:Hw|]; cbn [andb fst].
  - rewrite scene_sad_spec by exact Hsad. split.
    { apply Z.eqb_eq in Hh, Hw. intros [H|H]; contradiction. }
    intros _ _. split.
    + intros Hc. rewrite mafd_of_spec by (try exact Hc; apply Hdef).
      apply score_spec.
    + intros Hc. rewrite luma_sad_no_block by exact Hc.
      rewrite mafd_of_zero by exact Hdef. apply score_of_zero.
  - split; [reflexivity|].
    apply Z.eqb_neq in Hw. intros _ Hw'. contradiction.
  - split; [reflexivity|].
    apply Z.eqb_neq in Hh. intros Hh'. contradiction.
Qed.

(** C9, as amended.  A call of the scene detector on frames of the same
    width and height stores the MAFD of the pair as the previous MAFD; a call
    on frames that differ in width or height leaves the context as it is; no
    call changes another field. *)
Theorem C9_scene_score_state (s : Ctx.t) (crnt next : Frame.t) :
  (Ctx.bitdepth s = 8 -> Ctx.sad s = pixelutils_sad_8x8) ->
  let s' := snd (get_scene_score s crnt next) in
  Ctx.set_prev_mafd double_zero s' = Ctx.set_prev_mafd double_zero s
  /\ (Frame.height crnt = Frame.height next ->
      Frame.width crnt = Frame.width next ->
      Ctx.prev_mafd s'
      = mafd_of s crnt
          (luma_sad (luma crnt) (luma_stride s crnt)
                    (luma next) (luma_stride s next)
                    (Frame.width crnt) (Frame.height crnt)))
  /\ (Frame.height crnt <> Frame.height next
      \/ Frame.width crnt <> Frame.width next -> s' = s).
Proof.
  intros Hsad s'. split; [apply get_scene_score_but_prev_mafd|].
  subst s'. unfold get_scene_score.
  destruct (Frame.height crnt =? Frame.height next) eqn:Hh;
    [destruct (Frame.width crnt =? Frame.width next) eqn:Hw|]; cbn [andb snd].
  - rewrite scene_sad_spec by exact Hsad. split; [reflexivity|].
    apply Z.eqb_eq in Hh, Hw. intros [H|H]; contradiction.
  - split; [|reflexivity]. apply Z.eqb_neq in Hw. intros _ Hw'.
    contradiction.
  - split; [|reflexivity]. apply Z.eqb_neq in Hh. intros Hh'. contradiction.
Qed.

(** Two frames of one block whose luma differs by 64 everywhere: a MAFD and
    a score of 25. *)
Lemma C5_scene_score_contract_witness :
  let s := example_context [8; 8; 8; 0] in
  let crnt := flat_frame 8 8 0 128 128 0 in
  let next := flat_frame 8 8 64 128 128 1 in
  let ret := fst (get_scene_score s crnt next) in
  let count := usable_pixel_count (Frame.width crnt) (Frame.height crnt) in
  (count = 64 /\ spec_mafd s crnt next = int_to_double 25
   /\ (SF2Q ret == 25)%Q)
  /\ (is_finite ret = true /\ (0 <= SF2Q ret <= 100)%Q)
  /\ (Frame.height crnt <> Frame.height next
      \/ Frame.width crnt <> Frame.width next -> ret = S754_zero false)
  /\ (Frame.height crnt = Frame.height next ->
      Frame.width crnt = Frame.width next ->
      (0 < count ->
       ret = spec_score (spec_mafd s crnt next) (Ctx.prev_mafd s))
      /\ (count = 0 -> ret = S754_zero false)).
Proof.
  intros s crnt next ret count.
  split; [repeat split; vm_compute; reflexivity|].
  apply (C5_scene_score_contract s crnt next).
  - intros _. reflexivity.
  - split; [split; apply Z.leb_le; vm_compute; reflexivity|].
    vm_compute. reflexivity.
Defined.

(** C5 as stated fails: the score is not the clamp of the minimum in exact
    arithmetic.  Two frames of 24 by 8 samples that differ by 1 in one luma
    sample have a SAD of 1 over 192 samples and a MAFD of 25/12288; with
    a MAFD of 0 before, the claim asks for a score of 25/12288.  The filter
    stores the [double] nearest to it, which lies above it, and answers the
    [float] nearest to that [double], which lies below it. *)
Lemma C5_counterexample :
  let s := example_context [24; 24; 24; 0] in
  let crnt := flat_frame 24 8 0 128 128 0 in
  let next := Frame.set_plane 0 (1 :: replicate 191 0)
                (flat_frame 24 8 0 128 128 1) in
  let ret := fst (get_scene_score s crnt next) in
  let mafd := Ctx.prev_mafd (snd (get_scene_score s crnt next)) in
  luma_sad (luma crnt) 24 (luma next) 24 24 8 = 1
  /\ usable_pixel_count 24 8 = 192
  /\ Ctx.prev_mafd s = S754_zero false
  /\ (exact_mafd s crnt next == 25 # 12288)%Q
  /\ (exact_score (exact_mafd s crnt next) (SF2Q (Ctx.prev_mafd s))
      == 25 # 12288)%Q
  /\ (SF2Q mafd == 4691249611844267 # 2305843009213693952)%Q
  /\ (SF2Q ret == 8738133 # 4294967296)%Q
  /\ (SF2Q ret < 25 # 12288)%Q /\ (25 # 12288 < SF2Q mafd)%Q
  /\ ~ (SF2Q ret
        == exact_score (exact_mafd s crnt next) (SF2Q (Ctx.prev_mafd s)))%Q.
Proof.
  cbv zeta.
  repeat (split; [vm_compute; reflexivity|]).
  intros H. vm_compute in H. discriminate H.
Qed.

(** The same two frames as for C5: the previous MAFD becomes 25. *)
Lemma C9_scene_score_state_witness :
  let s := example_context [8; 8; 8; 0] in
  let crnt := flat_frame 8 8 0 128 128 0 in
  let next := flat_frame 8 8 64 128 128 1 in
  let s' := snd (get_scene_score s crnt next) in
  Ctx.prev_mafd s' = int_to_double 25
  /\ Ctx.set_prev_mafd double_zero s' = Ctx.set_prev_mafd double_zero s
  /\ (Frame.height crnt = Frame.height next ->
      Frame.width crnt = Frame.width next ->
      Ctx.prev_mafd s'
      = mafd_of s crnt
          (luma_sad (luma crnt) (luma_stride s crnt)
                    (luma next) (luma_stride s next)
                    (Frame.width crnt) (Frame.height crnt)))
  /\ (Frame.height crnt <> Frame.height next
      \/ Frame.width crnt <> Frame.width next -> s' = s).
Proof.
  intros s crnt next s'.
  split; [vm_compute; reflexivity|].
  apply (C9_scene_score_state s crnt next).
  intros _. reflexivity.
Defined.

(** C9 as stated fails for frames of different widths: the detector answers
    without touching the context, and the previous MAFD stays 0 although the
    luma of the two frames differs by 255 everywhere. *)
Lemma C9_counterexample :
  let s := example_context [8; 8; 8; 0] in
  let crnt := flat_frame 8 8 0 128 128 0 in
  let next := flat_frame 16 8 255 128 128 1 in
  let s' := snd (get_scene_score s crnt next) in
  Ctx.prev_mafd s' = Ctx.prev_mafd s
  /\ Ctx.prev_mafd s = S754_zero false
  /\ fp_lt (S754_zero false)
           (mafd_of s crnt
              (luma_sad (luma crnt) (luma_stride s crnt)
                        (luma next) (luma_stride s next)
                        (Frame.width crnt) (Frame.height crnt))) = true.
Proof.
  cbv zeta. split; [reflexivity|]. split; [reflexivity|].
  vm_compute. reflexivity.
Qed.

(** ** Blend engine *)





Lemma plane_set_plane_ne (w : Frame.t) (q p : nat) (buf : list Z) :
  q <> p -> Frame.plane (Frame.set_plane q buf w) p = Frame.plane w p.
Proof.
  intros H. unfold Frame.plane, Frame.set_plane. cbn.
  rewrite list_lookup_insert_ne by exact H. reflexivity.
Qed.

Lemma plane_set_plane_eq (w : Frame.t) (p : nat) (buf old : list Z) :
  Frame.plane w p = Some old ->
  Frame.plane (Frame.set_plane p buf w) p = Some buf.
Proof.
  unfold Frame.plane, Frame.set_plane. cbn. intros H.
  destruct (Frame.data w !! p) as [o|] eqn:E; [|discriminate].
  apply lookup_lt_Some in E.
  rewrite list_lookup_insert_eq by exact E. reflexivity.
Qed.


Lemma plane_height_nonneg (s : Ctx.t) (src1 : Frame.t) (plane : Z) :
  0 <= Frame.height src1 -> 0 <= plane_height s src1 plane.
Proof.
  intros H. unfold plane_height. destruct (_ && _); [|exact H].
  apply Z.shiftr_nonneg. exact H.
Qed.

(** slice_plane is slice_span for the bounds of the job. *)
Lemma slice_plane_span sample lpx cpx td job nb_jobs plane d1 d2 (s : Ctx.t) :
  slice_plane sample lpx cpx td job nb_jobs plane d1 d2 s
  = slice_span sample lpx cpx td
      (fun h => (h * job) ÷ nb_jobs) (fun h => (h * (job + 1)) ÷ nb_jobs)
      plane d1 d2 s.
Proof.
  unfold slice_plane, slice_span, blend_rows, plane_height.
  destruct (Ctx.work s) as [w|]; [|reflexivity].
  destruct (Frame.plane w (Z.to_nat plane)) as [dst|]; [|reflexivity].
  destruct ((plane <? 1) || (2 <? plane));
    destruct (blend_lines _ _ _ _ _ _ _ _ _ _) as [[[dst' ?] ?] ?];
    reflexivity.
Qed.

Lemma planes_loop_visited fuel plane td body (s : Ctx.t) :
  planes_loop fuel plane td body s
  = fold_left (fun a '(p, d1, d2) => body p d1 d2 a)
              (planes_visited fuel plane td) s.
Proof.
  revert plane s. induction fuel as [|fuel IH]; intros plane s; cbn;
    [reflexivity|].
  destruct (plane <? 4); [|reflexivity].
  destruct (Frame.plane _ _) as [d1|]; [|reflexivity].
  destruct (Frame.plane _ _) as [d2|]; [|reflexivity].
  cbn. apply IH.
Qed.

Lemma planes_visited_from fuel plane td p d1 d2 :
  (p, d1, d2) ∈ planes_visited fuel plane td -> plane <= p.
Proof.
  revert plane. induction fuel as [|fuel IH]; intros plane H; cbn in H.
  - inversion H.
  - destruct (plane <? 4); [|inversion H].
    destruct (Frame.plane _ _); [|inversion H].
    destruct (Frame.plane _ _); [|inversion H].
    apply elem_of_cons in H. destruct H as [H|H].
    + injection H as -> _ _. lia.
    + apply IH in H. lia.
Qed.

Lemma slice_span_but_work sample lpx cpx td lo hi (p : Z) (d1 d2 : list Z)
    (a : Ctx.t) :
  but_work (slice_span sample lpx cpx td lo hi p d1 d2 a) = but_work a.
Proof.
  unfold slice_span. destruct (Ctx.work a) as [w|]; [|reflexivity].
  destruct (Frame.plane w (Z.to_nat p)); reflexivity.
Qed.

Lemma fold_slices_but_work sample lpx cpx td lo hi
    (l : list (Z * list Z * list Z)) (a : Ctx.t) :
  but_work (fold_left (fun a '(p, d1, d2) =>
                         slice_span sample lpx cpx td lo hi p d1 d2 a) l a)
  = but_work a.
Proof.
  revert a. induction l as [|[[p d1] d2] l IH]; intros a; cbn;
    [reflexivity|].
  rewrite IH. apply slice_span_but_work.
Qed.

(** One job of a slice function. *)
Lemma slice_job_all sample lpx cpx td job nb_jobs (a : Ctx.t) :
  planes_loop 4 0 td (slice_plane sample lpx cpx td job nb_jobs) a
  = slice_all sample lpx cpx td
      (fun h => (h * job) ÷ nb_jobs) (fun h => (h * (job + 1)) ÷ nb_jobs) a.
Proof.
  rewrite planes_loop_visited. unfold slice_all.
  generalize (planes_visited 4 0 td). intros l. revert a.
  induction l as [|[[p d1] d2] l IH]; intros a; cbn; [reflexivity|].
  rewrite slice_plane_span. apply IH.
Qed.


















Lemma load_fits (bits : Z) (buf : list Z) (i : Z) :
  0 <= bits -> samples_fit bits buf -> 0 <= load buf i < 2 ^ bits.
Proof.
  intros Hb Hfit. unfold load.
  assert (H0 : 0 <= 0 < 2 ^ bits) by (split; [lia|apply Z.pow_pos_nonneg; lia]).
  destruct (i <? 0); [exact H0|].
  destruct (buf !! Z.to_nat i) as [v|] eqn:E; [|exact H0].
  cbn. unfold samples_fit in Hfit. rewrite Forall_forall in Hfit.
  apply Hfit. apply list_elem_of_lookup. eauto.
Qed.












(** Without [lines_apart] the order of the jobs shows: two 10-bit frames of
    2 by 2 samples whose lines lie 4 samples apart, blended into a buffer
    whose lines lie 2 samples apart.  A job writes [line_size = 4] samples a
    line, the two samples of the next line included; run from the first to
    the last the jobs leave the luma plane of the first source, run from the
    last to the first they leave its padding in the second line. *)
Lemma blend_order_matters :
  let s := configured 1 scene_default 10 [4; 4; 4; 0] in
  let a := Frame.set_plane 0 [10; 11; 12; 13; 901; 902; 903; 904]
             (deep_padded_frame 2 2 4 0 512 512 0) in
  option_map luma (@blend (deep_graph 2 2 2 0) s a a 300 (Ctx.max s - 300))
  = Some [10; 11; 901; 902]
  /\ option_map luma
       (@blend (backwards_graph 2 2 2 0) s a a 300 (Ctx.max s - 300))
     = Some [10; 11; 12; 13].
Proof.
  cbv zeta. split; vm_compute; reflexivity.
Qed.

(** ** Output timestamps *)

Lemma periods_rescale (s : Ctx.t) (n : Z) :
  periods s n = av_rescale_rnd n (period_num s) (period_den s).
Proof. reflexivity. Qed.

(** Between two floors that lie [b] apart. *)
Lemma div_step (x b c : Z) :
  0 < c -> 0 <= b ->
  b / c <= (x + b) / c - x / c <= b / c + 1.
Proof.
  intros Hc Hb.
  pose proof (Z.div_mod x c ltac:(lia)) as H0.
  pose proof (Z.mod_pos_bound x c Hc) as R0.
  pose proof (Z.div_mod (x + b) c ltac:(lia)) as H1.
  pose proof (Z.mod_pos_bound (x + b) c Hc) as R1.
  pose proof (Z.div_mod b c ltac:(lia)) as Hb'.
  pose proof (Z.mod_pos_bound b c Hc) as Rb.
  set (q0 := x / c) in *. set (q1 := (x + b) / c) in *. set (k := b / c) in *.
  split; nia.
Qed.

(** One more period moves the rescaled count on by the quotient of the
    period, rounded down or up. *)
Lemma av_rescale_rnd_step (n b c : Z) :
  0 < c -> 0 <= b ->
  b / c <= av_rescale_rnd (n + 1) b c - av_rescale_rnd n b c <= b / c + 1.
Proof.
  intros Hc Hb. destruct (Z_le_gt_dec 0 n) as [Hn|Hn].
  - rewrite !av_rescale_rnd_nonneg by lia.
    replace ((n + 1) * b + c / 2) with (n * b + c / 2 + b) by lia.
    apply div_step; assumption.
  - assert (Hm : exists m, 0 < m /\ n = - m) by (exists (- n); lia).
    destruct Hm as (m & Hm & ->).
    replace (- m + 1) with (- (m - 1)) by lia.
    rewrite !av_rescale_rnd_opp by lia.
    rewrite !av_rescale_rnd_nonneg by lia.
    pose proof (div_step ((m - 1) * b + c / 2) b c Hc Hb) as H.
    replace ((m - 1) * b + c / 2 + b) with (m * b + c / 2) in H by lia.
    lia.
Qed.

Lemma av_rescale_rnd_exact (n b c : Z) :
  0 < c -> 0 <= b -> b mod c = 0 ->
  av_rescale_rnd n b c = n * (b / c).
Proof.
  intros Hc Hb Hm.
  assert (Hbc : b = c * (b / c)) by (pose proof (Z.div_mod b c); lia).
  assert (Hpos : forall a, 0 <= a -> av_rescale_rnd a b c = a * (b / c)).
  { intros a Ha. rewrite av_rescale_rnd_nonneg by lia.
    rewrite Hbc at 1.
    replace (a * (c * (b / c)) + c / 2) with (a * (b / c) * c + c / 2) by lia.
    rewrite Z.div_add_l by lia. rewrite (Z.div_small (c / 2)); [lia|].
    split; [apply Z.div_pos; lia|apply Z.div_lt; lia]. }
  destruct (Z_le_gt_dec 0 n) as [Hn|Hn]; [apply Hpos; exact Hn|].
  assert (Hneg : exists m, 0 < m /\ n = - m) by (exists (- n); lia).
  destruct Hneg as (m & Hneg & ->).
  rewrite av_rescale_rnd_opp, Hpos by lia. lia.
Qed.

Lemma periods_step (s : Ctx.t) (n : Z) :
  0 < period_den s <= period_num s ->
  period_num s / period_den s <= periods s (n + 1) - periods s n
  <= period_num s / period_den s + 1
  /\ periods s n < periods s (n + 1).
Proof.
  intros Hp. rewrite !periods_rescale.
  pose proof (av_rescale_rnd_step n (period_num s) (period_den s)
                ltac:(lia) ltac:(lia)) as H.
  assert (1 <= period_num s / period_den s).
  { apply Z.div_le_lower_bound; lia. }
  split; [exact H|lia].
Qed.

Lemma periods_increasing (s : Ctx.t) (n : Z) (k : nat) :
  0 < period_den s <= period_num s ->
  periods s n < periods s (n + 1 + Z.of_nat k).
Proof.
  intros Hp. induction k as [|k IH].
  - replace (n + 1 + Z.of_nat 0) with (n + 1) by lia.
    apply periods_step. exact Hp.
  - replace (n + 1 + Z.of_nat (S k)) with (n + 1 + Z.of_nat k + 1) by lia.
    destruct (periods_step s (n + 1 + Z.of_nat k) Hp) as [_ H]. lia.
Qed.

Lemma cursor_pts_ext (s1 s2 : Ctx.t) (n0 : Z) (k : nat) :
  Ctx.start_pts s1 = Ctx.start_pts s2 ->
  Ctx.dest_frame_rate s1 = Ctx.dest_frame_rate s2 ->
  Ctx.dest_time_base s1 = Ctx.dest_time_base s2 ->
  cursor_pts s1 n0 k = cursor_pts s2 n0 k.
Proof.
  intros H1 H2 H3. unfold cursor_pts, periods. rewrite H1, H2, H3.
  reflexivity.
Qed.

Lemma cursor_pts_cons (s : Ctx.t) (n0 : Z) (k : nat) :
  cursor_pts s n0 (S k)
  = (Ctx.start_pts s + periods s n0) :: cursor_pts s (n0 + 1) k.
Proof.
  unfold cursor_pts. cbn [seq map]. rewrite Z.add_0_r. f_equal.
  rewrite <- seq_shift, map_map. apply map_ext. intros i.
  do 2 f_equal. lia.
Qed.

Lemma cursor_pts_app (s : Ctx.t) (n0 : Z) (k1 k2 : nat) :
  cursor_pts s n0 (k1 + k2)
  = cursor_pts s n0 k1 ++ cursor_pts s (n0 + Z.of_nat k1) k2.
Proof.
  revert n0. induction k1 as [|k1 IH]; intros n0.
  - cbn. rewrite Z.add_0_r. reflexivity.
  - cbn [Nat.add]. rewrite !cursor_pts_cons, IH. cbn. do 3 f_equal. lia.
Qed.

Lemma cursor_pts_lookup (s : Ctx.t) (n0 : Z) (k i : nat) (v : Z) :
  cursor_pts s n0 k !! i = Some v ->
  v = Ctx.start_pts s + periods s (n0 + Z.of_nat i) /\ (i < k)%nat.
Proof.
  unfold cursor_pts. rewrite list_lookup_fmap. intros H.
  destruct (seq 0 k !! i) as [j|] eqn:E; [|discriminate].
  apply lookup_seq in E. destruct E as [-> Hi]. cbn in H.
  injection H as <-. split; [reflexivity|exact Hi].
Qed.

Lemma outputs_app (l1 l2 : list event) :
  outputs (l1 ++ l2) = outputs l1 ++ outputs l2.
Proof. unfold outputs. apply omap_app. Qed.

Lemma outputs_out (w : Frame.t) (evs : list event) :
  outputs (Out w :: evs) = w :: outputs evs.
Proof. reflexivity. Qed.

(** The output loop: the frames it passes on carry the timestamps of the
    cursor, one period after the other, and the counter counts them. *)
Lemma output_loop_trace {graph : FilterGraph} (fuel : nat) :
  forall (s s' : Ctx.t) (ret : Z) (evs : list event),
    output_loop fuel s = Some (ret, s', evs) ->
    but_output s' = but_output s
    /\ Ctx.n s' = Ctx.n s + Z.of_nat (length (outputs evs))
    /\ map Frame.pts (outputs evs)
       = cursor_pts s (Ctx.n s) (length (outputs evs))
    /\ (forall w, Warn w ∉ evs).
Proof.
  induction fuel as [|fuel IH]; intros s s' ret evs H; [discriminate|].
  cbn in H. pose proof (process_work_frame_result s) as Hres.
  destruct (process_work_frame s) as [r s1]. destruct Hres as [Hbut Hres].
  destruct (r <=? 0) eqn:Hr.
  { injection H as <- <- <-. cbn.
    split; [exact Hbut|]. split.
    - destruct Hres as [[_ ->]|[(-> & _)|(_ & Hn)]];
        [lia|discriminate|lia].
    - split; [reflexivity|]. intros w Hw. inversion Hw. }
  destruct Hres as [[-> _]|[(-> & Hn & w & Hw & Hpts)|(-> & _)]];
    [discriminate| |discriminate].
  rewrite Hw in H.
  assert (Hcur : forall n0 k, cursor_pts s1 n0 k = cursor_pts s n0 k).
  { intros n0 k. apply cursor_pts_ext.
    - apply (f_equal Ctx.start_pts) in Hbut. exact Hbut.
    - apply (f_equal Ctx.dest_frame_rate) in Hbut. exact Hbut.
    - apply (f_equal Ctx.dest_time_base) in Hbut. exact Hbut. }
  destruct (ff_filter_frame w >=? 0).
  - destruct (output_loop fuel s1) as [[[r2 s2] evs2]|] eqn:Hloop;
      [|discriminate].
    injection H as <- <- <-.
    destruct (IH _ _ _ _ Hloop) as (Hb2 & Hn2 & Hp2 & Hw2).
    rewrite outputs_out. cbn [length map].
    split; [congruence|]. split; [lia|]. split.
    + rewrite cursor_pts_cons, Hp2, Hcur, Hn. f_equal. exact Hpts.
    + intros w' Hw'. apply elem_of_cons in Hw'.
      destruct Hw' as [Hw'|Hw']; [discriminate|]. exact (Hw2 w' Hw').
  - injection H as <- <- <-. cbn.
    split; [exact Hbut|]. split; [lia|]. split.
    + unfold cursor_pts. cbn. rewrite Z.add_0_r. f_equal. exact Hpts.
    + intros w' Hw'. apply elem_of_cons in Hw'.
      destruct Hw' as [Hw'|Hw']; [discriminate|]. inversion Hw'.
Qed.

(** A call of filter_frame that neither resets the window nor meets the
    marker of a missing timestamp as a rescaled timestamp: it drops the frame
    and changes nothing, or it leaves a started cursor behind; the start of a
    started cursor stays, and the outputs carry the timestamps of the cursor. *)
Lemma filter_frame_trace {graph : FilterGraph} (fuel : nat) (s s' : Ctx.t)
    (f : Frame.t) (ret : Z) (evs : list event) :
  filter_frame fuel s f = Some (ret, s', evs) ->
  Warn WDiscontinuity ∉ evs ->
  dest_pts s f <> AV_NOPTS_VALUE ->
  (Ctx.dest_frame_rate s' = Ctx.dest_frame_rate s
   /\ Ctx.dest_time_base s' = Ctx.dest_time_base s
   /\ Ctx.srce_time_base s' = Ctx.srce_time_base s
   /\ Ctx.flush s' = Ctx.flush s)
  /\ Ctx.n s' = Ctx.n s + Z.of_nat (length (outputs evs))
  /\ map Frame.pts (outputs evs)
     = cursor_pts s' (Ctx.n s) (length (outputs evs))
  /\ (Ctx.start_pts s <> AV_NOPTS_VALUE -> Ctx.start_pts s' = Ctx.start_pts s)
  /\ ((outputs evs = [] /\ s' = s) \/ Ctx.start_pts s' <> AV_NOPTS_VALUE).
Proof.
  unfold filter_frame. intros H Hdisc Hpts.
  set (log0 := if Frame.interlaced_frame f then [Warn WInterlaced] else [])
    in *.
  assert (Hlog0 : outputs log0 = [])
    by (subst log0; destruct (Frame.interlaced_frame f); reflexivity).
  destruct (Frame.pts f =? AV_NOPTS_VALUE).
  { injection H as <- <- <-. rewrite outputs_app, Hlog0. cbn.
    repeat split; try reflexivity; try lia. left. auto. }
  fold (dest_pts s f) in H.
  destruct (is_set (Ctx.f1 s) && (dest_pts s f =? Ctx.pts1 s)).
  { injection H as <- <- <-. rewrite outputs_app, Hlog0. cbn.
    repeat split; try reflexivity; try lia. left. auto. }
  pose proof (shift_window_fields s f (dest_pts s f)) as Hs.
  assert (Hcfg : but_output
                   (Ctx.set_f0 None (Ctx.set_f1 None (Ctx.set_pts0 0
                      (Ctx.set_pts1 0 (Ctx.set_delta 0 (Ctx.set_start_pts 0
                         (fst (shift_window s f (dest_pts s f)))))))))
                 = but_output
                     (Ctx.set_f0 None (Ctx.set_f1 None (Ctx.set_pts0 0
                        (Ctx.set_pts1 0 (Ctx.set_delta 0
                           (Ctx.set_start_pts 0 s))))))).
  { unfold shift_window. cbn.
    destruct (dest_pts s f - Ctx.pts1 s <? 0); cbn;
      repeat match goal with
             | |- context [if ?b then _ else _] => destruct b
             end; reflexivity. }
  destruct (shift_window s f (dest_pts s f)) as [s1 log1].
  cbn [fst snd] in Hs, Hcfg.
  destruct Hs as (_ & _ & _ & _ & Hfl & _ & Hn & Hst & Hlog).
  destruct (output_loop fuel s1) as [[[r2 s2] evs2]|] eqn:Hloop;
    [|discriminate].
  injection H as <- <- <-.
  destruct (output_loop_trace fuel _ _ _ _ Hloop) as (Hb2 & Hn2 & Hp2 & Hw2).
  assert (Hreset : (dest_pts s f - Ctx.pts1 s <? 0) = false).
  { destruct (dest_pts s f - Ctx.pts1 s <? 0); [|reflexivity].
    exfalso. apply Hdisc. subst log1.
    apply elem_of_app. right. apply elem_of_app. left.
    apply list_elem_of_here. }
  rewrite Hreset in *. subst log1.
  rewrite !outputs_app, Hlog0. change (outputs []) with (@nil Frame.t).
  cbn [app].
  assert (Hstart2 : Ctx.start_pts s2 = Ctx.start_pts s1)
    by (apply (f_equal Ctx.start_pts) in Hb2; exact Hb2).
  split.
  { split; [|split; [|split]].
    - apply (f_equal Ctx.dest_frame_rate) in Hb2, Hcfg. cbn in Hb2, Hcfg.
      congruence.
    - apply (f_equal Ctx.dest_time_base) in Hb2, Hcfg. cbn in Hb2, Hcfg.
      congruence.
    - apply (f_equal Ctx.srce_time_base) in Hb2, Hcfg. cbn in Hb2, Hcfg.
      congruence.
    - apply (f_equal Ctx.flush) in Hb2. cbn in Hb2. congruence. }
  split; [lia|]. split.
  { rewrite Hp2, Hn. apply cursor_pts_ext.
    - symmetry. exact Hstart2.
    - apply (f_equal Ctx.dest_frame_rate) in Hb2. symmetry. exact Hb2.
    - apply (f_equal Ctx.dest_time_base) in Hb2. symmetry. exact Hb2. }
  split.
  { intros Hne. rewrite Hstart2, Hst.
    apply Z.eqb_neq in Hne. rewrite Hne. reflexivity. }
  right. rewrite Hstart2, Hst.
  destruct (Ctx.start_pts s =? AV_NOPTS_VALUE) eqn:E; [exact Hpts|].
  apply Z.eqb_neq. exact E.
Qed.

Lemma dest_pts_ext (s1 s2 : Ctx.t) (f : Frame.t) :
  Ctx.srce_time_base s1 = Ctx.srce_time_base s2 ->
  Ctx.dest_time_base s1 = Ctx.dest_time_base s2 ->
  dest_pts s1 f = dest_pts s2 f.
Proof. intros H1 H2. unfold dest_pts. rewrite H1, H2. reflexivity. Qed.

(** A run without a reset: the outputs of all the calls carry the
    timestamps of one cursor, and the counter counts them. *)
Lemma run_trace {graph : FilterGraph} (fuel : nat) (frames : list Frame.t) :
  forall (s s' : Ctx.t) (evs : list event),
    run fuel s frames = Some (s', evs) ->
    Warn WDiscontinuity ∉ evs ->
    Forall (fun f => dest_pts s f <> AV_NOPTS_VALUE) frames ->
    (Ctx.dest_frame_rate s' = Ctx.dest_frame_rate s
     /\ Ctx.dest_time_base s' = Ctx.dest_time_base s
     /\ Ctx.srce_time_base s' = Ctx.srce_time_base s
     /\ Ctx.flush s' = Ctx.flush s)
    /\ Ctx.n s' = Ctx.n s + Z.of_nat (length (outputs evs))
    /\ map Frame.pts (outputs evs)
       = cursor_pts s' (Ctx.n s) (length (outputs evs))
    /\ (Ctx.start_pts s <> AV_NOPTS_VALUE ->
        Ctx.start_pts s' = Ctx.start_pts s).
Proof.
  induction frames as [|f rest IH]; intros s s' evs Hrun Hdisc Hpts.
  { cbn in Hrun. injection Hrun as <- <-. cbn.
    repeat split; try reflexivity; lia. }
  cbn in Hrun.
  destruct (filter_frame fuel s f) as [[[r s1] evs1]|] eqn:Hff;
    [|discriminate].
  destruct (run fuel s1 rest) as [[s2 evs2]|] eqn:Hrest; [|discriminate].
  injection Hrun as <- <-.
  apply Forall_cons in Hpts. destruct Hpts as [Hf Hrest_pts].
  assert (Hd1 : Warn WDiscontinuity ∉ evs1)
    by (intros H; apply Hdisc, elem_of_app; left; exact H).
  assert (Hd2 : Warn WDiscontinuity ∉ evs2)
    by (intros H; apply Hdisc, elem_of_app; right; exact H).
  destruct (filter_frame_trace fuel s s1 f r evs1 Hff Hd1 Hf)
    as ((Hr1 & Ht1 & Hs1 & Hfl1) & Hn1 & Hp1 & Hk1 & Hdrop).
  assert (Hrest_pts' : Forall (fun f => dest_pts s1 f <> AV_NOPTS_VALUE) rest).
  { eapply Forall_impl; [exact Hrest_pts|]. intros g Hg.
    rewrite (dest_pts_ext s1 s g Hs1 Ht1). exact Hg. }
  destruct (IH s1 s2 evs2 Hrest Hd2 Hrest_pts')
    as ((Hr2 & Ht2 & Hs2 & Hfl2) & Hn2 & Hp2 & Hk2).
  rewrite outputs_app, length_app, map_app, Nat2Z.inj_add.
  split; [repeat split; congruence|]. split; [lia|]. split.
  - rewrite cursor_pts_app, Hp1, Hp2, Hn1. f_equal.
    destruct Hdrop as [[Hnil ->]|Hstart].
    + rewrite Hnil. reflexivity.
    + apply cursor_pts_ext; [|congruence|congruence].
      symmetry. apply Hk2. exact Hstart.
  - intros Hne. rewrite Hk2; [apply Hk1; exact Hne|].
    rewrite (Hk1 Hne). exact Hne.
Qed.

Lemma process_work_frame_not_due {graph : FilterGraph} (s : Ctx.t) :
  Ctx.flush s = false -> work_pts_of s >= Ctx.pts1 s ->
  process_work_frame s = (0, s).
Proof.
  intros Hfl Hge. unfold process_work_frame. rewrite Hfl.
  destruct (Ctx.f1 s); [|reflexivity].
  destruct (is_set (Ctx.f0 s)); cbn; [|reflexivity].
  replace (work_pts_of s >=? Ctx.pts1 s) with true
    by (symmetry; apply Z.geb_le; lia).
  reflexivity.
Qed.

Lemma work_pts_of_periods (s : Ctx.t) :
  work_pts_of s = Ctx.start_pts s + periods s (Ctx.n s).
Proof. reflexivity. Qed.

(** Outside a flush, with a period of at least one tick, the output loop
    ends: every output moves the candidate on by a tick or more, towards
    [pts1]. *)
Lemma output_loop_terminates {graph : FilterGraph} (fuel : nat) :
  forall s : Ctx.t,
    Ctx.flush s = false ->
    0 < period_den s <= period_num s ->
    (Z.to_nat (Ctx.pts1 s - work_pts_of s) < fuel)%nat ->
    exists res, output_loop fuel s = Some res.
Proof.
  induction fuel as [|fuel IH]; intros s Hfl Hper Hfuel; [lia|].
  cbn. pose proof (process_work_frame_result s) as Hres.
  pose proof (process_work_frame_not_due s Hfl) as Hdue.
  destruct (process_work_frame s) as [r s1]. destruct Hres as [Hbut Hres].
  destruct Hres as [[-> _]|[(-> & Hn & w & Hw & Hpts)|(-> & _)]].
  - eexists. reflexivity.
  - cbn. rewrite Hw. destruct (ff_filter_frame w >=? 0); [|eexists; reflexivity].
    assert (Hlt : work_pts_of s < Ctx.pts1 s).
    { destruct (Z_lt_ge_dec (work_pts_of s) (Ctx.pts1 s)) as [H|H];
        [exact H|].
      specialize (Hdue H). discriminate. }
    assert (Hrate : Ctx.dest_frame_rate s1 = Ctx.dest_frame_rate s)
      by (apply (f_equal Ctx.dest_frame_rate) in Hbut; exact Hbut).
    assert (Htb : Ctx.dest_time_base s1 = Ctx.dest_time_base s)
      by (apply (f_equal Ctx.dest_time_base) in Hbut; exact Hbut).
    assert (Hst : Ctx.start_pts s1 = Ctx.start_pts s)
      by (apply (f_equal Ctx.start_pts) in Hbut; exact Hbut).
    assert (Hp1 : Ctx.pts1 s1 = Ctx.pts1 s)
      by (apply (f_equal Ctx.pts1) in Hbut; exact Hbut).
    assert (Hfl1 : Ctx.flush s1 = Ctx.flush s)
      by (apply (f_equal Ctx.flush) in Hbut; exact Hbut).
    assert (Hwp : work_pts_of s < work_pts_of s1).
    { rewrite !work_pts_of_periods, Hst, Hn. unfold periods.
      rewrite Hrate, Htb. fold (periods s (Ctx.n s)).
      fold (periods s (Ctx.n s + 1)).
      destruct (periods_step s (Ctx.n s) Hper) as [_ H]. lia. }
    destruct (IH s1) as [[[r2 s2] evs2] Hloop].
    + congruence.
    + unfold period_den, period_num in *. rewrite Hrate, Htb. exact Hper.
    + rewrite Hp1. lia.
    + rewrite Hloop. eexists. reflexivity.
  - eexists. reflexivity.
Qed.

Lemma output_loop_more_fuel {graph : FilterGraph} (fuel : nat) :
  forall (s : Ctx.t) res,
    output_loop fuel s = Some res ->
    forall fuel', (fuel <= fuel')%nat -> output_loop fuel' s = Some res.
Proof.
  induction fuel as [|fuel IH]; intros s res H fuel' Hle; [discriminate|].
  destruct fuel' as [|fuel']; [lia|]. cbn in H |- *.
  destruct (process_work_frame s) as [r s1].
  destruct (r <=? 0); [exact H|].
  destruct (Ctx.work s1) as [w|]; [|discriminate].
  destruct (ff_filter_frame w >=? 0); [|exact H].
  destruct (output_loop fuel s1) as [[[r2 s2] evs2]|] eqn:Hloop;
    [|discriminate].
  rewrite (IH s1 _ Hloop fuel') by lia. exact H.
Qed.

Lemma filter_frame_terminates {graph : FilterGraph} (s : Ctx.t)
    (f : Frame.t) :
  Ctx.flush s = false ->
  0 < period_den s <= period_num s ->
  exists fuel0 res,
    forall fuel, (fuel0 <= fuel)%nat -> filter_frame fuel s f = Some res.
Proof.
  intros Hfl Hper. unfold filter_frame.
  destruct (Frame.pts f =? AV_NOPTS_VALUE); [exists O; eauto|].
  destruct (is_set (Ctx.f1 s) && _); [exists O; eauto|].
  pose proof (shift_window_fields s f (dest_pts s f)) as Hs.
  assert (Hcfg : Ctx.dest_frame_rate (fst (shift_window s f (dest_pts s f)))
                 = Ctx.dest_frame_rate s
                 /\ Ctx.dest_time_base (fst (shift_window s f (dest_pts s f)))
                    = Ctx.dest_time_base s).
  { unfold shift_window. cbn.
    destruct (dest_pts s f - Ctx.pts1 s <? 0); cbn;
      repeat match goal with
             | |- context [if ?b then _ else _] => destruct b
             end; auto. }
  fold (dest_pts s f).
  destruct (shift_window s f (dest_pts s f)) as [s1 log1].
  cbn [fst snd] in Hs, Hcfg. destruct Hcfg as [Hrate Htb].
  destruct Hs as (_ & _ & _ & _ & Hfl1 & _).
  set (fuel0 := S (Z.to_nat (Ctx.pts1 s1 - work_pts_of s1))).
  destruct (output_loop_terminates fuel0 s1) as [[[r2 s2] evs2] Hloop].
  - congruence.
  - unfold period_den, period_num in *. rewrite Hrate, Htb. exact Hper.
  - subst fuel0. lia.
  - exists fuel0. eexists. intros fuel Hle.
    rewrite (output_loop_more_fuel fuel0 s1 _ Hloop fuel Hle). reflexivity.
Qed.

Lemma filter_frame_config {graph : FilterGraph} (fuel : nat) (s s' : Ctx.t)
    (f : Frame.t) (ret : Z) (evs : list event) :
  filter_frame fuel s f = Some (ret, s', evs) ->
  Ctx.dest_frame_rate s' = Ctx.dest_frame_rate s
  /\ Ctx.dest_time_base s' = Ctx.dest_time_base s
  /\ Ctx.flush s' = Ctx.flush s.
Proof.
  unfold filter_frame. intros H.
  destruct (Frame.pts f =? AV_NOPTS_VALUE); [injection H as <- <- <-; auto|].
  destruct (is_set (Ctx.f1 s) && _); [injection H as <- <- <-; auto|].
  match type of H with
  | context [shift_window s f ?p] =>
      assert (Hcfg : Ctx.dest_frame_rate (fst (shift_window s f p))
                     = Ctx.dest_frame_rate s
                     /\ Ctx.dest_time_base (fst (shift_window s f p))
                        = Ctx.dest_time_base s
                     /\ Ctx.flush (fst (shift_window s f p)) = Ctx.flush s);
      [|destruct (shift_window s f p) as [s1 log1]]
  end.
  { unfold shift_window. cbn.
    match goal with |- context [?a - ?b <? 0] => destruct (a - b <? 0) end;
      cbn;
      repeat match goal with
             | |- context [if ?b then _ else _] => destruct b
             end; auto. }
  cbn [fst] in Hcfg. destruct Hcfg as (Hrate & Htb & Hfl).
  destruct (output_loop fuel s1) as [[[r2 s2] evs2]|] eqn:Hloop;
    [|discriminate].
  injection H as <- <- <-.
  destruct (output_loop_trace fuel _ _ _ _ Hloop) as (Hb2 & _).
  split; [|split].
  - apply (f_equal Ctx.dest_frame_rate) in Hb2. cbn in Hb2. congruence.
  - apply (f_equal Ctx.dest_time_base) in Hb2. cbn in Hb2. congruence.
  - apply (f_equal Ctx.flush) in Hb2. cbn in Hb2. congruence.
Qed.

(** Outside a flush, with a period of at least one tick, a run comes to an
    end, given fuel enough. *)
Lemma run_terminates {graph : FilterGraph} (frames : list Frame.t) :
  forall s : Ctx.t,
    Ctx.flush s = false ->
    0 < period_den s <= period_num s ->
    exists fuel0 res,
      forall fuel, (fuel0 <= fuel)%nat -> run fuel s frames = Some res.
Proof.
  induction frames as [|f rest IH]; intros s Hfl Hper.
  { exists O. eexists. intros fuel _. reflexivity. }
  destruct (filter_frame_terminates s f Hfl Hper)
    as (fuel1 & [[r s1] evs1] & Hff).
  destruct (filter_frame_config fuel1 s s1 f r evs1 (Hff fuel1 ltac:(lia)))
    as (Hrate & Htb & Hfl1).
  destruct (IH s1) as (fuel2 & [s2 evs2] & Hrest).
  - congruence.
  - unfold period_den, period_num in *. rewrite Hrate, Htb. exact Hper.
  - exists (Nat.max fuel1 fuel2). eexists. intros fuel Hle. cbn.
    rewrite Hff by lia. rewrite Hrest by lia. reflexivity.
Qed.

(** C2.  In a run of input frames without a reset, the timestamp of the
    [i]-th output is [start_pts + rescale(n + i, 1 / dest_frame_rate,
    dest_time_base)], [n] being the counter before the run and [start_pts]
    the start of the cursor, which stays once it is set; the counter has
    counted the outputs at the end.  When a period is a tick of the
    destination time base or more, the timestamps increase strictly; two in
    a row lie the quotient of the period apart, rounded down or up, and that
    quotient exactly when the period is a whole number of ticks.  Such a run
    outside a flush comes to an end. *)
Theorem C2_output_timestamps {graph : FilterGraph} (s : Ctx.t)
    (frames : list Frame.t) :
  Forall (fun f => dest_pts s f <> AV_NOPTS_VALUE) frames ->
  (forall fuel s' evs,
      run fuel s frames = Some (s', evs) ->
      Warn WDiscontinuity ∉ evs ->
      let pts := map Frame.pts (outputs evs) in
      Ctx.n s' = Ctx.n s + Z.of_nat (length pts)
      /\ (Ctx.start_pts s <> AV_NOPTS_VALUE ->
          Ctx.start_pts s' = Ctx.start_pts s)
      /\ (forall i v,
             pts !! i = Some v ->
             v = Ctx.start_pts s' + periods s (Ctx.n s + Z.of_nat i))
      /\ (0 < period_den s <= period_num s ->
          (forall i j v v',
              (i < j)%nat -> pts !! i = Some v -> pts !! j = Some v' ->
              v < v')
          /\ (forall i v v',
                 pts !! i = Some v -> pts !! S i = Some v' ->
                 period_num s / period_den s <= v' - v
                 <= period_num s / period_den s + 1
                 /\ (period_num s mod period_den s = 0 ->
                     v' - v = period_num s / period_den s))))
  /\ (Ctx.flush s = false -> 0 < period_den s <= period_num s ->
      exists fuel0 res,
        forall fuel, (fuel0 <= fuel)%nat -> run fuel s frames = Some res).
Proof.
  intros Hpts. split; [|intros Hfl Hper; apply run_terminates; assumption].
  intros fuel s' evs Hrun Hdisc pts.
  destruct (run_trace fuel frames s s' evs Hrun Hdisc Hpts)
    as ((Hrate & Htb & _ & _) & Hn & Hp & Hkeep).
  assert (Hper_eq : forall m, periods s' m = periods s m).
  { intros m. unfold periods. rewrite Hrate, Htb. reflexivity. }
  assert (Hlook : forall i v,
             pts !! i = Some v ->
             v = Ctx.start_pts s' + periods s (Ctx.n s + Z.of_nat i)).
  { intros i v Hi. subst pts. rewrite Hp in Hi.
    apply cursor_pts_lookup in Hi. destruct Hi as [-> _].
    rewrite Hper_eq. reflexivity. }
  split; [subst pts; rewrite length_map; exact Hn|].
  split; [exact Hkeep|]. split; [exact Hlook|].
  intros Hper. split.
  - intros i j v v' Hij Hi Hj.
    rewrite (Hlook i v Hi), (Hlook j v' Hj).
    replace (Ctx.n s + Z.of_nat j)
      with (Ctx.n s + Z.of_nat i + 1 + Z.of_nat (j - i - 1)) by lia.
    pose proof (periods_increasing s (Ctx.n s + Z.of_nat i) (j - i - 1) Hper).
    lia.
  - intros i v v' Hi Hj.
    rewrite (Hlook i v Hi), (Hlook (S i) v' Hj).
    replace (Ctx.n s + Z.of_nat (S i)) with (Ctx.n s + Z.of_nat i + 1) by lia.
    destruct (periods_step s (Ctx.n s + Z.of_nat i) Hper) as [Hstep _].
    split; [lia|].
    intros Hmod. rewrite !periods_rescale.
    rewrite !av_rescale_rnd_exact by lia. lia.
Qed.

(** Three frames at 25 frames a second, output at 50: the timestamps 0, 1,
    2 and 3 of the destination time base. *)
Lemma C2_output_timestamps_witness :
  let g := plain_graph 1 1 1 0 in
  let s := example_context [1; 1; 1; 0] in
  let frames := [flat_frame 1 1 10 128 128 0; flat_frame 1 1 20 128 128 1;
                 flat_frame 1 1 30 128 128 2] in
  option_map (fun r => map Frame.pts (outputs (snd r))) (@run g 3 s frames)
  = Some [0; 1; 2; 3]
  /\ (forall fuel s' evs,
         @run g fuel s frames = Some (s', evs) ->
         Warn WDiscontinuity ∉ evs ->
         let pts := map Frame.pts (outputs evs) in
         Ctx.n s' = Ctx.n s + Z.of_nat (length pts)
         /\ (Ctx.start_pts s <> AV_NOPTS_VALUE ->
             Ctx.start_pts s' = Ctx.start_pts s)
         /\ (forall i v,
                pts !! i = Some v ->
                v = Ctx.start_pts s' + periods s (Ctx.n s + Z.of_nat i))
         /\ (0 < period_den s <= period_num s ->
             (forall i j v v',
                 (i < j)%nat -> pts !! i = Some v -> pts !! j = Some v' ->
                 v < v')
             /\ (forall i v v',
                    pts !! i = Some v -> pts !! S i = Some v' ->
                    period_num s / period_den s <= v' - v
                    <= period_num s / period_den s + 1
                    /\ (period_num s mod period_den s = 0 ->
                        v' - v = period_num s / period_den s))))
  /\ (Ctx.flush s = false -> 0 < period_den s <= period_num s ->
      exists fuel0 res,
        forall fuel, (fuel0 <= fuel)%nat -> @run g fuel s frames = Some res).
Proof.
  intros g s frames. split; [vm_compute; reflexivity|].
  apply (@C2_output_timestamps g s frames).
  repeat constructor; vm_compute; discriminate.
Defined.

(** ** What the set-up guarantees *)

(** After config_input, for the depths of the supported formats and the
    ranges of the two options, the thresholds lie between 0 and the maximum,
    which fits the 16 bits of a weight. *)
Lemma config_input_thresholds (s : Ctx.t) (depth log2_chroma_h : Z)
    (line_sizes : list Z) (time_base : AVRational.t) :
  8 <= depth <= 12 ->
  0 <= Ctx.interp_start_param s <= 255 ->
  0 <= Ctx.interp_end_param s <= 255 ->
  let s' := config_input s depth log2_chroma_h line_sizes time_base in
  0 <= Ctx.interp_start s' /\ Ctx.interp_end s' <= Ctx.max s'
  /\ Ctx.max s' < 2 ^ 16 /\ depth_ok s'
  /\ Ctx.sad s' = pixelutils_sad_8x8.
Proof.
  intros Hd Hs He. cbv zeta. unfold depth_ok, config_input.
  cbn [Ctx.interp_start Ctx.interp_end Ctx.max Ctx.sad Ctx.bitdepth].
  rewrite !Z.shiftl_mul_pow2 by lia.
  assert (Hpow : 2 ^ depth = 2 ^ (depth - 8) * 2 ^ 8).
  { rewrite <- Z.pow_add_r by lia. f_equal. lia. }
  assert (0 < 2 ^ (depth - 8)) by (apply Z.pow_pos_nonneg; lia).
  assert (2 ^ depth <= 2 ^ 12) by (apply Z.pow_le_mono_r; lia).
  change (2 ^ 8) with 256 in Hpow. change (2 ^ 12) with 4096 in *.
  change (2 ^ 16) with 65536.
  split; [nia|]. split; [nia|]. split; [lia|]. split; [|reflexivity].
  split; lia.
Qed.

(** What config_output sets: the destination time base, nothing else. *)
Lemma config_output_sets (best_effort : Z -> Z -> Z -> AVRational.t)
    (s : Ctx.t) :
  let s' := fst (config_output best_effort s) in
  s' = Ctx.mk (Ctx.dest_frame_rate s) (Ctx.flags s) (Ctx.scene_score s)
              (Ctx.interp_start s) (Ctx.interp_end s)
              (Ctx.interp_start_param s) (Ctx.interp_end_param s)
              (Ctx.line_size s) (Ctx.vsub s) (Ctx.srce_time_base s)
              (Ctx.dest_time_base s')
              (Ctx.sad s) (Ctx.prev_mafd s) (Ctx.max s) (Ctx.bitdepth s)
              (Ctx.work s) (Ctx.f0 s) (Ctx.f1 s) (Ctx.pts0 s) (Ctx.pts1 s)
              (Ctx.delta s) (Ctx.score s) (Ctx.flush s) (Ctx.start_pts s)
              (Ctx.n s).
Proof.
  cbv zeta. unfold config_output. destruct (av_reduce _ _ _ _) as [exact tb].
  reflexivity.
Qed.

Lemma config_output_rates (best_effort : Z -> Z -> Z -> AVRational.t)
    (s : Ctx.t) :
  Ctx.srce_time_base (fst (config_output best_effort s)) = Ctx.srce_time_base s
  /\ Ctx.dest_frame_rate (fst (config_output best_effort s))
     = Ctx.dest_frame_rate s.
Proof. rewrite (config_output_sets best_effort s). split; reflexivity. Qed.

(** Without a warning the destination time base is the fraction in lowest
    terms; with it, the best-effort approximation of libavutil. *)
Lemma config_output_cases (best_effort : Z -> Z -> Z -> AVRational.t)
    (s : Ctx.t) :
  let num := Z.gcd (AVRational.num (Ctx.srce_time_base s)
                    * AVRational.num (Ctx.dest_frame_rate s))
                   (AVRational.den (Ctx.srce_time_base s)
                    * AVRational.den (Ctx.dest_frame_rate s)) in
  let den := AVRational.den (Ctx.srce_time_base s)
             * AVRational.num (Ctx.dest_frame_rate s) in
  let s' := fst (config_output best_effort s) in
  (snd (config_output best_effort s) = []
   /\ Z.abs (num / Z.gcd num den) <= INT_MAX
   /\ Z.abs (den / Z.gcd num den) <= INT_MAX
   /\ Ctx.dest_time_base s'
      = AVRational.mk (num / Z.gcd num den) (den / Z.gcd num den))
  \/ (snd (config_output best_effort s) = [Warn WInexact]
      /\ ~ (Z.abs (num / Z.gcd num den) <= INT_MAX
            /\ Z.abs (den / Z.gcd num den) <= INT_MAX)
      /\ Ctx.dest_time_base s' = best_effort num den INT_MAX).
Proof.
  cbv zeta. unfold config_output, av_reduce, av_gcd.
  set (num := Z.gcd _ _). set (den := _ * _ : Z). set (g := Z.gcd num den).
  destruct (Z.leb_spec (Z.abs (num / g)) INT_MAX) as [H1|H1];
    [destruct (Z.leb_spec (Z.abs (den / g)) INT_MAX) as [H2|H2]|]; cbn.
  - left. auto.
  - right. split; [reflexivity|]. split; [lia|reflexivity].
  - right. split; [reflexivity|]. split; [lia|reflexivity].
Qed.

(** The time base config_output derives without a warning holds a period of
    the output in a whole number of ticks: the condition under which the
    timestamps of the outputs increase. *)
Lemma config_output_period (best_effort : Z -> Z -> Z -> AVRational.t)
    (s : Ctx.t) :
  0 < AVRational.num (Ctx.srce_time_base s) ->
  0 < AVRational.den (Ctx.srce_time_base s) ->
  0 < AVRational.num (Ctx.dest_frame_rate s) ->
  0 < AVRational.den (Ctx.dest_frame_rate s) ->
  snd (config_output best_effort s) = [] ->
  let s' := fst (config_output best_effort s) in
  0 < period_den s' <= period_num s'
  /\ period_num s' mod period_den s' = 0.
Proof.
  intros Hsn Hsd Hrn Hrd Hexact. cbv zeta.
  destruct (config_output_cases best_effort s)
    as [(_ & _ & _ & Htb)|(Hw & _)]; [|congruence].
  cbv zeta in Htb. unfold period_den, period_num. rewrite Htb.
  rewrite (config_output_sets best_effort s).
  cbn [Ctx.dest_frame_rate AVRational.num AVRational.den].
  set (sn := AVRational.num (Ctx.srce_time_base s)) in *.
  set (sd := AVRational.den (Ctx.srce_time_base s)) in *.
  set (rn := AVRational.num (Ctx.dest_frame_rate s)) in *.
  set (rd := AVRational.den (Ctx.dest_frame_rate s)) in *.
  set (g := Z.gcd (sn * rn) (sd * rd)).
  set (G := Z.gcd g (sd * rn)).
  assert (Hg : 0 < g).
  { pose proof (Z.gcd_nonneg (sn * rn) (sd * rd)).
    assert (g <> 0); [|lia]. intros E. apply Z.gcd_eq_0_l in E. nia. }
  assert (HG : 0 < G).
  { pose proof (Z.gcd_nonneg g (sd * rn)).
    assert (G <> 0); [|lia]. intros E. apply Z.gcd_eq_0_l in E. lia. }
  destruct (Z.gcd_divide_r (sn * rn) (sd * rd)) as [m Hm]. fold g in Hm.
  destruct (Z.gcd_divide_l g (sd * rn)) as [g' Hg']. fold G in Hg'.
  destruct (Z.gcd_divide_r g (sd * rn)) as [D' HD']. fold G in HD'.
  clearbody G g.
  assert (Eg : g / G = g') by (rewrite Hg'; apply Z.div_mul; lia).
  assert (ED : sd * rn / G = D') by (rewrite HD'; apply Z.div_mul; lia).
  rewrite Eg, ED.
  assert (Hg'pos : 0 < g') by (apply (Z.mul_pos_cancel_r g' G HG); lia).
  assert (Hsr : 0 < sd * rd) by (apply Z.mul_pos_pos; assumption).
  assert (Hmpos : 0 < m) by (apply (Z.mul_pos_cancel_r m g Hg); lia).
  assert (Hden : 0 < g' * rn) by (apply Z.mul_pos_pos; assumption).
  assert (Hkey : rd * D' = m * (g' * rn)).
  { apply (Z.mul_reg_r _ _ G); [lia|].
    replace (rd * D' * G) with (rd * (D' * G)) by lia. rewrite <- HD'.
    replace (m * (g' * rn) * G) with (m * (g' * G) * rn) by lia.
    rewrite <- Hg', <- Hm. lia. }
  rewrite Hkey. split; [|apply Z.mod_mul; lia].
  split; [exact Hden|].
  replace (g' * rn) with (1 * (g' * rn)) at 1 by lia.
  apply Z.mul_le_mono_nonneg_r; lia.
Qed.

(** ** More on the scene detector *)

Lemma sumZ_bound (hi : Z) (l : list Z) :
  Forall (fun x => 0 <= x <= hi) l ->
  0 <= sumZ l <= Z.of_nat (length l) * hi.
Proof.
  induction 1 as [|x l Hx _ IH]; cbn [sumZ foldr length]; [lia|].
  fold (sumZ l). lia.
Qed.

Lemma sumZ_map_bound {A : Type} (hi : Z) (f : A -> Z) (l : list A) :
  (forall x, 0 <= f x <= hi) ->
  0 <= sumZ (map f l) <= Z.of_nat (length l) * hi.
Proof.
  intros Hf. induction l as [|x l IH]; cbn [map sumZ foldr length]; [lia|].
  fold (sumZ (map f l)). specialize (Hf x). lia.
Qed.

Lemma sumZ_map_zero {A : Type} (f : A -> Z) (l : list A) :
  (forall x, f x = 0) -> sumZ (map f l) = 0.
Proof.
  intros Hf. induction l as [|x l IH]; cbn; [reflexivity|].
  fold (sumZ (map f l)). rewrite Hf, IH. reflexivity.
Qed.

Lemma length_seqZ_8 : length (seqZ 0 8) = 8%nat.
Proof. reflexivity. Qed.

(** X1.  sad_8x8_16 is the sum of the absolute differences of the 64 samples
    of two 8x8 blocks.  On 16-bit samples it lies between 0 and 64 * 65535:
    the [int] that accumulates it cannot overflow.  It does not depend on
    the order of the two blocks. *)
Theorem X1_sad_8x8_16_sum (src1 : list Z) (o1 stride1 : Z) (src2 : list Z)
    (o2 stride2 : Z) :
  samples_fit 16 src1 -> samples_fit 16 src2 ->
  let sad := sad_8x8_16 src1 o1 stride1 src2 o2 stride2 in
  sad = sumZ (map (fun y =>
                     sumZ (map (fun x =>
                                  Z.abs (load src1 (o1 + y * stride1 + x)
                                         - load src2 (o2 + y * stride2 + x)))
                               (seqZ 0 8)))
                  (seqZ 0 8))
  /\ 0 <= sad <= 64 * (2 ^ 16 - 1)
  /\ sad < 2 ^ 31
  /\ sad_8x8_16 src2 o2 stride2 src1 o1 stride1 = sad.
Proof.
  intros H1 H2 sad. subst sad. rewrite !sad_8x8_16_spec.
  unfold pixelutils_sad_8x8.
  assert (Hb : 0 <= sumZ (map (fun y =>
                     sumZ (map (fun x =>
                                  Z.abs (load src1 (o1 + y * stride1 + x)
                                         - load src2 (o2 + y * stride2 + x)))
                               (seqZ 0 8)))
                  (seqZ 0 8)) <= 64 * (2 ^ 16 - 1)).
  { pose proof (sumZ_map_bound (8 * (2 ^ 16 - 1))
      (fun y => sumZ (map (fun x =>
                            Z.abs (load src1 (o1 + y * stride1 + x)
                                   - load src2 (o2 + y * stride2 + x)))
                         (seqZ 0 8))) (seqZ 0 8)) as Hs.
    cbv beta in Hs. rewrite length_seqZ_8 in Hs.
    assert (Hrow : forall y,
      0 <= sumZ (map (fun x =>
                            Z.abs (load src1 (o1 + y * stride1 + x)
                                   - load src2 (o2 + y * stride2 + x)))
                         (seqZ 0 8)) <= 8 * (2 ^ 16 - 1)).
    { intros y.
      pose proof (sumZ_map_bound (2 ^ 16 - 1)
        (fun x => Z.abs (load src1 (o1 + y * stride1 + x)
                         - load src2 (o2 + y * stride2 + x))) (seqZ 0 8)) as Hr.
      cbv beta in Hr. rewrite length_seqZ_8 in Hr.
      assert (Hpx : forall x,
        0 <= Z.abs (load src1 (o1 + y * stride1 + x)
                    - load src2 (o2 + y * stride2 + x)) <= 2 ^ 16 - 1).
      { intros x.
        pose proof (load_fits 16 src1 (o1 + y * stride1 + x) ltac:(lia) H1).
        pose proof (load_fits 16 src2 (o2 + y * stride2 + x) ltac:(lia) H2).
        lia. }
      specialize (Hr Hpx). lia. }
    specialize (Hs Hrow). lia. }
  split; [reflexivity|]. split; [exact Hb|]. split; [lia|].
  f_equal. apply map_ext. intros y. f_equal. apply map_ext. intros x.
  rewrite <- Z.abs_opp. f_equal. lia.
Qed.

(** Two blocks of a plane of 16-bit samples, 8 apart. *)
Lemma X1_sad_8x8_16_sum_witness :
  let src := replicate 128 1000 ++ replicate 128 3000 in
  sad_8x8_16 src 0 16 src 128 16 = 128000
  /\ let sad := sad_8x8_16 src 0 16 src 128 16 in
     sad = sumZ (map (fun y =>
                        sumZ (map (fun x =>
                                     Z.abs (load src (0 + y * 16 + x)
                                            - load src (128 + y * 16 + x)))
                                  (seqZ 0 8)))
                     (seqZ 0 8))
     /\ 0 <= sad <= 64 * (2 ^ 16 - 1)
     /\ sad < 2 ^ 31
     /\ sad_8x8_16 src 128 16 src 0 16 = sad.
Proof.
  intros src. split; [vm_compute; reflexivity|].
  apply (X1_sad_8x8_16_sum src 0 16 src 128 16);
    apply Forall_forall; intros v Hv; subst src;
    apply elem_of_app in Hv; destruct Hv as [Hv|Hv];
    apply elem_of_replicate in Hv; destruct Hv as [-> _]; lia.
Defined.

Lemma int_to_double_not_negative (k : Z) :
  0 <= k -> not_negative (int_to_double k) = true.
Proof.
  intros Hk. unfold int_to_double.
  pose proof (binary_normalize_cases 53 1024 k 0 false) as H.
  cbv zeta in H. replace (k <? 0) with false in H by (symmetry; apply Z.ltb_ge; lia).
  destruct H as [->|[->|[->|(m & e & ->)]]]; reflexivity.
Qed.

Lemma double_mul_not_negative (x : spec_float) (m : positive) (e : Z) :
  not_negative x = true ->
  not_negative (double_mul x (S754_finite false m e)) = true.
Proof.
  destruct x as [[|]|[|]| |[|] mx ex]; intros Hx; try discriminate;
    try reflexivity.
  unfold double_mul, SFmul. cbn [xorb].
  match goal with
  | |- context [binary_round_aux ?p ?em ?sg ?q ?ez ?lz] =>
      destruct (binary_round_aux_cases p em sg q ez lz)
        as [E|[E|(m1 & e1 & E)]]; [lia| | |];
      cbv zeta in E; rewrite E; reflexivity
  end.
Qed.

Lemma double_div_not_negative (x : spec_float) (m : positive) (e : Z) :
  not_negative x = true ->
  not_negative (double_div x (S754_finite false m e)) = true.
Proof.
  destruct x as [[|]|[|]| |[|] mx ex]; intros Hx; try discriminate;
    try reflexivity.
  unfold double_div, SFdiv, SFdiv_core_binary. cbn [xorb].
  set (sh := _ - _ - _).
  set (m' := match sh with Z0 => Zpos mx | Zpos _ => Z.shiftl (Zpos mx) sh
                         | Zneg _ => 0 end).
  assert (Hm' : 0 <= m').
  { subst m'. destruct sh; [lia| |lia]. apply Z.shiftl_nonneg. lia. }
  pose proof (div_eucl_quotient m' (Zpos m)) as Hq.
  destruct (Z.div_eucl m' (Zpos m)) as [q r]. cbn [fst] in Hq.
  assert (0 <= q) by (rewrite Hq; apply Z.div_pos; lia).
  match goal with
  | |- context [binary_round_aux ?p ?em ?sg q ?ez ?lz] =>
      destruct (binary_round_aux_cases p em sg q ez lz)
        as [E|[E|(m1 & e1 & E)]]; [assumption| | |];
      cbv zeta in E; rewrite E; reflexivity
  end.
Qed.

(** The MAFD of a sum that is not negative is not negative: [+0], a
    positive number or [+infinity]. *)
Lemma mafd_of_not_negative (s : Ctx.t) (crnt : Frame.t) (sad : Z) :
  line_162_defined s crnt -> 0 <= sad ->
  not_negative (mafd_of s crnt sad) = true.
Proof.
  intros Hdef Hsad. unfold mafd_of.
  destruct (line_162_divisors s crnt Hdef) as [(m1 & e1 & ->) (m2 & e2 & ->)].
  apply double_div_not_negative, double_div_not_negative.
  rewrite double_100_finite.
  apply double_mul_not_negative, int_to_double_not_negative. exact Hsad.
Qed.

(** A number minus itself is [+0]. *)
Lemma double_sub_diag (x : spec_float) :
  is_finite x = true -> not_negative x = true ->
  double_sub x x = S754_zero false.
Proof.
  destruct x as [[|]|[|]| |[|] m e]; intros Hf Hn; try discriminate;
    try reflexivity.
  unfold double_sub, SFsub. rewrite Z.sub_diag. reflexivity.
Qed.

(** [+0] is below every positive number. *)
Lemma fp_lt_zero_finite (m : positive) (e : Z) :
  fp_lt (S754_zero false) (S754_finite false m e) = true.
Proof.
  unfold fp_lt. rewrite fp_compare_finite by reflexivity.
  assert (E : (SF2Q (S754_zero false) ?= SF2Q (S754_finite false m e))%Q
              = Lt).
  { apply Qlt_alt. cbn [SF2Q cond_Zopp]. apply Qmult_lt_0_compat.
    - change 0%Q with (inject_Z 0). rewrite <- Zlt_Qlt. lia.
    - apply Qpower_0_lt. reflexivity. }
  rewrite E. reflexivity.
Qed.

(** Lines 163 and 164 for a MAFD that is the MAFD before: the score is
    [+0]. *)
Lemma score_of_repeat (mafd : spec_float) :
  is_finite mafd = true -> not_negative mafd = true ->
  float_to_double
    (av_clipf (double_to_float
                 (FFMINd mafd (fabs (double_sub mafd mafd))))
              (int_to_float 0) (double_to_float double_100))
  = S754_zero false.
Proof.
  intros Hf Hn. rewrite double_sub_diag by assumption.
  destruct mafd as [[|]|[|]| |[|] m e]; try discriminate; try reflexivity.
  unfold FFMINd, fabs. cbn [SFabs]. rewrite fp_lt_zero_finite. reflexivity.
Qed.

Lemma scene_sad8_nonneg (s : Ctx.t) p1 ls1 p2 ls2 (width height : Z) :
  (forall q1 o1 st1 q2 o2 st2, 0 <= Ctx.sad s q1 o1 st1 q2 o2 st2) ->
  0 <= scene_sad8 s p1 ls1 p2 ls2 width height.
Proof.
  intros Hsad. unfold scene_sad8.
  apply (for_range_invariant (fun sad => 0 <= sad)); [lia|].
  intros y sad Hy.
  apply (for_range_invariant (fun sad => 0 <= sad)); [exact Hy|].
  intros x sad' Hx. specialize (Hsad p1 (y * ls1 + x) ls1 p2 (y * ls2 + x) ls2).
  lia.
Qed.

Lemma luma_sad_nonneg p1 ls1 p2 ls2 (width height : Z) :
  0 <= luma_sad p1 ls1 p2 ls2 width height.
Proof.
  unfold luma_sad. apply sumZ_nonneg. apply Forall_forall. intros v Hv.
  apply list_elem_of_fmap in Hv. destruct Hv as (y & -> & _).
  apply sumZ_nonneg. apply Forall_forall. intros v Hv.
  apply list_elem_of_fmap in Hv. destruct Hv as (x & -> & _).
  apply pixelutils_sad_8x8_nonneg.
Qed.

Lemma scene_sad8_same (s : Ctx.t) p ls (width height : Z) :
  (forall q o st, Ctx.sad s q o st q o st = 0) ->
  scene_sad8 s p ls p ls width height = 0.
Proof.
  intros Hsad. unfold scene_sad8.
  apply (for_range_invariant (fun sad => sad = 0)); [reflexivity|].
  intros y sad ->.
  apply (for_range_invariant (fun sad => sad = 0)); [reflexivity|].
  intros x sad' ->. rewrite Hsad. reflexivity.
Qed.

Lemma scene_sad16_same (s : Ctx.t) p ls (width height : Z) :
  scene_sad16 s p ls p ls width height = 0.
Proof.
  rewrite scene_sad16_spec. unfold luma_sad.
  apply sumZ_map_zero. intros y. apply sumZ_map_zero. intros x.
  unfold pixelutils_sad_8x8.
  apply sumZ_map_zero. intros r. apply sumZ_map_zero. intros c.
  rewrite Z.sub_diag. reflexivity.
Qed.

(** X2.  Two frames of the same size whose luma planes are the same score 0,
    whatever the MAFD of the pair before, and leave a MAFD of 0 behind, where
    the [int]s of line 162 have a value. *)
Theorem X2_scene_score_same_luma (s : Ctx.t) (crnt next : Frame.t) :
  Frame.height crnt = Frame.height next ->
  Frame.width crnt = Frame.width next ->
  luma crnt = luma next ->
  Frame.stride crnt 0 = Frame.stride next 0 ->
  (Ctx.bitdepth s = 8 -> forall p o st, Ctx.sad s p o st p o st = 0) ->
  line_162_defined s crnt ->
  fst (get_scene_score s crnt next) = S754_zero false
  /\ Ctx.prev_mafd (snd (get_scene_score s crnt next)) = S754_zero false.
Proof.
  intros Hh Hw Hl Hs Hsad Hdef.
  destruct (get_scene_score_same_size s crnt next Hh Hw) as (sad & Esad & ->).
  assert (Hz : sad = 0).
  { rewrite Esad, Hl, Hs. destruct (Ctx.bitdepth s =? 8) eqn:E.
    - apply scene_sad8_same. apply Hsad. lia.
    - apply scene_sad16_same. }
  subst sad. rewrite Hz. cbn [fst snd Ctx.prev_mafd Ctx.set_prev_mafd].
  rewrite (mafd_of_zero s crnt Hdef). split; [apply score_of_zero|reflexivity].
Qed.

(** A frame against itself, after a pair that differed. *)
Lemma X2_scene_score_same_luma_witness :
  let s := Ctx.set_prev_mafd (int_to_double 25)
             (example_context [8; 8; 8; 0]) in
  let f := flat_frame 8 8 64 128 128 0 in
  fst (get_scene_score s f f) = S754_zero false
  /\ Ctx.prev_mafd (snd (get_scene_score s f f)) = S754_zero false.
Proof.
  intros s f. apply (X2_scene_score_same_luma s f f); try reflexivity.
  - intros _ p o st. change (Ctx.sad s) with pixelutils_sad_8x8.
    unfold pixelutils_sad_8x8.
    apply sumZ_map_zero. intros r. apply sumZ_map_zero. intros c.
    rewrite Z.sub_diag. reflexivity.
  - split; [split; apply Z.leb_le; vm_compute; reflexivity|].
    vm_compute. reflexivity.
Defined.

(** X3.  The score does not depend on the order of the two frames. *)
Theorem X3_scene_score_symmetric (s : Ctx.t) (a b : Frame.t) :
  (Ctx.bitdepth s = 8 ->
   forall p1 o1 st1 p2 o2 st2,
     Ctx.sad s p1 o1 st1 p2 o2 st2 = Ctx.sad s p2 o2 st2 p1 o1 st1) ->
  get_scene_score s a b = get_scene_score s b a.
Proof.
  intros Hsym. unfold get_scene_score.
  rewrite (Z.eqb_sym (Frame.height b)), (Z.eqb_sym (Frame.width b)).
  destruct (Frame.height a =? Frame.height b) eqn:Eh; [|reflexivity].
  destruct (Frame.width a =? Frame.width b) eqn:Ew; [|reflexivity].
  apply Z.eqb_eq in Eh, Ew. cbn [andb].
  assert (Hsad :
    (if Ctx.bitdepth s =? 8 then
       scene_sad8 s (luma a) (Frame.stride a 0) (luma b) (Frame.stride b 0)
                  (Frame.width a) (Frame.height a)
     else
       scene_sad16 s (luma a) (Frame.stride a 0 ÷ 2)
                   (luma b) (Frame.stride b 0 ÷ 2)
                   (Frame.width a) (Frame.height a))
    = (if Ctx.bitdepth s =? 8 then
         scene_sad8 s (luma b) (Frame.stride b 0) (luma a) (Frame.stride a 0)
                    (Frame.width b) (Frame.height b)
       else
         scene_sad16 s (luma b) (Frame.stride b 0 ÷ 2)
                     (luma a) (Frame.stride a 0 ÷ 2)
                     (Frame.width b) (Frame.height b))).
  { rewrite <- Eh, <- Ew. destruct (Ctx.bitdepth s =? 8) eqn:E.
    - unfold scene_sad8. apply for_range_ext. intros y sad.
      apply for_range_ext. intros x sad'. f_equal. apply Hsym. lia.
    - rewrite !scene_sad16_spec. unfold luma_sad.
      f_equal. apply map_ext. intros y. f_equal. apply map_ext. intros x.
      unfold pixelutils_sad_8x8.
      f_equal. apply map_ext. intros r. f_equal. apply map_ext. intros c.
      rewrite <- Z.abs_opp. f_equal. lia. }
  rewrite Hsad. unfold mafd_of. rewrite Eh, Ew. reflexivity.
Qed.

Lemma X3_scene_score_symmetric_witness :
  let s := example_context [8; 8; 8; 0] in
  let a := flat_frame 8 8 0 128 128 0 in
  let b := flat_frame 8 8 64 128 128 1 in
  (SF2Q (fst (get_scene_score s a b)) == 25)%Q
  /\ get_scene_score s a b = get_scene_score s b a.
Proof.
  intros s a b. split; [vm_compute; reflexivity|].
  apply (X3_scene_score_symmetric s a b).
  intros _ p1 o1 st1 p2 o2 st2. change (Ctx.sad s) with pixelutils_sad_8x8. unfold pixelutils_sad_8x8.
  f_equal. apply map_ext. intros r. f_equal. apply map_ext. intros c.
  rewrite <- Z.abs_opp. f_equal. lia.
Defined.

(** X4.  For two frames of the same size the MAFD the call stores is not
    negative: [+0], a positive number or [+infinity]; and when it is a number
    and the MAFD of the pair before, the score is 0. *)
Theorem X4_repeated_mafd_scores_zero (s : Ctx.t) (crnt next : Frame.t) :
  Frame.height crnt = Frame.height next ->
  Frame.width crnt = Frame.width next ->
  (Ctx.bitdepth s = 8 ->
   forall p1 o1 st1 p2 o2 st2, 0 <= Ctx.sad s p1 o1 st1 p2 o2 st2) ->
  line_162_defined s crnt ->
  let ret := fst (get_scene_score s crnt next) in
  let s' := snd (get_scene_score s crnt next) in
  not_negative (Ctx.prev_mafd s') = true
  /\ (is_finite (Ctx.prev_mafd s') = true ->
      Ctx.prev_mafd s' = Ctx.prev_mafd s -> ret = S754_zero false).
Proof.
  intros Hh Hw Hsad Hdef.
  destruct (get_scene_score_same_size s crnt next Hh Hw) as (sad & Esad & ->).
  cbn [fst snd Ctx.prev_mafd Ctx.set_prev_mafd].
  assert (Hpos : 0 <= sad).
  { rewrite Esad. destruct (Ctx.bitdepth s =? 8) eqn:E.
    - apply scene_sad8_nonneg. apply Hsad. lia.
    - rewrite scene_sad16_spec. apply luma_sad_nonneg. }
  pose proof (mafd_of_not_negative s crnt sad Hdef Hpos) as Hn.
  split; [exact Hn|]. intros Hf <-. apply score_of_repeat; assumption.
Qed.

Lemma X4_repeated_mafd_scores_zero_witness :
  let s := Ctx.set_prev_mafd (int_to_double 25)
             (example_context [8; 8; 8; 0]) in
  let crnt := flat_frame 8 8 0 128 128 0 in
  let next := flat_frame 8 8 64 128 128 1 in
  let ret := fst (get_scene_score s crnt next) in
  let s' := snd (get_scene_score s crnt next) in
  (Ctx.prev_mafd s' = int_to_double 25 /\ ret = S754_zero false)
  /\ not_negative (Ctx.prev_mafd s') = true
  /\ (is_finite (Ctx.prev_mafd s') = true ->
      Ctx.prev_mafd s' = Ctx.prev_mafd s -> ret = S754_zero false).
Proof.
  intros s crnt next ret s'. split; [split; vm_compute; reflexivity|].
  apply (X4_repeated_mafd_scores_zero s crnt next); try reflexivity.
  - intros _ p1 o1 st1 p2 o2 st2. change (Ctx.sad s) with pixelutils_sad_8x8.
    apply pixelutils_sad_8x8_nonneg.
  - split; [split; apply Z.leb_le; vm_compute; reflexivity|].
    vm_compute. reflexivity.
Defined.

Lemma pixelutils_sad_8x8_bound (bits : Z) src1 o1 stride1 src2 o2 stride2 :
  0 <= bits -> samples_fit bits src1 -> samples_fit bits src2 ->
  pixelutils_sad_8x8 src1 o1 stride1 src2 o2 stride2 <= 64 * (2 ^ bits - 1).
Proof.
  intros Hb H1 H2. unfold pixelutils_sad_8x8.
  pose proof (sumZ_map_bound (8 * (2 ^ bits - 1))
    (fun y => sumZ (map (fun x =>
                          Z.abs (load src1 (o1 + y * stride1 + x)
                                 - load src2 (o2 + y * stride2 + x)))
                       (seqZ 0 8))) (seqZ 0 8)) as Hs.
  cbv beta in Hs. rewrite length_seqZ_8 in Hs.
  assert (Hrow : forall y,
    0 <= sumZ (map (fun x =>
                          Z.abs (load src1 (o1 + y * stride1 + x)
                                 - load src2 (o2 + y * stride2 + x)))
                       (seqZ 0 8)) <= 8 * (2 ^ bits - 1)).
  { intros y.
    pose proof (sumZ_map_bound (2 ^ bits - 1)
      (fun x => Z.abs (load src1 (o1 + y * stride1 + x)
                       - load src2 (o2 + y * stride2 + x))) (seqZ 0 8)) as Hr.
    cbv beta in Hr. rewrite length_seqZ_8 in Hr.
    assert (Hpx : forall x,
      0 <= Z.abs (load src1 (o1 + y * stride1 + x)
                  - load src2 (o2 + y * stride2 + x)) <= 2 ^ bits - 1).
    { intros x.
      pose proof (load_fits bits src1 (o1 + y * stride1 + x) Hb H1).
      pose proof (load_fits bits src2 (o2 + y * stride2 + x) Hb H2).
      lia. }
    specialize (Hr Hpx). lia. }
  specialize (Hs Hrow). lia.
Qed.

Lemma length_seqZ_0 (n : Z) : length (seqZ 0 n) = Z.to_nat n.
Proof. apply length_seqZ. Qed.

(** The sum over the whole blocks is at most the largest difference of two
    samples times the divisor of line 162. *)
Lemma luma_sad_bound (bits : Z) p1 ls1 p2 ls2 (width height : Z) :
  0 <= bits -> samples_fit bits p1 -> samples_fit bits p2 ->
  luma_sad p1 ls1 p2 ls2 width height
  <= FFMAX 1 (Z.land height (Z.lnot 7) * Z.land width (Z.lnot 7))
     * (2 ^ bits - 1).
Proof.
  intros Hb H1 H2. rewrite !land_lnot_7.
  assert (Hp : 1 <= 2 ^ bits) by (pose proof (Z.pow_pos_nonneg 2 bits); lia).
  pose proof (FFMAX_1_pos (8 * (height / 8) * (8 * (width / 8)))) as HF.
  unfold luma_sad.
  pose proof (sumZ_map_bound (Z.of_nat (Z.to_nat (width / 8)) * (64 * (2 ^ bits - 1)))
    (fun by_ => sumZ (map (fun bx =>
                            pixelutils_sad_8x8
                              p1 (8 * by_ * ls1 + 8 * bx) ls1
                              p2 (8 * by_ * ls2 + 8 * bx) ls2)
                         (seqZ 0 (width / 8)))) (seqZ 0 (height / 8))) as Hs.
  cbv beta in Hs. rewrite length_seqZ_0 in Hs.
  assert (Hrow : forall by_,
    0 <= sumZ (map (fun bx =>
                            pixelutils_sad_8x8
                              p1 (8 * by_ * ls1 + 8 * bx) ls1
                              p2 (8 * by_ * ls2 + 8 * bx) ls2)
                         (seqZ 0 (width / 8)))
    <= Z.of_nat (Z.to_nat (width / 8)) * (64 * (2 ^ bits - 1))).
  { intros by_.
    pose proof (sumZ_map_bound (64 * (2 ^ bits - 1))
      (fun bx => pixelutils_sad_8x8 p1 (8 * by_ * ls1 + 8 * bx) ls1
                                    p2 (8 * by_ * ls2 + 8 * bx) ls2)
      (seqZ 0 (width / 8))) as Hr.
    cbv beta in Hr. rewrite length_seqZ_0 in Hr. apply Hr. intros bx. split.
    - apply pixelutils_sad_8x8_nonneg.
    - apply pixelutils_sad_8x8_bound; assumption. }
  specialize (Hs Hrow).
  set (S := sumZ _) in *. clearbody S.
  set (F := FFMAX 1 _) in *.
  assert (HFge : 8 * (height / 8) * (8 * (width / 8)) <= F).
  { subst F. unfold FFMAX.
    destruct (8 * (height / 8) * (8 * (width / 8)) <? 1) eqn:E; lia. }
  clearbody F.
  set (h8 := height / 8) in *. set (w8 := width / 8) in *.
  clearbody h8 w8.
  destruct (Z_le_gt_dec h8 0) as [Hh|Hh].
  { rewrite (Z2Nat.nonpos h8 Hh) in Hs. nia. }
  destruct (Z_le_gt_dec w8 0) as [Hw|Hw].
  { rewrite (Z2Nat.nonpos w8 Hw) in Hs. nia. }
  rewrite !Z2Nat.id in Hs by lia.
  apply Z.le_trans with (h8 * (w8 * (64 * (2 ^ bits - 1)))); [lia|].
  apply Z.le_trans with (8 * h8 * (8 * w8) * (2 ^ bits - 1)); [lia|].
  apply Z.mul_le_mono_nonneg_r; lia.
Qed.

(** X5.  When the luma samples of the two frames fit the bit depth, the sum
    of absolute differences that line 162 turns into the MAFD lies between 0
    and the divisor of that line times the largest sample, so that in exact
    arithmetic the quotient is below 100; the sum fits the [int64_t] that
    holds it when the [int]s of the line have a value. *)
Theorem X5_scene_sad_bound (s : Ctx.t) (crnt next : Frame.t) :
  Frame.height crnt = Frame.height next ->
  Frame.width crnt = Frame.width next ->
  (Ctx.bitdepth s = 8 -> Ctx.sad s = pixelutils_sad_8x8) ->
  0 <= Ctx.bitdepth s ->
  samples_fit (Ctx.bitdepth s) (luma crnt) ->
  samples_fit (Ctx.bitdepth s) (luma next) ->
  let count := FFMAX 1 (Z.land (Frame.height crnt) (Z.lnot 7)
                        * Z.land (Frame.width crnt) (Z.lnot 7)) in
  exists sad,
    sad = luma_sad (luma crnt) (luma_stride s crnt)
                   (luma next) (luma_stride s next)
                   (Frame.width crnt) (Frame.height crnt)
    /\ Ctx.prev_mafd (snd (get_scene_score s crnt next)) = mafd_of s crnt sad
    /\ 0 <= sad <= count * (2 ^ Ctx.bitdepth s - 1)
    /\ sad * 100 < 100 * (count * 2 ^ Ctx.bitdepth s)
    /\ (line_162_defined s crnt -> sad < 2 ^ 63).
Proof.
  intros Hh Hw Hsad Hb H1 H2 count.
  destruct (get_scene_score_same_size s crnt next Hh Hw) as (sad & Esad & ->).
  cbn [fst snd Ctx.prev_mafd Ctx.set_prev_mafd].
  rewrite (scene_sad_spec s crnt next Hsad) in Esad.
  exists sad. split; [exact Esad|]. split; [reflexivity|].
  assert (Hpos : 0 <= sad) by (rewrite Esad; apply luma_sad_nonneg).
  assert (Hle : sad <= count * (2 ^ Ctx.bitdepth s - 1)).
  { rewrite Esad. apply luma_sad_bound; assumption. }
  assert (Hc : 1 <= count) by apply FFMAX_1_pos.
  assert (Hp : 1 <= 2 ^ Ctx.bitdepth s)
    by (pose proof (Z.pow_pos_nonneg 2 (Ctx.bitdepth s)); lia).
  split; [lia|]. split; [nia|].
  intros [[_ Hd] Hcount].
  assert (Hp30 : 2 ^ Ctx.bitdepth s <= 2 ^ 30)
    by (apply Z.pow_le_mono_r; lia).
  change (2 ^ 31) with 2147483648 in Hcount.
  change (2 ^ 30) with 1073741824 in Hp30.
  change (2 ^ 63) with 9223372036854775808.
  assert (Hc31 : count <= 2147483648).
  { subst count. unfold FFMAX. destruct (_ <? 1); lia. }
  nia.
Qed.

Lemma X5_scene_sad_bound_witness :
  let s := example_context [8; 8; 8; 0] in
  let crnt := flat_frame 8 8 0 128 128 0 in
  let next := flat_frame 8 8 64 128 128 1 in
  let count := FFMAX 1 (Z.land (Frame.height crnt) (Z.lnot 7)
                        * Z.land (Frame.width crnt) (Z.lnot 7)) in
  exists sad,
    sad = luma_sad (luma crnt) (luma_stride s crnt)
                   (luma next) (luma_stride s next)
                   (Frame.width crnt) (Frame.height crnt)
    /\ Ctx.prev_mafd (snd (get_scene_score s crnt next)) = mafd_of s crnt sad
    /\ 0 <= sad <= count * (2 ^ Ctx.bitdepth s - 1)
    /\ sad * 100 < 100 * (count * 2 ^ Ctx.bitdepth s)
    /\ (line_162_defined s crnt -> sad < 2 ^ 63).
Proof.
  intros s crnt next.
  apply (X5_scene_sad_bound s crnt next); try reflexivity.
  - apply Z.leb_le. vm_compute. reflexivity.
  - apply Forall_forall. intros v Hv. apply elem_of_replicate in Hv.
    destruct Hv as [-> _].
    split; [apply Z.leb_le|apply Z.ltb_lt]; vm_compute; reflexivity.
  - apply Forall_forall. intros v Hv. apply elem_of_replicate in Hv.
    destruct Hv as [-> _].
    split; [apply Z.leb_le|apply Z.ltb_lt]; vm_compute; reflexivity.
Defined.

(** ** More on the blend engine *)

(** X6.  When the two weights add up to the maximum, the expression of the
    chroma branch is the one of the luma branch: taking the mid-point off
    the two samples and adding the bias [(max + 1) * half] (32896 for
    8 bits) comes to adding [half] (128), in both slice functions. *)
Theorem X6_chroma_weighting_is_luma (max_value shift w1 w2 a b : Z) :
  w1 + w2 = max_value ->
  (max_value = 256 -> chroma8 w1 w2 a b = luma8 w1 w2 a b)
  /\ chroma16 (max_value ÷ 2) ((max_value + 1) * (max_value ÷ 2)) shift
              w1 w2 a b
     = luma16 (max_value ÷ 2) shift w1 w2 a b.
Proof.
  intros Hw. split.
  - intros Hmax. unfold chroma8, luma8. do 2 f_equal. nia.
  - unfold chroma16, luma16. do 2 f_equal. nia.
Qed.

Lemma X6_chroma_weighting_is_luma_witness :
  (chroma8 100 156 17 230 = 147 /\ chroma16 512 524800 10 300 724 17 900 = 641)
  /\ (256 = 256 -> chroma8 100 156 17 230 = luma8 100 156 17 230)
  /\ chroma16 (1024 ÷ 2) ((1024 + 1) * (1024 ÷ 2)) 10 300 724 17 900
     = luma16 (1024 ÷ 2) 10 300 724 17 900.
Proof.
  split; [split; vm_compute; reflexivity|].
  split.
  - exact (proj1 (X6_chroma_weighting_is_luma 256 8 100 156 17 230 eq_refl)).
  - exact (proj2 (X6_chroma_weighting_is_luma 1024 10 300 724 17 900 eq_refl)).
Defined.





(** The plane loop stops at the first plane one of the sources lacks: its
    body runs on the planes before that one only. *)
Lemma planes_loop_until (P : Ctx.t -> Prop) td body (p : Z) (fuel : nat) :
  Frame.plane (ThreadData.copy_src1 td) (Z.to_nat p) = None
  \/ Frame.plane (ThreadData.copy_src2 td) (Z.to_nat p) = None ->
  (forall q e1 e2 a, 0 <= q < p -> P a -> P (body q e1 e2 a)) ->
  forall (q0 : Z) (a : Ctx.t),
    0 <= q0 <= p -> P a -> P (planes_loop fuel q0 td body a).
Proof.
  intros Hnone Hbody.
  induction fuel as [|fuel IH]; intros q0 a Hq Ha; cbn; [exact Ha|].
  destruct (q0 <? 4); [|exact Ha].
  destruct (Frame.plane (ThreadData.copy_src1 td) (Z.to_nat q0)) as [e1|] eqn:E1;
    [|exact Ha].
  destruct (Frame.plane (ThreadData.copy_src2 td) (Z.to_nat q0)) as [e2|] eqn:E2;
    [|exact Ha].
  assert (Hne : q0 <> p).
  { intros ->. destruct Hnone as [H|H]; congruence. }
  apply IH; [lia|]. apply Hbody; [lia|exact Ha].
Qed.

Lemma slice_plane_keeps_plane sample lpx cpx td job nb_jobs (q : Z)
    (e1 e2 : list Z) (a : Ctx.t) (w : Frame.t) (p : nat) :
  0 <= q -> Z.to_nat q <> p ->
  Ctx.work a = Some w ->
  exists w',
    Ctx.work (slice_plane sample lpx cpx td job nb_jobs q e1 e2 a) = Some w'
    /\ Frame.plane w' p = Frame.plane w p.
Proof.
  intros Hq Hne Hw. unfold slice_plane. rewrite Hw.
  destruct (Frame.plane w (Z.to_nat q)) as [dst|] eqn:Ed;
    [|exists w; split; [exact Hw|reflexivity]].
  destruct (_ || _);
    destruct (blend_lines _ _ _ _ _ _ _ _ _ _) as [[[dst' ?] ?] ?];
    (eexists; split; [reflexivity|apply plane_set_plane_ne; exact Hne]).
Qed.

(** X8.  The slice functions stop at the first plane that one of the two
    sources lacks: that plane of the work frame and all planes after it are
    left as the buffer came. *)
Theorem X8_blend_stops_at_missing_plane {graph : FilterGraph} (s : Ctx.t)
    (a b buf : Frame.t) (p : nat) (weight1 weight2 : Z) :
  ff_get_video_buffer outlink_w outlink_h = Some buf ->
  Frame.plane a p = None \/ Frame.plane b p = None ->
  exists wk,
    blend s a b weight1 weight2 = Some wk
    /\ forall q, (p <= q)%nat -> Frame.plane wk q = Frame.plane buf q.
Proof.
  intros Hbuf Hnone. unfold blend. rewrite Hbuf.
  set (td := ThreadData.mk a b weight1 weight2).
  set (P := fun c : Ctx.t =>
              exists w, Ctx.work c = Some w
                        /\ forall q, (p <= q)%nat ->
                                     Frame.plane w q = Frame.plane buf q).
  assert (Hnone' :
    Frame.plane (ThreadData.copy_src1 td) (Z.to_nat (Z.of_nat p)) = None
    \/ Frame.plane (ThreadData.copy_src2 td) (Z.to_nat (Z.of_nat p)) = None).
  { rewrite Nat2Z.id. exact Hnone. }
  assert (Hslice : forall sample lpx cpx job nb_jobs c,
    P c ->
    P (planes_loop 4 0 td (slice_plane sample lpx cpx td job nb_jobs) c)).
  { intros sample lpx cpx job nb_jobs c Hc.
    apply (planes_loop_until P td _ (Z.of_nat p) 4 Hnone'); [|lia|exact Hc].
    intros q e1 e2 c' Hq (w & Hw & Hkeep). unfold P.
    destruct (slice_plane_keeps_plane sample lpx cpx td job nb_jobs q e1 e2
                c' w) with (p := p) as (w' & Hw' & _); [lia|lia|exact Hw|].
    exists w'. split; [exact Hw'|]. intros q' Hq'.
    destruct (slice_plane_keeps_plane sample lpx cpx td job nb_jobs q e1 e2
                c' w q') as (w'' & Hw'' & Hp''); [lia|lia|exact Hw|].
    rewrite Hw' in Hw''. injection Hw'' as <-. rewrite Hp''.
    apply Hkeep. exact Hq'. }
  assert (Hend : P (execute
                      (if Ctx.bitdepth s =? 8 then filter_slice8
                       else filter_slice16)
                      td (FFMIN outlink_h ff_filter_get_nb_threads)
                      (Ctx.set_work (Some (Frame.copy_props buf a)) s))).
  { unfold execute. apply run_jobs_invariant.
    - exists (Frame.copy_props buf a). split; [reflexivity|]. reflexivity.
    - intros c job Hc. destruct (Ctx.bitdepth s =? 8).
      + apply Hslice. exact Hc.
      + apply Hslice. exact Hc. }
  destruct Hend as (w & Hw & Hkeep). exists w. split; assumption.
Qed.

(** Two sources without a third plane: the third plane of the buffer stays
    as it came, the first is blended. *)
Lemma X8_blend_stops_at_missing_plane_witness :
  let g := plain_graph 1 1 1 7 in
  let s := example_context [1; 1; 1; 0] in
  let a := Frame.mk [Some [10]; Some [20]; None; None] [1; 1; 1; 0] 1 1 0 false in
  let b := flat_frame 1 1 200 210 220 1 in
  option_map Frame.data (@blend g s a b 128 128)
  = Some [Some [105]; Some [115]; Some [7]; None]
  /\ exists wk,
       @blend g s a b 128 128 = Some wk
       /\ forall q, (2 <= q)%nat ->
                    Frame.plane wk q = Frame.plane (flat_frame 1 1 7 7 7 0) q.
Proof.
  intros g s a b. split; [vm_compute; reflexivity|].
  apply (@X8_blend_stops_at_missing_plane g s a b (flat_frame 1 1 7 7 7 0) 2
           128 128).
  - reflexivity.
  - left. reflexivity.
Defined.

(** A number between 0 and 100 is not below 0. *)
Lemma fp_le_zero (x : spec_float) :
  is_finite x = true -> (0 <= SF2Q x)%Q -> fp_le double_zero x = true.
Proof.
  intros Hf Hx. unfold fp_le.
  rewrite (fp_compare_finite double_zero x eq_refl Hf).
  change (SF2Q double_zero) with 0%Q.
  destruct (0 ?= SF2Q x)%Q eqn:E; try reflexivity.
  exfalso. apply Qgt_alt in E. exact (Qlt_not_le _ _ E Hx).
Qed.

(** The score of lines 163 and 164 is not below 0, or it is not a number,
    as the MAFD then. *)
Lemma score_cases (mafd prev : spec_float) :
  let ret :=
    float_to_double
      (av_clipf (double_to_float
                   (FFMINd mafd (fabs (double_sub mafd prev))))
                (int_to_float 0) (double_to_float double_100)) in
  fp_le double_zero ret = true \/ (ret = S754_nan /\ mafd = S754_nan).
Proof.
  intros ret. destruct (score_range mafd prev) as [Hnan Hrange].
  fold ret in Hnan, Hrange.
  destruct (is_nan mafd) eqn:E.
  - right. split; [destruct ret|destruct mafd]; try discriminate; reflexivity.
  - left. destruct (Hrange eq_refl) as [Hf [H0 _]]. apply fp_le_zero; assumption.
Qed.

(** The score the window holds after [window_score] is the one it answers;
    it is not negative, and will not be computed again, when the [int]s of
    line 162 have a value. *)
Lemma window_score_cached (s : Ctx.t) (fr0 fr1 : Frame.t) :
  Ctx.score (snd (window_score s fr0 fr1)) = fst (window_score s fr0 fr1)
  /\ (line_162_defined s fr0 ->
      fp_le double_zero (fst (window_score s fr0 fr1)) = true).
Proof.
  unfold window_score. destruct (fp_le double_zero (Ctx.score s)) eqn:E.
  - split; [reflexivity|intros _; exact E].
  - pose proof (get_scene_score_range s fr0 fr1) as H.
    destruct (get_scene_score s fr0 fr1) as [r s1]. split; [reflexivity|].
    intros Hdef. destruct (H Hdef) as [Hf [H0 _]]. cbn [fst] in *.
    apply fp_le_zero; assumption.
Qed.

(** Asked twice for the same window, [window_score] answers the same and
    leaves the context of the first answer: a score that is a number is
    taken from the context; one that is not comes from a MAFD that is not,
    which the detector computes and stores again. *)
Lemma window_score_again (s : Ctx.t) (fr0 fr1 : Frame.t) :
  window_score (snd (window_score s fr0 fr1)) fr0 fr1
  = window_score s fr0 fr1.
Proof.
  unfold window_score at 2 3.
  destruct (fp_le double_zero (Ctx.score s)) eqn:E.
  { cbn [snd]. unfold window_score. rewrite E. reflexivity. }
  unfold get_scene_score.
  destruct ((Frame.height fr0 =? Frame.height fr1)
            && (Frame.width fr0 =? Frame.width fr1)) eqn:Esize.
  - cbv zeta. cbn [snd].
    match goal with
    | |- context [mafd_of s fr0 ?sad0] => set (sad := sad0)
    end.
    destruct (score_cases (mafd_of s fr0 sad) (Ctx.prev_mafd s))
      as [Hok|[Hret Hmafd]]; cbv zeta in *.
    + unfold window_score. cbn [Ctx.score Ctx.set_score]. rewrite Hok.
      reflexivity.
    + rewrite Hret, Hmafd. unfold window_score, get_scene_score.
      cbn [Ctx.score Ctx.set_score Ctx.set_prev_mafd Ctx.prev_mafd
           Ctx.bitdepth]. rewrite Esize.
      change (fp_le double_zero S754_nan) with false. cbv iota zeta.
      assert (Hsad :
        (if Ctx.bitdepth s =? 8
         then scene_sad8 (Ctx.set_score S754_nan
                            (Ctx.set_prev_mafd S754_nan s))
                (luma fr0) (Frame.stride fr0 0) (luma fr1)
                (Frame.stride fr1 0) (Frame.width fr0) (Frame.height fr0)
         else scene_sad16 (Ctx.set_score S754_nan
                             (Ctx.set_prev_mafd S754_nan s))
                (luma fr0) (Frame.stride fr0 0 ÷ 2) (luma fr1)
                (Frame.stride fr1 0 ÷ 2) (Frame.width fr0)
                (Frame.height fr0)) = sad) by reflexivity.
      rewrite Hsad.
      change (mafd_of (Ctx.set_score S754_nan (Ctx.set_prev_mafd S754_nan s))
                fr0 sad) with (mafd_of s fr0 sad).
      rewrite Hmafd.
      change (FFMINd S754_nan (fabs (double_sub S754_nan S754_nan)))
        with S754_nan.
      reflexivity.
  - cbn [snd]. unfold window_score. cbn [Ctx.score Ctx.set_score].
    reflexivity.
Qed.

(** [window_score] does not read the work frame. *)
Lemma window_score_but_work (a b : Ctx.t) (fr0 fr1 : Frame.t) :
  but_work a = but_work b ->
  fst (window_score a fr0 fr1) = fst (window_score b fr0 fr1)
  /\ but_work (snd (window_score a fr0 fr1))
     = but_work (snd (window_score b fr0 fr1)).
Proof.
  intros H. destruct a, b. unfold but_work in H. cbn in H.
  injection H as -> -> -> -> -> -> -> -> -> -> -> -> -> -> -> -> -> -> -> ->
    -> -> -> ->.
  unfold window_score. cbn [Ctx.score].
  destruct (fp_le double_zero _); [split; reflexivity|].
  unfold get_scene_score. cbn [Ctx.bitdepth Ctx.prev_mafd].
  destruct (_ && _); split; reflexivity.
Qed.

(** blend_frames in two steps: the score of the window, then the blend
    when the score is below the threshold. *)
Lemma blend_frames_gate {graph : FilterGraph} (s : Ctx.t) (fr0 fr1 : Frame.t)
    (interpolate : Z) :
  Ctx.f0 s = Some fr0 -> Ctx.f1 s = Some fr1 ->
  let g := if scd_enabled s then window_score s fr0 fr1 else (double_zero, s) in
  let r := blend_frames s interpolate in
  but_work (snd r) = but_work (snd g)
  /\ (fst r = 0 <-> fp_lt (fst g) (Ctx.scene_score s) = false).
Proof.
  intros H0 H1 g r. subst r. unfold blend_frames. rewrite H0, H1.
  change (if negb (Z.land (Ctx.flags s) FRAMERATE_FLAG_SCD =? 0)
          then if fp_le double_zero (Ctx.score s) then (Ctx.score s, s)
               else let '(r, s0) := get_scene_score s fr0 fr1 in
                    (r, Ctx.set_score r s0)
          else (double_zero, s)) with g.
  assert (Hthr : Ctx.scene_score (snd g) = Ctx.scene_score s).
  { subst g. destruct (scd_enabled s); [|reflexivity].
    pose proof (window_score_but_frame_state s fr0 fr1) as H.
    apply (f_equal Ctx.scene_score) in H. exact H. }
  destruct g as [sc s1]. cbn [fst snd] in *. rewrite Hthr.
  destruct (fp_lt sc (Ctx.scene_score s)).
  - destruct (ff_get_video_buffer outlink_w outlink_h) as [buf|].
    + match goal with
      | |- context [execute ?f ?td ?nb ?a] =>
          destruct (execute_but_work f td nb a) as [E1 _]
      end.
      { intros a job. destruct (Ctx.bitdepth _ =? 8).
        - apply filter_slice8_but_work.
        - apply filter_slice16_but_work. }
      cbn [fst snd]. split; [exact E1|]. split; discriminate.
    + cbn [fst snd]. split; [reflexivity|]. split; discriminate.
  - cbn [fst snd]. split; [reflexivity|]. split; reflexivity.
Qed.

(** X9.  A second call of blend_frames for the same window leaves the state
    of the scene detector and the score as the first call left them, and takes
    the same decision.  A score blend_frames has computed is kept in the
    context; it is a number not below 0, and so not computed again, when the
    [int]s of line 162 have a value (a score that is not a number is computed
    again, to the same end). *)
Theorem X9_blend_frames_caches_score {graph : FilterGraph} (s : Ctx.t)
    (interpolate1 interpolate2 : Z) :
  let '(ret1, s1) := blend_frames s interpolate1 in
  let '(ret2, s2) := blend_frames s1 interpolate2 in
  Ctx.prev_mafd s2 = Ctx.prev_mafd s1
  /\ Ctx.score s2 = Ctx.score s1
  /\ (ret1 = 0 <-> ret2 = 0)
  /\ (scd_enabled s = true -> is_set (Ctx.f1 s) = true ->
      forall fr0, Ctx.f0 s = Some fr0 -> line_162_defined s fr0 ->
      fp_le double_zero (Ctx.score s1) = true).
Proof.
  destruct (Ctx.f0 s) as [fr0|] eqn:H0; cycle 1.
  { unfold blend_frames. rewrite H0. unfold blend_frames. rewrite H0.
    repeat split; intros; discriminate. }
  destruct (Ctx.f1 s) as [fr1|] eqn:H1; cycle 1.
  { unfold blend_frames. rewrite H0, H1. unfold blend_frames. rewrite H0, H1.
    repeat split; intros; discriminate. }
  pose proof (blend_frames_gate s fr0 fr1 interpolate1 H0 H1) as G1.
  cbv zeta in G1.
  destruct (blend_frames s interpolate1) as [ret1 s1]. cbn [fst snd] in G1.
  destruct G1 as [E1 D1].
  assert (F0 : Ctx.f0 s1 = Some fr0).
  { apply (f_equal Ctx.f0) in E1. cbn in E1. rewrite E1.
    destruct (scd_enabled s); [|exact H0].
    pose proof (window_score_but_frame_state s fr0 fr1) as H.
    apply (f_equal Ctx.f0) in H. cbn in H. congruence. }
  assert (F1 : Ctx.f1 s1 = Some fr1).
  { apply (f_equal Ctx.f1) in E1. cbn in E1. rewrite E1.
    destruct (scd_enabled s); [|exact H1].
    pose proof (window_score_but_frame_state s fr0 fr1) as H.
    apply (f_equal Ctx.f1) in H. cbn in H. congruence. }
  assert (Fflags : scd_enabled s1 = scd_enabled s).
  { unfold scd_enabled. apply (f_equal Ctx.flags) in E1. cbn in E1.
    rewrite E1. destruct (scd_enabled s); [|reflexivity].
    pose proof (window_score_but_frame_state s fr0 fr1) as H.
    apply (f_equal Ctx.flags) in H. cbn in H. rewrite H. reflexivity. }
  assert (Fthr : Ctx.scene_score s1 = Ctx.scene_score s).
  { apply (f_equal Ctx.scene_score) in E1. cbn in E1. rewrite E1.
    destruct (scd_enabled s); [|reflexivity].
    pose proof (window_score_but_frame_state s fr0 fr1) as H.
    apply (f_equal Ctx.scene_score) in H. exact H. }
  pose proof (window_score_cached s fr0 fr1) as [C1 C2].
  pose proof (blend_frames_gate s1 fr0 fr1 interpolate2 F0 F1) as G2.
  cbv zeta in G2.
  destruct (blend_frames s1 interpolate2) as [ret2 s2]. cbn [fst snd] in G2.
  destruct G2 as [E2 D2]. rewrite Fflags, Fthr in *.
  destruct (scd_enabled s) eqn:Escd.
  - destruct (window_score_but_work s1 (snd (window_score s fr0 fr1)) fr0 fr1
                E1) as [Wfst Wsnd].
    rewrite window_score_again in Wfst, Wsnd.
    assert (E21 : but_work s2 = but_work s1) by congruence.
    split; [apply (f_equal Ctx.prev_mafd) in E21; exact E21|].
    split; [apply (f_equal Ctx.score) in E21; exact E21|].
    split; [rewrite D1, D2, Wfst; reflexivity|].
    intros _ _ fr Hfr Hdef. injection Hfr as <-.
    apply (f_equal Ctx.score) in E1. cbn in E1. rewrite E1, C1.
    apply C2. exact Hdef.
  - cbn [fst snd] in *.
    split; [apply (f_equal Ctx.prev_mafd) in E2; exact E2|].
    split; [apply (f_equal Ctx.score) in E2; exact E2|].
    split; [|intros; discriminate].
    rewrite D1, D2. reflexivity.
Qed.

(** ** The slices of the jobs *)

Lemma for_range_nil {A : Type} (body : Z -> A -> A) (lo hi : Z) (acc : A) :
  hi <= lo -> for_range lo 1 hi body acc = acc.
Proof.
  intros H. unfold for_range. replace (Z.to_nat (hi - lo)) with O by lia.
  reflexivity.
Qed.

Lemma for_range_first {A : Type} (body : Z -> A -> A) (lo hi : Z) (acc : A) :
  lo < hi ->
  for_range lo 1 hi body acc = for_range (lo + 1) 1 hi body (body lo acc).
Proof.
  intros H. unfold for_range.
  replace (Z.to_nat (hi - lo)) with (S (Z.to_nat (hi - (lo + 1)))) by lia.
  cbn [for_lt]. apply Z.ltb_lt in H. rewrite H. reflexivity.
Qed.

Lemma for_range_split {A : Type} (body : Z -> A -> A) (lo mid hi : Z)
    (acc : A) :
  lo <= mid <= hi ->
  for_range lo 1 hi body acc
  = for_range mid 1 hi body (for_range lo 1 mid body acc).
Proof.
  intros H. remember (Z.to_nat (mid - lo)) as k eqn:Hk.
  revert lo acc H Hk. induction k as [|k IH]; intros lo acc H Hk.
  - assert (lo = mid) by lia. subst lo.
    rewrite (for_range_nil body mid mid) by lia. reflexivity.
  - rewrite (for_range_first body lo hi) by lia.
    rewrite (for_range_first body lo mid) by lia.
    apply IH; lia.
Qed.

(** The state of the line loop after the lines [lo] to [hi]. *)
Lemma blend_lines_state (px : Z -> Z -> Z) (lo hi width : Z)
    (src1 : list Z) (ls1 : Z) (src2 : list Z) (ls2 : Z) (lsd : Z)
    (dst : list Z) :
  lo <= hi ->
  blend_lines px lo hi width src1 ls1 src2 ls2 lsd
              (dst, lo * ls1, lo * ls2, lo * lsd)
  = (blend_rows px lo hi width src1 ls1 src2 ls2 lsd dst,
     hi * ls1, hi * ls2, hi * lsd).
Proof.
  intros Hle. unfold blend_rows, blend_lines.
  match goal with
  | |- context [for_range lo 1 hi ?body ?acc] =>
      pose proof (for_range_count body lo 1 hi
                    (fun k st =>
                       let row := lo + Z.of_nat k in
                       snd st = row * lsd
                       /\ snd (fst st) = row * ls2
                       /\ snd (fst (fst st)) = row * ls1)
                    acc ltac:(lia)) as H;
      set (r := for_range lo 1 hi body acc) in *
  end.
  assert (Hk : lo + Z.of_nat (trip_count lo 1 hi) = hi).
  { unfold trip_count. replace (hi - lo + 1 - 1) with (hi - lo) by lia.
    rewrite Z.div_1_r. lia. }
  cbv beta zeta in H. rewrite Hk in H.
  destruct H as (H1 & H2 & H3).
  - cbn. split; [lia|]. split; lia.
  - intros k [[[d o1] o2] od] _ (Hod & Ho2 & Ho1). cbn [fst snd] in *.
    subst. split; [lia|]. split; lia.
  - destruct r as [[[d o1] o2] od]. cbn [fst snd] in *. subst. reflexivity.
Qed.

Lemma blend_rows_split (px : Z -> Z -> Z) (lo mid hi width : Z)
    (src1 : list Z) (ls1 : Z) (src2 : list Z) (ls2 : Z) (lsd : Z)
    (dst : list Z) :
  lo <= mid <= hi ->
  blend_rows px lo hi width src1 ls1 src2 ls2 lsd dst
  = blend_rows px mid hi width src1 ls1 src2 ls2 lsd
      (blend_rows px lo mid width src1 ls1 src2 ls2 lsd dst).
Proof.
  intros H. unfold blend_rows at 1 2. unfold blend_lines.
  rewrite (for_range_split _ lo mid hi) by exact H.
  fold (blend_lines px lo mid width src1 ls1 src2 ls2 lsd
          (dst, lo * ls1, lo * ls2, lo * lsd)).
  rewrite blend_lines_state by lia. reflexivity.
Qed.

Lemma blend_rows_none (px : Z -> Z -> Z) (lo width : Z)
    (src1 : list Z) (ls1 : Z) (src2 : list Z) (ls2 : Z) (lsd : Z)
    (dst : list Z) :
  blend_rows px lo lo width src1 ls1 src2 ls2 lsd dst = dst.
Proof.
  unfold blend_rows, blend_lines. rewrite for_range_nil by lia. reflexivity.
Qed.

Lemma set_plane_commute (p q : nat) (x y : list Z) (w : Frame.t) :
  p <> q ->
  Frame.set_plane p x (Frame.set_plane q y w)
  = Frame.set_plane q y (Frame.set_plane p x w).
Proof.
  intros Hne. unfold Frame.set_plane. cbn. f_equal.
  apply list_insert_insert_ne. exact Hne.
Qed.

Lemma set_plane_twice (p : nat) (x y : list Z) (w : Frame.t) :
  Frame.set_plane p x (Frame.set_plane p y w) = Frame.set_plane p x w.
Proof.
  unfold Frame.set_plane. cbn. f_equal. apply list_insert_insert_eq.
Qed.

Lemma set_plane_same (p : nat) (x : list Z) (w : Frame.t) :
  Frame.plane w p = Some x -> Frame.set_plane p x w = w.
Proof.
  intros H. unfold Frame.set_plane, Frame.plane in *. destruct w as [data ? ? ? ? ?].
  cbn in *. f_equal. apply list_insert_id.
  destruct (data !! p) as [o|]; cbn in H; [|discriminate]. congruence.
Qed.

Lemma set_work_same (w : Frame.t) (s : Ctx.t) :
  Ctx.work s = Some w -> Ctx.set_work (Some w) s = s.
Proof. intros H. destruct s. cbn in *. subst. reflexivity. Qed.

Lemma plane_height_set_work v (a : Ctx.t) (f : Frame.t) (p : Z) :
  plane_height (Ctx.set_work v a) f p = plane_height a f p.
Proof. reflexivity. Qed.

Lemma stride_set_plane (q p : nat) (x : list Z) (w : Frame.t) :
  Frame.stride (Frame.set_plane q x w) p = Frame.stride w p.
Proof. reflexivity. Qed.

Lemma line_size_set_work v (a : Ctx.t) :
  Ctx.line_size (Ctx.set_work v a) = Ctx.line_size a.
Proof. reflexivity. Qed.

Lemma set_work_set_work v v' (a : Ctx.t) :
  Ctx.set_work v (Ctx.set_work v' a) = Ctx.set_work v a.
Proof. reflexivity. Qed.

(** Slices of two planes can be done in either order. *)
Lemma slice_span_commute sample lpx cpx td lo hi lo' hi' (p q : Z)
    (d1 d2 e1 e2 : list Z) (a : Ctx.t) :
  0 <= p -> 0 <= q -> p <> q ->
  slice_span sample lpx cpx td lo hi p d1 d2
    (slice_span sample lpx cpx td lo' hi' q e1 e2 a)
  = slice_span sample lpx cpx td lo' hi' q e1 e2
      (slice_span sample lpx cpx td lo hi p d1 d2 a).
Proof.
  intros Hp Hq Hne.
  assert (Hn : Z.to_nat p <> Z.to_nat q) by lia.
  assert (Hn' : Z.to_nat q <> Z.to_nat p) by lia.
  unfold slice_span.
  destruct (Ctx.work a) as [w|] eqn:Hw; [|rewrite Hw; reflexivity].
  destruct (Frame.plane w (Z.to_nat q)) as [dq|] eqn:Eq;
    destruct (Frame.plane w (Z.to_nat p)) as [dp|] eqn:Ep;
    cbn [Ctx.work Ctx.set_work]; rewrite ?Hw, ?Eq, ?Ep;
    rewrite ?(plane_set_plane_ne _ _ _ _ Hn), ?(plane_set_plane_ne _ _ _ _ Hn');
    rewrite ?Hw, ?Eq, ?Ep; cbn [Ctx.work Ctx.set_work];
    rewrite ?Hw, ?Eq, ?Ep; try reflexivity.
  rewrite !plane_height_set_work, !stride_set_plane, !line_size_set_work,
    !set_work_set_work.
  rewrite (set_plane_commute _ _ _ _ _ Hn). reflexivity.
Qed.

(** Two slices of a plane, one after the other, are one slice. *)
Lemma slice_span_merge sample lpx cpx td lo mid hi (p : Z)
    (d1 d2 : list Z) (a : Ctx.t) :
  (forall h, 0 <= h -> lo h <= mid h <= hi h) ->
  0 <= Frame.height (ThreadData.copy_src1 td) ->
  slice_span sample lpx cpx td mid hi p d1 d2
    (slice_span sample lpx cpx td lo mid p d1 d2 a)
  = slice_span sample lpx cpx td lo hi p d1 d2 a.
Proof.
  intros Hb Hh. unfold slice_span.
  destruct (Ctx.work a) as [w|] eqn:Hw; [|rewrite Hw; reflexivity].
  destruct (Frame.plane w (Z.to_nat p)) as [dp|] eqn:Ep;
    [|rewrite Hw, Ep; reflexivity].
  cbn [Ctx.work Ctx.set_work].
  rewrite (plane_set_plane_eq _ _ _ _ Ep). rewrite set_plane_twice.
  rewrite plane_height_set_work, stride_set_plane, line_size_set_work,
    set_work_set_work.
  do 3 f_equal.
  symmetry. apply blend_rows_split. apply Hb.
  apply plane_height_nonneg. exact Hh.
Qed.

(** A slice without lines changes nothing. *)
Lemma slice_span_none sample lpx cpx td lo (p : Z) (d1 d2 : list Z)
    (a : Ctx.t) :
  slice_span sample lpx cpx td lo lo p d1 d2 a = a.
Proof.
  unfold slice_span.
  destruct (Ctx.work a) as [w|] eqn:Hw; [|reflexivity].
  destruct (Frame.plane w (Z.to_nat p)) as [dp|] eqn:Ep; [|reflexivity].
  rewrite blend_rows_none, (set_plane_same _ _ _ Ep).
  apply set_work_same. exact Hw.
Qed.

Lemma slice_span_ext sample lpx cpx td lo hi lo' hi' (p : Z) (d1 d2 : list Z)
    (a : Ctx.t) :
  (forall h, 0 <= h -> lo h = lo' h /\ hi h = hi' h) ->
  0 <= Frame.height (ThreadData.copy_src1 td) ->
  slice_span sample lpx cpx td lo hi p d1 d2 a
  = slice_span sample lpx cpx td lo' hi' p d1 d2 a.
Proof.
  intros Hext Hh. unfold slice_span.
  destruct (Ctx.work a) as [w|]; [|reflexivity].
  destruct (Frame.plane w (Z.to_nat p)) as [dp|]; [|reflexivity].
  destruct (Hext (plane_height a (ThreadData.copy_src1 td) p)) as [-> ->];
    [|reflexivity].
  apply plane_height_nonneg. exact Hh.
Qed.

Lemma fold_slices_commute sample lpx cpx td lo hi lo' hi' (p : Z)
    (d1 d2 : list Z) (l : list (Z * list Z * list Z)) (a : Ctx.t) :
  0 <= p ->
  (forall q e1 e2, (q, e1, e2) ∈ l -> p < q) ->
  slice_span sample lpx cpx td lo' hi' p d1 d2
    (fold_left (fun a '(q, e1, e2) =>
                  slice_span sample lpx cpx td lo hi q e1 e2 a) l a)
  = fold_left (fun a '(q, e1, e2) =>
                 slice_span sample lpx cpx td lo hi q e1 e2 a) l
      (slice_span sample lpx cpx td lo' hi' p d1 d2 a).
Proof.
  intros Hp. revert a. induction l as [|[[q e1] e2] l IH]; intros a Hl; cbn;
    [reflexivity|].
  rewrite IH.
  - f_equal. apply slice_span_commute; [lia| |].
    + specialize (Hl q e1 e2 (list_elem_of_here _ _)). lia.
    + specialize (Hl q e1 e2 (list_elem_of_here _ _)). lia.
  - intros q' e1' e2' H. apply (Hl q' e1' e2').
    apply list_elem_of_further. exact H.
Qed.

Lemma fold_slices_merge sample lpx cpx td lo mid hi (fuel : nat) :
  (forall h, 0 <= h -> lo h <= mid h <= hi h) ->
  0 <= Frame.height (ThreadData.copy_src1 td) ->
  forall (plane : Z) (a : Ctx.t),
    0 <= plane ->
    fold_left (fun a '(p, d1, d2) =>
                 slice_span sample lpx cpx td mid hi p d1 d2 a)
              (planes_visited fuel plane td)
      (fold_left (fun a '(p, d1, d2) =>
                    slice_span sample lpx cpx td lo mid p d1 d2 a)
                 (planes_visited fuel plane td) a)
    = fold_left (fun a '(p, d1, d2) =>
                   slice_span sample lpx cpx td lo hi p d1 d2 a)
                (planes_visited fuel plane td) a.
Proof.
  intros Hb Hh. induction fuel as [|fuel IH]; intros plane a Hp; cbn;
    [reflexivity|].
  destruct (plane <? 4); [|reflexivity].
  destruct (Frame.plane _ _) as [d1|]; [|reflexivity].
  destruct (Frame.plane _ _) as [d2|]; [|reflexivity].
  cbn [fold_left].
  rewrite (fold_slices_commute sample lpx cpx td lo mid mid hi plane d1 d2).
  - rewrite slice_span_merge by assumption. apply IH. lia.
  - exact Hp.
  - intros q e1 e2 H. apply planes_visited_from in H. lia.
Qed.

Lemma fold_slices_none sample lpx cpx td lo hi
    (l : list (Z * list Z * list Z)) (a : Ctx.t) :
  (forall h, 0 <= h -> lo h = hi h) ->
  0 <= Frame.height (ThreadData.copy_src1 td) ->
  fold_left (fun a '(p, d1, d2) =>
               slice_span sample lpx cpx td lo hi p d1 d2 a) l a
  = a.
Proof.
  intros Hb Hh. revert a. induction l as [|[[p d1] d2] l IH]; intros a; cbn;
    [reflexivity|].
  rewrite IH.
  rewrite (slice_span_ext sample lpx cpx td lo hi lo lo p d1 d2 a);
    [apply slice_span_none| |exact Hh].
  intros h H. split; [reflexivity|]. symmetry. apply Hb. exact H.
Qed.

Lemma fold_slices_ext sample lpx cpx td lo hi lo' hi'
    (l : list (Z * list Z * list Z)) (a : Ctx.t) :
  (forall h, 0 <= h -> lo h = lo' h /\ hi h = hi' h) ->
  0 <= Frame.height (ThreadData.copy_src1 td) ->
  fold_left (fun a '(p, d1, d2) =>
               slice_span sample lpx cpx td lo hi p d1 d2 a) l a
  = fold_left (fun a '(p, d1, d2) =>
                 slice_span sample lpx cpx td lo' hi' p d1 d2 a) l a.
Proof.
  intros Hb Hh. revert a. induction l as [|[[p d1] d2] l IH]; intros a; cbn;
    [reflexivity|].
  rewrite IH. f_equal. apply slice_span_ext; assumption.
Qed.

Lemma run_jobs_ascending func td nb_jobs (k : nat) (lo : Z) (s : Ctx.t) :
  run_jobs func td nb_jobs (seqZ lo (Z.of_nat k)) s
  = for_range lo 1 (lo + Z.of_nat k) (fun job a => func a td job nb_jobs) s.
Proof.
  revert lo s. induction k as [|k IH]; intros lo s.
  - rewrite for_range_nil by lia. reflexivity.
  - rewrite seqZ_cons by lia. rewrite for_range_first by lia.
    replace (Z.pred (Z.of_nat (S k))) with (Z.of_nat k) by lia.
    change (run_jobs func td nb_jobs (lo :: seqZ (Z.succ lo) (Z.of_nat k)) s)
      with (run_jobs func td nb_jobs (seqZ (Z.succ lo) (Z.of_nat k))
              (func s td lo nb_jobs)).
    rewrite IH. f_equal. lia.
Qed.

(** The jobs of a run, from the first to the last, blend every line of every
    plane once. *)
Lemma run_jobs_all sample lpx cpx func td nb_jobs (s : Ctx.t) :
  (forall a job,
      but_work a = but_work s ->
      func a td job nb_jobs
      = planes_loop 4 0 td (slice_plane sample lpx cpx td job nb_jobs) a) ->
  0 < nb_jobs ->
  0 <= Frame.height (ThreadData.copy_src1 td) ->
  run_jobs func td nb_jobs (seqZ 0 nb_jobs) s
  = slice_all sample lpx cpx td (fun _ => 0) (fun h => h) s.
Proof.
  intros Hfunc Hn Hh.
  replace nb_jobs with (Z.of_nat (Z.to_nat nb_jobs)) at 2 by lia.
  rewrite run_jobs_ascending. rewrite Z.add_0_l, Z2Nat.id by lia.
  pose proof (for_range_count (fun job a => func a td job nb_jobs) 0 1 nb_jobs
                (fun k a =>
                   a = slice_all sample lpx cpx td (fun _ => 0)
                         (fun h => (h * Z.of_nat k) ÷ nb_jobs) s)
                s ltac:(lia)) as H.
  cbv beta in H.
  assert (Hk : Z.of_nat (trip_count 0 1 nb_jobs) = nb_jobs).
  { unfold trip_count. replace (nb_jobs - 0 + 1 - 1) with nb_jobs by lia.
    rewrite Z.div_1_r. lia. }
  rewrite H.
  - rewrite Hk. unfold slice_all. apply fold_slices_ext; [|exact Hh].
    intros h _. split; [reflexivity|]. apply Z.quot_mul. lia.
  - unfold slice_all. symmetry. apply fold_slices_none; [|exact Hh].
    intros h _. rewrite Z.mul_0_r, Z.quot_0_l by lia. reflexivity.
  - intros k a Hlt ->. rewrite Z.add_0_l, Z.mul_1_l.
    rewrite Hfunc by apply fold_slices_but_work.
    rewrite slice_job_all. unfold slice_all.
    rewrite (fold_slices_ext sample lpx cpx td
               (fun h => (h * Z.of_nat k) ÷ nb_jobs)
               (fun h => (h * (Z.of_nat k + 1)) ÷ nb_jobs)
               (fun h => (h * Z.of_nat k) ÷ nb_jobs)
               (fun h => (h * Z.of_nat (S k)) ÷ nb_jobs));
      [|intros h _; split; [reflexivity|f_equal; lia]|exact Hh].
    apply (fold_slices_merge sample lpx cpx td (fun _ => 0)
             (fun h => (h * Z.of_nat k) ÷ nb_jobs)
             (fun h => (h * Z.of_nat (S k)) ÷ nb_jobs) 4); [|exact Hh|lia].
    intros h Hh0. split.
    + apply Z.quot_pos; nia.
    + rewrite !Z.quot_div_nonneg by nia.
      apply Z.div_le_mono; nia.
Qed.

(** X10.  The slices of the jobs tile the lines of every plane: the jobs
    [0] to [nb_jobs - 1] of a slice function, run one after the other from
    the first to the last, leave the work frame that the one job of a single
    thread leaves.  No line is blended twice and none is left out, whatever
    the number of threads. *)
Theorem X10_slices_tile_the_lines (s : Ctx.t) (td : ThreadData.t) (nb_jobs : Z) :
  0 < nb_jobs ->
  0 <= Frame.height (ThreadData.copy_src1 td) ->
  run_jobs filter_slice8 td nb_jobs (seqZ 0 nb_jobs) s
  = run_jobs filter_slice8 td 1 (seqZ 0 1) s
  /\ run_jobs filter_slice16 td nb_jobs (seqZ 0 nb_jobs) s
     = run_jobs filter_slice16 td 1 (seqZ 0 1) s.
Proof.
  intros Hn Hh. split.
  - rewrite (run_jobs_all 1 (luma8 (ThreadData.src1_factor td)
                                  (ThreadData.src2_factor td))
               (chroma8 (ThreadData.src1_factor td)
                        (ThreadData.src2_factor td))
               filter_slice8 td nb_jobs s); [|reflexivity|exact Hn|exact Hh].
    rewrite (run_jobs_all 1 (luma8 (ThreadData.src1_factor td)
                                  (ThreadData.src2_factor td))
               (chroma8 (ThreadData.src1_factor td)
                        (ThreadData.src2_factor td))
               filter_slice8 td 1 s); [reflexivity|reflexivity|lia|exact Hh].
  - assert (Hfunc : forall n a job,
      but_work a = but_work s ->
      filter_slice16 a td job n
      = planes_loop 4 0 td
          (slice_plane 2
             (luma16 (Ctx.max s ÷ 2) (Ctx.bitdepth s)
                     (ThreadData.src1_factor td) (ThreadData.src2_factor td))
             (chroma16 (Ctx.max s ÷ 2) ((Ctx.max s + 1) * (Ctx.max s ÷ 2))
                       (Ctx.bitdepth s)
                       (ThreadData.src1_factor td) (ThreadData.src2_factor td))
             td job n) a).
    { intros n a job Ha. unfold filter_slice16.
      replace (Ctx.max a) with (Ctx.max s)
        by (apply (f_equal Ctx.max) in Ha; symmetry; exact Ha).
      replace (Ctx.bitdepth a) with (Ctx.bitdepth s)
        by (apply (f_equal Ctx.bitdepth) in Ha; symmetry; exact Ha).
      reflexivity. }
    rewrite (run_jobs_all 2 _ _ filter_slice16 td nb_jobs s (Hfunc nb_jobs)
               Hn Hh).
    rewrite (run_jobs_all 2 _ _ filter_slice16 td 1 s (Hfunc 1)
               ltac:(lia) Hh).
    reflexivity.
Qed.

(** Frames of 2 by 5 samples, blended by three jobs: the lines 0, 1 to 2
    and 3 to 4. *)
Lemma X10_slices_tile_the_lines_witness :
  let a := flat_frame 2 5 10 20 30 0 in
  let b := flat_frame 2 5 200 210 220 1 in
  let td := ThreadData.mk a b 128 128 in
  let s := Ctx.set_work (Some (flat_frame 2 5 0 0 0 0))
             (example_context [2; 2; 2; 0]) in
  option_map luma (Ctx.work (run_jobs filter_slice8 td 3 (seqZ 0 3) s))
  = Some (replicate 10 105)
  /\ run_jobs filter_slice8 td 3 (seqZ 0 3) s
     = run_jobs filter_slice8 td 1 (seqZ 0 1) s
  /\ run_jobs filter_slice16 td 3 (seqZ 0 3) s
     = run_jobs filter_slice16 td 1 (seqZ 0 1) s.
Proof.
  intros a b td s. split; [vm_compute; reflexivity|].
  apply (X10_slices_tile_the_lines s td 3); cbn; lia.
Defined.



(** ** More on the interpolation policy and the scheduler *)

Lemma emit_work_nonzero (work_pts : Z) (s : Ctx.t) :
  fst (emit_work work_pts s) <> 0.
Proof. unfold emit_work. destruct (Ctx.work s); cbn; discriminate. Qed.

Lemma process_work_frame_idle {graph : FilterGraph} (s : Ctx.t) :
  candidate_due s = false -> process_work_frame s = (0, s).
Proof.
  unfold candidate_due, process_work_frame.
  rewrite !Z.geb_leb, !Z.leb_antisym.
  destruct (Ctx.f1 s) as [fr1|]; [|reflexivity].
  destruct (Ctx.f0 s) as [fr0|]; destruct (Ctx.flush s); cbn;
    try reflexivity; try discriminate;
    destruct (work_pts_of s <? Ctx.pts1 s); cbn;
    try reflexivity; try discriminate;
    destruct (work_pts_of s <? Ctx.pts1 s + Ctx.delta s); cbn;
    try reflexivity; try discriminate.
Qed.

Lemma process_work_frame_busy {graph : FilterGraph} (s : Ctx.t) :
  candidate_due s = true -> fst (process_work_frame s) <> 0.
Proof.
  unfold candidate_due, process_work_frame.
  rewrite !Z.geb_leb, !Z.leb_antisym.
  destruct (Ctx.f1 s) as [fr1|]; [|discriminate].
  destruct (Ctx.f0 s) as [fr0|]; destruct (Ctx.flush s); cbn;
    try discriminate;
    destruct (work_pts_of s <? Ctx.pts1 s); cbn;
    try discriminate; try (intros _; apply emit_work_nonzero);
    destruct (work_pts_of s <? Ctx.pts1 s + Ctx.delta s); cbn;
    try discriminate; intros _;
    (destruct (_ >? Ctx.interp_end s); [apply emit_work_nonzero|];
     destruct (_ <? Ctx.interp_start s); [apply emit_work_nonzero|];
     destruct (blend_frames s _) as [ret s1];
     destruct (ret <? 0) eqn:E; [cbn; lia|];
     destruct (ret =? 0); apply emit_work_nonzero).
Qed.

(** The answers of process_work_frame. *)
Lemma process_work_frame_cases {graph : FilterGraph} (s : Ctx.t) :
  let '(ret, s') := process_work_frame s in
  (ret = 0 <-> candidate_due s = false)
  /\ (ret = 0 \/ ret = 1 \/ ret = AVERROR_ENOMEM)
  /\ (ret = 0 -> s' = s)
  /\ (ret = 1 ->
      Ctx.n s' = Ctx.n s + 1
      /\ exists w, Ctx.work s' = Some w /\ Frame.pts w = work_pts_of s)
  /\ (ret = AVERROR_ENOMEM -> Ctx.n s' = Ctx.n s).
Proof.
  pose proof (process_work_frame_result s) as Hres.
  pose proof (process_work_frame_idle s) as Hidle.
  pose proof (process_work_frame_busy s) as Hbusy.
  destruct (process_work_frame s) as [ret s']. cbn [fst] in Hbusy.
  destruct Hres as [Hbut Hres].
  split.
  { split.
    - intros ->. destruct (candidate_due s); [|reflexivity].
      exfalso. apply Hbusy; reflexivity.
    - intros Hd. specialize (Hidle Hd). congruence. }
  split.
  { destruct Hres as [[-> _]|[(-> & _)|(-> & _)]]; auto. }
  split.
  { intros ->. destruct Hres as [[_ ->]|[(E & _)|(E & _)]];
      [reflexivity|discriminate|discriminate]. }
  split.
  { intros ->. destruct Hres as [[E _]|[(_ & Hn & Hw)|(E & _)]];
      [discriminate|auto|discriminate]. }
  intros ->. destruct Hres as [[E _]|[(E & _)|(_ & Hn)]];
    [discriminate|discriminate|exact Hn].
Qed.

(** X12.  process_work_frame answers 0, 1 or AVERROR(ENOMEM): 0 exactly when
    no candidate is due, and then it changes nothing; 1 with a work frame
    that carries the candidate timestamp, the counter moved on by one;
    AVERROR(ENOMEM) with the counter as it was.  It never touches the
    window, the start of the cursor or the flush flag. *)
Theorem X12_process_work_frame_protocol {graph : FilterGraph} (s : Ctx.t) :
  let '(ret, s') := process_work_frame s in
  (ret = 0 <-> candidate_due s = false)
  /\ (ret = 0 \/ ret = 1 \/ ret = AVERROR_ENOMEM)
  /\ (ret = 0 -> s' = s)
  /\ (ret = 1 ->
      Ctx.n s' = Ctx.n s + 1
      /\ exists w, Ctx.work s' = Some w /\ Frame.pts w = work_pts_of s)
  /\ (ret = AVERROR_ENOMEM -> Ctx.n s' = Ctx.n s)
  /\ Ctx.f0 s' = Ctx.f0 s /\ Ctx.f1 s' = Ctx.f1 s
  /\ Ctx.pts0 s' = Ctx.pts0 s /\ Ctx.pts1 s' = Ctx.pts1 s
  /\ Ctx.delta s' = Ctx.delta s /\ Ctx.start_pts s' = Ctx.start_pts s
  /\ Ctx.flush s' = Ctx.flush s.
Proof.
  pose proof (process_work_frame_cases s) as Hcases.
  pose proof (process_work_frame_result s) as Hres.
  destruct (process_work_frame s) as [ret s'].
  destruct Hcases as (Hdue & Hcode & H0 & H1 & Hn).
  destruct Hres as [Hbut _].
  repeat (split; [assumption|]).
  repeat split.
  - apply (f_equal Ctx.f0) in Hbut. exact Hbut.
  - apply (f_equal Ctx.f1) in Hbut. exact Hbut.
  - apply (f_equal Ctx.pts0) in Hbut. exact Hbut.
  - apply (f_equal Ctx.pts1) in Hbut. exact Hbut.
  - apply (f_equal Ctx.delta) in Hbut. exact Hbut.
  - apply (f_equal Ctx.start_pts) in Hbut. exact Hbut.
  - apply (f_equal Ctx.flush) in Hbut. exact Hbut.
Qed.

(** One turn of the loop of filter_frame. *)
Lemma output_loop_step {graph : FilterGraph} (fuel : nat) (s s' : Ctx.t)
    (ret : Z) (evs : list event) :
  output_loop (S fuel) s = Some (ret, s', evs) ->
  (candidate_due s = false /\ ret = 0 /\ s' = s /\ evs = [])
  \/ (candidate_due s = true
      /\ process_work_frame s = (AVERROR_ENOMEM, s')
      /\ ret = AVERROR_ENOMEM /\ evs = [])
  \/ (candidate_due s = true
      /\ exists s1 w,
           process_work_frame s = (1, s1)
           /\ Ctx.work s1 = Some w /\ Frame.pts w = work_pts_of s
           /\ ((ff_filter_frame w < 0 /\ ret = ff_filter_frame w
                /\ s' = s1 /\ evs = [Out w])
               \/ (0 <= ff_filter_frame w
                   /\ exists evs2,
                        output_loop fuel s1 = Some (ret, s', evs2)
                        /\ evs = Out w :: evs2))).
Proof.
  intros H. cbn in H.
  pose proof (process_work_frame_cases s) as Hp.
  destruct (process_work_frame s) as [r s1].
  destruct Hp as (Hdue & Hcode & H0 & H1 & _).
  destruct Hcode as [->|[->| ->]].
  - cbn in H. injection H as <- <- <-. left.
    rewrite (H0 eq_refl). repeat split. apply Hdue. reflexivity.
  - right; right.
    assert (Hd : candidate_due s = true).
    { destruct (candidate_due s); [reflexivity|].
      destruct Hdue as [_ Hd]. specialize (Hd eq_refl). discriminate. }
    split; [exact Hd|].
    destruct (H1 eq_refl) as (_ & w & Hw & Hpts).
    exists s1, w. split; [reflexivity|]. split; [exact Hw|].
    split; [exact Hpts|].
    cbn in H. rewrite Hw in H.
    destruct (ff_filter_frame w >=? 0) eqn:E.
    + right. split; [apply Z.geb_le in E; lia|].
      destruct (output_loop fuel s1) as [[[r2 s2] evs2]|]; [|discriminate].
      injection H as <- <- <-. exists evs2. split; reflexivity.
    + left. injection H as <- <- <-.
      rewrite Z.geb_leb in E. apply Z.leb_gt in E. repeat split. exact E.
  - cbn in H. injection H as <- <- <-. right; left.
    assert (Hd : candidate_due s = true).
    { destruct (candidate_due s); [reflexivity|].
      destruct Hdue as [_ Hd]. specialize (Hd eq_refl). discriminate. }
    repeat split. exact Hd.
Qed.

Lemma outputs_warnings (log : list event) :
  (forall e, e ∈ log -> exists w, e = Warn w) -> outputs log = [].
Proof.
  induction log as [|e log IH]; intros H; [reflexivity|].
  destruct (H e (list_elem_of_here _ _)) as (w & ->). cbn.
  apply IH. intros e' He'. apply H. apply list_elem_of_further. exact He'.
Qed.

(** filter_frame drops the frame, or lets the window take it and runs the
    loop. *)
Lemma filter_frame_cases {graph : FilterGraph} (fuel : nat) (s s' : Ctx.t)
    (f : Frame.t) (ret : Z) (evs : list event) :
  filter_frame fuel s f = Some (ret, s', evs) ->
  (ret = 0 /\ s' = s /\ outputs evs = []
   /\ (Frame.pts f = AV_NOPTS_VALUE
       \/ (is_set (Ctx.f1 s) = true /\ dest_pts s f = Ctx.pts1 s)))
  \/ (Frame.pts f <> AV_NOPTS_VALUE
      /\ (is_set (Ctx.f1 s) = true -> dest_pts s f <> Ctx.pts1 s)
      /\ exists evs1,
           output_loop fuel (fst (shift_window s f (dest_pts s f)))
           = Some (ret, s', evs1)
           /\ outputs evs = outputs evs1).
Proof.
  unfold filter_frame. intros H.
  set (log0 := if Frame.interlaced_frame f then [Warn WInterlaced] else [])
    in *.
  assert (Hlog0 : outputs log0 = [])
    by (subst log0; destruct (Frame.interlaced_frame f); reflexivity).
  destruct (Frame.pts f =? AV_NOPTS_VALUE) eqn:Ep.
  { injection H as <- <- <-. left. rewrite outputs_app, Hlog0.
    apply Z.eqb_eq in Ep. repeat (split; [reflexivity|]). left. exact Ep. }
  apply Z.eqb_neq in Ep. fold (dest_pts s f) in H.
  destruct (is_set (Ctx.f1 s) && (dest_pts s f =? Ctx.pts1 s)) eqn:Ed.
  { injection H as <- <- <-. left. rewrite outputs_app, Hlog0.
    apply andb_true_iff in Ed. destruct Ed as [E1 E2]. apply Z.eqb_eq in E2.
    repeat (split; [reflexivity|]). right. split; assumption. }
  right. split; [exact Ep|]. split.
  { intros Hset. rewrite Hset in Ed. cbn in Ed. apply Z.eqb_neq. exact Ed. }
  pose proof (shift_window_fields s f (dest_pts s f)) as Hs.
  destruct (shift_window s f (dest_pts s f)) as [s1 log1].
  cbn [fst snd] in *.
  destruct Hs as (_ & _ & _ & _ & _ & _ & _ & _ & Hlog).
  destruct (output_loop fuel s1) as [[[r2 s2] evs2]|]; [|discriminate].
  injection H as <- <- <-. exists evs2. split; [reflexivity|].
  rewrite !outputs_app, Hlog0, Hlog.
  destruct (dest_pts s f - Ctx.pts1 s <? 0); reflexivity.
Qed.

Lemma output_loop_refusal {graph : FilterGraph} (fuel : nat) :
  forall (s s' : Ctx.t) (ret : Z) (evs : list event),
    output_loop fuel s = Some (ret, s', evs) ->
    ret <= 0
    /\ (ret = 0 -> Forall (fun w => 0 <= ff_filter_frame w) (outputs evs))
    /\ (ret < 0 ->
        (ret = AVERROR_ENOMEM
         /\ Forall (fun w => 0 <= ff_filter_frame w) (outputs evs))
        \/ exists ws w,
             outputs evs = ws ++ [w]
             /\ Forall (fun w => 0 <= ff_filter_frame w) ws
             /\ ff_filter_frame w = ret).
Proof.
  induction fuel as [|fuel IH]; intros s s' ret evs H; [discriminate|].
  apply output_loop_step in H.
  destruct H as [(_ & -> & _ & ->)|[(_ & _ & -> & ->)|(_ & s1 & w & _ & _ & _ & H)]].
  - cbn. split; [lia|]. split; [constructor|lia].
  - cbn. split; [unfold AVERROR_ENOMEM; lia|]. split; [discriminate|].
    intros _. left. split; [reflexivity|constructor].
  - destruct H as [(Hneg & -> & _ & ->)|(Hpos & evs2 & Hloop & ->)].
    + cbn. split; [lia|]. split; [lia|]. intros _. right.
      exists [], w. repeat split. constructor.
    + destruct (IH _ _ _ _ Hloop) as (Hle & Hzero & Hfail).
      rewrite outputs_out. split; [exact Hle|]. split.
      * intros E. constructor; [exact Hpos|apply Hzero; exact E].
      * intros E. destruct (Hfail E) as [(-> & Hall)|(ws & w' & -> & Hall & Hw')].
        -- left. split; [reflexivity|]. constructor; assumption.
        -- right. exists (w :: ws), w'. split; [reflexivity|].
           split; [constructor; assumption|exact Hw'].
Qed.

(** X13.  filter_frame never answers a positive code.  It answers 0 when
    the output link has taken every frame of the call; otherwise the code is
    AVERROR(ENOMEM), or the negative code of the output link for the last
    frame passed on.  No frame is passed on after one the link has refused. *)
Theorem X13_filter_frame_stops_at_refusal {graph : FilterGraph} (fuel : nat)
    (s s' : Ctx.t) (f : Frame.t) (ret : Z) (evs : list event) :
  filter_frame fuel s f = Some (ret, s', evs) ->
  ret <= 0
  /\ (ret = 0 -> Forall (fun w => 0 <= ff_filter_frame w) (outputs evs))
  /\ (ret < 0 ->
      (ret = AVERROR_ENOMEM
       /\ Forall (fun w => 0 <= ff_filter_frame w) (outputs evs))
      \/ exists ws w,
           outputs evs = ws ++ [w]
           /\ Forall (fun w => 0 <= ff_filter_frame w) ws
           /\ ff_filter_frame w = ret).
Proof.
  intros H. apply filter_frame_cases in H.
  destruct H as [(-> & _ & -> & _)|(_ & _ & evs1 & Hloop & ->)].
  - split; [lia|]. split; [constructor|lia].
  - exact (output_loop_refusal fuel _ _ _ _ Hloop).
Qed.

(** Frames at 25 a second, output at 50, into a link that refuses the
    frames from the timestamp 1 on: the second frame makes the outputs 0 and
    1 due, the link refuses the second, and the call answers its code. *)
Lemma X13_filter_frame_stops_at_refusal_witness :
  let g := refusing_graph 1 1 1 1 (-5) in
  let a := flat_frame 1 1 10 128 128 0 in
  let b := flat_frame 1 1 20 128 128 5 in
  let s := fst (shift_window (example_context [1; 1; 1; 0]) a 0) in
  code_of (@filter_frame g 5 s b) = Some (-5)
  /\ option_map (fun evs => map Frame.pts (outputs evs))
                (events_of (@filter_frame g 5 s b)) = Some [0; 1]
  /\ match @filter_frame g 5 s b with
     | Some (ret, s', evs) =>
         ret <= 0
         /\ (ret = 0 ->
             Forall (fun w => 0 <= @ff_filter_frame g w) (outputs evs))
         /\ (ret < 0 ->
             (ret = AVERROR_ENOMEM
              /\ Forall (fun w => 0 <= @ff_filter_frame g w) (outputs evs))
             \/ exists ws w,
                  outputs evs = ws ++ [w]
                  /\ Forall (fun w => 0 <= @ff_filter_frame g w) ws
                  /\ @ff_filter_frame g w = ret)
     | None => False
     end.
Proof.
  intros g a b s.
  split; [vm_compute; reflexivity|]. split; [vm_compute; reflexivity|].
  assert (Hrun : is_set (@filter_frame g 5 s b) = true)
    by (vm_compute; reflexivity).
  destruct (@filter_frame g 5 s b) as [[[ret s'] evs]|] eqn:E;
    [|discriminate Hrun].
  exact (@X13_filter_frame_stops_at_refusal g 5 s s' b ret evs E).
Defined.

Lemma candidate_due_ext (s s' : Ctx.t) :
  but_output s' = but_output s -> Ctx.n s' = Ctx.n s ->
  candidate_due s' = candidate_due s.
Proof.
  intros Hb Hn. unfold candidate_due, work_pts_of.
  pose proof (f_equal Ctx.f0 Hb) as E0. pose proof (f_equal Ctx.f1 Hb) as E1.
  pose proof (f_equal Ctx.flush Hb) as E2.
  pose proof (f_equal Ctx.pts1 Hb) as E3.
  pose proof (f_equal Ctx.delta Hb) as E4.
  pose proof (f_equal Ctx.start_pts Hb) as E5.
  pose proof (f_equal Ctx.dest_frame_rate Hb) as E6.
  pose proof (f_equal Ctx.dest_time_base Hb) as E7.
  cbn in E0, E1, E2, E3, E4, E5, E6, E7.
  rewrite E0, E1, E2, E3, E4, E5, E6, E7, Hn. reflexivity.
Qed.

Lemma blend_frames_without_buffer {graph : FilterGraph} (s : Ctx.t)
    (interpolate : Z) :
  ff_get_video_buffer outlink_w outlink_h = None ->
  fst (blend_frames s interpolate) <> 1.
Proof.
  intros Hbuf. unfold blend_frames. rewrite Hbuf.
  destruct (Ctx.f0 s); [|cbn; discriminate].
  destruct (Ctx.f1 s); [|cbn; discriminate].
  destruct (if negb _ then _ else _) as [sc s1].
  destruct (fp_lt sc (Ctx.scene_score s1)); cbn; discriminate.
Qed.

Lemma emit_work_without_frame (work_pts : Z) (s : Ctx.t) :
  fst (emit_work work_pts (Ctx.set_work None s)) = AVERROR_ENOMEM.
Proof. reflexivity. Qed.

Lemma process_work_frame_without_memory {graph : FilterGraph} (s : Ctx.t) :
  (forall fr, av_frame_clone fr = None) ->
  ff_get_video_buffer outlink_w outlink_h = None ->
  fst (process_work_frame s) <> 1.
Proof.
  intros Hclone Hbuf. unfold process_work_frame.
  destruct (Ctx.f1 s) as [fr1|]; [|cbn; discriminate].
  destruct (negb (is_set (Ctx.f0 s)) && negb (Ctx.flush s));
    [cbn; discriminate|].
  destruct ((work_pts_of s >=? Ctx.pts1 s) && negb (Ctx.flush s));
    [cbn; discriminate|].
  destruct (Ctx.f0 s) as [fr0|].
  2:{ rewrite Hclone, emit_work_without_frame. discriminate. }
  destruct ((work_pts_of s >=? Ctx.pts1 s + Ctx.delta s) && Ctx.flush s);
    [cbn; discriminate|].
  destruct (_ >? Ctx.interp_end s).
  { rewrite Hclone, emit_work_without_frame. discriminate. }
  destruct (_ <? Ctx.interp_start s).
  { rewrite Hclone, emit_work_without_frame. discriminate. }
  match goal with
  | |- context [blend_frames s ?i] =>
      pose proof (blend_frames_without_buffer s i Hbuf) as Hb;
      pose proof (blend_frames_result s i) as Hr;
      destruct (blend_frames s i) as [ret s1]
  end.
  cbn [fst] in Hb. destruct Hr as [_ [->|[[-> _]| ->]]].
  - cbn. rewrite Hclone, emit_work_without_frame. discriminate.
  - contradiction.
  - cbn. discriminate.
Qed.

(** X14.  Without memory (no buffer, no new reference to a frame)
    filter_frame passes no frame on.  It answers 0 or AVERROR(ENOMEM), and
    after AVERROR(ENOMEM) the candidate it could not make is still due: the
    counter has not moved on. *)
Theorem X14_filter_frame_without_memory {graph : FilterGraph} (fuel : nat)
    (s : Ctx.t) (f : Frame.t) :
  (forall fr, av_frame_clone fr = None) ->
  ff_get_video_buffer outlink_w outlink_h = None ->
  exists ret s' evs,
    filter_frame (S fuel) s f = Some (ret, s', evs)
    /\ outputs evs = []
    /\ (ret = 0 \/ ret = AVERROR_ENOMEM)
    /\ (ret = AVERROR_ENOMEM -> candidate_due s' = true).
Proof.
  intros Hclone Hbuf.
  assert (Hloop : forall s1 : Ctx.t,
    exists ret s',
      output_loop (S fuel) s1 = Some (ret, s', [])
      /\ (ret = 0 \/ ret = AVERROR_ENOMEM)
      /\ (ret = AVERROR_ENOMEM -> candidate_due s' = true)).
  { intros s1. cbn.
    pose proof (process_work_frame_without_memory s1 Hclone Hbuf) as Hne.
    pose proof (process_work_frame_cases s1) as Hp.
    pose proof (process_work_frame_result s1) as Hr.
    destruct (process_work_frame s1) as [r s2]. cbn [fst] in Hne.
    destruct Hp as (Hdue & Hcode & H0 & _ & Hn).
    destruct Hr as [Hbut _].
    destruct Hcode as [->|[->| ->]]; [|contradiction|].
    - exists 0, s2. cbn. split; [reflexivity|]. split; [auto|discriminate].
    - exists AVERROR_ENOMEM, s2. cbn. split; [reflexivity|].
      split; [auto|]. intros _.
      rewrite (candidate_due_ext s1 s2 Hbut (Hn eq_refl)).
      destruct (candidate_due s1); [reflexivity|].
      destruct Hdue as [_ Hd]. specialize (Hd eq_refl). discriminate. }
  unfold filter_frame.
  set (log0 := if Frame.interlaced_frame f then [Warn WInterlaced] else []).
  assert (Hlog0 : outputs log0 = [])
    by (subst log0; destruct (Frame.interlaced_frame f); reflexivity).
  destruct (Frame.pts f =? AV_NOPTS_VALUE).
  { exists 0, s, (log0 ++ [Warn WNoPTS]). split; [reflexivity|].
    rewrite outputs_app, Hlog0. split; [reflexivity|].
    split; [auto|discriminate]. }
  destruct (is_set (Ctx.f1 s) && _).
  { exists 0, s, (log0 ++ [Warn WSamePTS]). split; [reflexivity|].
    rewrite outputs_app, Hlog0. split; [reflexivity|].
    split; [auto|discriminate]. }
  match goal with
  | |- context [shift_window s f ?p] =>
      pose proof (shift_window_fields s f p) as Hs;
      destruct (shift_window s f p) as [s1 log1]
  end.
  cbn [fst snd] in Hs.
  destruct Hs as (_ & _ & _ & _ & _ & _ & _ & _ & Hlog).
  destruct (Hloop s1) as (ret & s' & -> & Hcode & Hdue).
  exists ret, s', (log0 ++ log1 ++ []). split; [reflexivity|].
  rewrite !outputs_app, Hlog0, Hlog. split.
  - destruct (_ <? 0); reflexivity.
  - split; assumption.
Qed.

(** The second frame of a stream with no memory left. *)
Lemma X14_filter_frame_without_memory_witness :
  let g := starved_graph 1 1 1 in
  let a := flat_frame 1 1 10 128 128 0 in
  let b := flat_frame 1 1 20 128 128 1 in
  let s := fst (shift_window (example_context [1; 1; 1; 0]) a 0) in
  code_of (@filter_frame g 1 s b) = Some AVERROR_ENOMEM
  /\ exists ret s' evs,
       @filter_frame g 1 s b = Some (ret, s', evs)
       /\ outputs evs = []
       /\ (ret = 0 \/ ret = AVERROR_ENOMEM)
       /\ (ret = AVERROR_ENOMEM -> candidate_due s' = true).
Proof.
  intros g a b s. split; [vm_compute; reflexivity|].
  apply (@X14_filter_frame_without_memory g 0 s b).
  - intros fr. reflexivity.
  - reflexivity.
Defined.

(** What producing outputs leaves alone, field by field. *)
Lemma but_output_fields (s s' : Ctx.t) :
  but_output s' = but_output s ->
  Ctx.f0 s' = Ctx.f0 s /\ Ctx.f1 s' = Ctx.f1 s
  /\ Ctx.pts0 s' = Ctx.pts0 s /\ Ctx.pts1 s' = Ctx.pts1 s
  /\ Ctx.delta s' = Ctx.delta s /\ Ctx.start_pts s' = Ctx.start_pts s
  /\ Ctx.flush s' = Ctx.flush s /\ Ctx.max s' = Ctx.max s
  /\ period_den s' = period_den s /\ period_num s' = period_num s
  /\ (forall n, periods s' n = periods s n)
  /\ Ctx.srce_time_base s' = Ctx.srce_time_base s
  /\ Ctx.dest_time_base s' = Ctx.dest_time_base s.
Proof.
  intros Hb. unfold period_den, period_num, periods.
  pose proof (f_equal Ctx.f0 Hb) as E0. pose proof (f_equal Ctx.f1 Hb) as E1.
  pose proof (f_equal Ctx.pts0 Hb) as E2.
  pose proof (f_equal Ctx.pts1 Hb) as E3.
  pose proof (f_equal Ctx.delta Hb) as E4.
  pose proof (f_equal Ctx.start_pts Hb) as E5.
  pose proof (f_equal Ctx.flush Hb) as E6.
  pose proof (f_equal Ctx.max Hb) as E7.
  pose proof (f_equal Ctx.dest_frame_rate Hb) as E8.
  pose proof (f_equal Ctx.dest_time_base Hb) as E9.
  pose proof (f_equal Ctx.srce_time_base Hb) as E10.
  cbn in E0, E1, E2, E3, E4, E5, E6, E7, E8, E9, E10.
  rewrite E8, E9. repeat split; assumption.
Qed.

(** What taking a frame into the window leaves alone. *)
Lemma shift_window_config (s : Ctx.t) (inpicref : Frame.t) (pts : Z) :
  let s' := fst (shift_window s inpicref pts) in
  Ctx.max s' = Ctx.max s
  /\ Ctx.interp_start s' = Ctx.interp_start s
  /\ Ctx.interp_end s' = Ctx.interp_end s
  /\ Ctx.dest_frame_rate s' = Ctx.dest_frame_rate s
  /\ Ctx.dest_time_base s' = Ctx.dest_time_base s
  /\ Ctx.srce_time_base s' = Ctx.srce_time_base s.
Proof.
  unfold shift_window; cbn.
  destruct (pts - Ctx.pts1 s <? 0); cbn;
    repeat match goal with |- context [if ?b then _ else _] => destruct b end;
    cbn; auto 12.
Qed.

Lemma periods_zero (s : Ctx.t) :
  0 < period_den s -> 0 <= period_num s -> periods s 0 = 0.
Proof.
  intros Hd Hn. rewrite periods_rescale, av_rescale_rnd_nonneg by lia.
  rewrite Z.mul_0_l, Z.add_0_l. apply Z.div_small. split.
  - apply Z.div_pos; lia.
  - apply Z.div_lt; lia.
Qed.

(** Outside a flush the loop of filter_frame passes on candidates before the
    newer frame of the window only, and when it ends with 0 the cursor has
    reached that frame. *)
Lemma output_loop_window {graph : FilterGraph} (fuel : nat) :
  forall (s s' : Ctx.t) (ret : Z) (evs : list event),
    Ctx.flush s = false ->
    0 < period_den s <= period_num s ->
    output_loop fuel s = Some (ret, s', evs) ->
    Forall (fun w => is_set (Ctx.f0 s) = true
                     /\ work_pts_of s <= Frame.pts w < Ctx.pts1 s)
           (outputs evs)
    /\ (ret = 0 -> is_set (Ctx.f0 s) = true -> is_set (Ctx.f1 s) = true ->
        Ctx.pts1 s <= work_pts_of s')
    /\ work_pts_of s <= work_pts_of s'
    /\ but_output s' = but_output s.
Proof.
  induction fuel as [|fuel IH]; intros s s' ret evs Hfl Hper H;
    [discriminate|].
  apply output_loop_step in H.
  destruct H as [(Hdue & -> & -> & ->)|[(Hdue & Hp & -> & ->)|(Hdue & s1 & w & Hp & Hw & Hpts & H)]].
  - cbn. split; [constructor|]. split; [|split; [lia|reflexivity]].
    intros _ H0 H1. unfold candidate_due in Hdue.
    rewrite H0, H1, Hfl in Hdue. cbn in Hdue. apply Z.ltb_ge in Hdue. lia.
  - pose proof (process_work_frame_cases s) as Hpr.
    pose proof (process_work_frame_result s) as Hr.
    rewrite Hp in Hpr, Hr. destruct Hr as [Hbut _].
    destruct Hpr as (_ & _ & _ & _ & Hn).
    cbn. split; [constructor|]. split; [discriminate|]. split; [|exact Hbut].
    destruct (but_output_fields s s' Hbut)
      as (_ & _ & _ & _ & _ & Est & _ & _ & _ & _ & Eper & _).
    rewrite !work_pts_of_periods, Est, Eper, (Hn eq_refl). lia.
  - pose proof (process_work_frame_cases s) as Hpr.
    pose proof (process_work_frame_result s) as Hr.
    rewrite Hp in Hpr, Hr. destruct Hr as [Hbut _].
    destruct Hpr as (_ & _ & _ & Hn & _). destruct (Hn eq_refl) as [Hn1 _].
    destruct (but_output_fields s s1 Hbut)
      as (E0 & E1 & _ & E3 & _ & Est & Efl & _ & Eden & Enum & Eper & _).
    assert (Hdue' : is_set (Ctx.f0 s) = true /\ work_pts_of s < Ctx.pts1 s).
    { unfold candidate_due in Hdue. rewrite Hfl in Hdue.
      apply andb_true_iff in Hdue. destruct Hdue as [_ Hdue].
      apply andb_true_iff in Hdue. destruct Hdue as [Hd0 Hd1].
      apply Z.ltb_lt in Hd1. split; assumption. }
    assert (Hstep : work_pts_of s < work_pts_of s1).
    { rewrite !work_pts_of_periods, Est, Eper, Hn1.
      destruct (periods_step s (Ctx.n s) Hper) as [_ Hlt]. lia. }
    destruct H as [(Hneg & -> & -> & ->)|(Hpos & evs2 & Hloop & ->)].
    + cbn. split.
      * constructor; [|constructor]. split; [apply Hdue'|]. lia.
      * split; [lia|]. split; [lia|exact Hbut].
    + destruct (IH s1 s' ret evs2) as (Hall & Hcaught & Hmono & Hbut2);
        [congruence|rewrite Eden, Enum; exact Hper|exact Hloop|].
      rewrite outputs_out. split.
      * constructor; [split; [apply Hdue'|lia]|].
        eapply Forall_impl; [exact Hall|].
        intros w' (Hf0 & Hlo & Hhi). cbn beta.
        rewrite E0 in Hf0. rewrite E3 in Hhi. split; [exact Hf0|lia].
      * split.
        -- intros Hz H0 H1. rewrite <- E3. apply Hcaught; congruence.
        -- split; [lia|congruence].
Qed.

(** The ratio of a candidate inside the window lies between 0 and the
    maximum. *)
Lemma ratio_in_window (a max_value delta : Z) :
  0 <= a < delta -> 0 <= max_value ->
  0 <= av_rescale a max_value delta <= max_value.
Proof.
  intros Ha Hm. unfold av_rescale. rewrite av_rescale_rnd_nonneg by lia.
  assert (Hh : 0 <= delta / 2 < delta).
  { split; [apply Z.div_pos; lia|apply Z.div_lt; lia]. }
  split.
  - apply Z.div_pos; nia.
  - apply Z.lt_succ_r. apply Z.div_lt_upper_bound; [lia|]. nia.
Qed.

(** The window once it has taken a frame, before the loop. *)
Lemma shifted_window (s : Ctx.t) (f : Frame.t) :
  window_ok s ->
  0 < period_den s <= period_num s ->
  dest_pts s f <> AV_NOPTS_VALUE ->
  (is_set (Ctx.f1 s) = true -> dest_pts s f <> Ctx.pts1 s) ->
  let s1 := fst (shift_window s f (dest_pts s f)) in
  0 < period_den s1 <= period_num s1
  /\ Ctx.f1 s1 = Some f /\ Ctx.flush s1 = Ctx.flush s
  /\ (is_set (Ctx.f0 s1) = true ->
      Ctx.delta s1 = Ctx.pts1 s1 - Ctx.pts0 s1
      /\ 0 < Ctx.delta s1
      /\ Ctx.pts0 s1 <= work_pts_of s1)
  /\ Ctx.start_pts s1 <> AV_NOPTS_VALUE /\ 0 <= Ctx.n s1
  /\ (is_set (Ctx.f0 s1) = false -> Ctx.pts1 s1 <= work_pts_of s1).
Proof.
  intros Hok Hper Hpts Hne.
  pose proof (shift_window_fields s f (dest_pts s f)) as Hs.
  pose proof (shift_window_config s f (dest_pts s f)) as Hc.
  cbv zeta in Hs, Hc |- *.
  set (s1 := fst (shift_window s f (dest_pts s f))) in *.
  destruct Hs as (F1 & P1 & P0 & D & Fl & F0 & N & St & _).
  destruct Hc as (_ & _ & _ & Erate & Etb & _).
  destruct Hok as (Hok1 & Hok2 & Hok3).
  assert (Hperiods : forall n, periods s1 n = periods s n).
  { intros n. unfold periods. rewrite Erate, Etb. reflexivity. }
  split.
  { unfold period_den, period_num. rewrite Erate, Etb. exact Hper. }
  split; [exact F1|]. split; [exact Fl|]. split.
  { intros Hset. rewrite F0 in Hset.
    destruct (dest_pts s f - Ctx.pts1 s <? 0) eqn:Er; [discriminate|].
    apply Z.ltb_ge in Er.
    destruct (Hok2 Hset) as (Hst & Hn & Hreached).
    specialize (Hne Hset).
    split; [lia|]. split; [lia|].
    rewrite work_pts_of_periods, Hperiods, N, St, P0.
    apply Z.eqb_neq in Hst. rewrite Hst.
    rewrite work_pts_of_periods in Hreached. exact Hreached. }
  rewrite St, N, work_pts_of_periods, Hperiods, St, N, P1.
  rewrite F0.
  destruct (dest_pts s f - Ctx.pts1 s <? 0) eqn:Er.
  - split; [exact Hpts|]. split; [lia|]. intros _.
    rewrite periods_zero by lia. lia.
  - destruct (is_set (Ctx.f1 s)) eqn:E1.
    + destruct (Hok2 eq_refl) as (Hst & Hn & _).
      pose proof Hst as Hst'. apply Z.eqb_neq in Hst'. rewrite Hst'.
      split; [exact Hst|]. split; [exact Hn|].
      intros E. destruct (Ctx.f1 s); discriminate.
    + destruct (Hok3 eq_refl) as (Hst & Hn). rewrite Hst, Hn.
      rewrite Z.eqb_refl. split; [exact Hpts|]. split; [lia|]. intros _.
      rewrite periods_zero by lia. lia.
Qed.

(** A call that answers 0 leaves the window in order. *)
Lemma filter_frame_keeps_window {graph : FilterGraph} (fuel : nat)
    (s s' : Ctx.t) (f : Frame.t) (evs : list event) :
  window_ok s ->
  Ctx.flush s = false ->
  0 < period_den s <= period_num s ->
  dest_pts s f <> AV_NOPTS_VALUE ->
  filter_frame fuel s f = Some (0, s', evs) ->
  window_ok s'.
Proof.
  intros Hok Hfl Hper Hpts H.
  apply filter_frame_cases in H.
  destruct H as [(_ & -> & _)|(Hp & Hne & evs1 & Hloop & _)];
    [exact Hok|].
  pose proof (shifted_window s f Hok Hper Hpts Hne) as Hs. cbv zeta in Hs.
  set (s1 := fst (shift_window s f (dest_pts s f))) in *.
  destruct Hs as (Hper1 & F1 & Fl & Hwin & Hst & Hn & Hnone).
  destruct (output_loop_window fuel s1 s' 0 evs1)
    as (_ & Hcaught & Hmono & Hbut); [congruence|exact Hper1|exact Hloop|].
  destruct (output_loop_trace fuel s1 s' 0 evs1 Hloop) as (_ & Hn' & _).
  destruct (but_output_fields s1 s' Hbut)
    as (E0 & E1 & E2 & E3 & E4 & E5 & _).
  split; [|split].
  - rewrite E0, E1, E2, E3, E4. intros Hset.
    destruct (Hwin Hset) as (Hd & Hdpos & _).
    rewrite F1. split; [reflexivity|]. split; assumption.
  - intros _. rewrite E5, E3.
    split; [exact Hst|]. split; [lia|].
    destruct (is_set (Ctx.f0 s1)) eqn:Eset.
    + apply Hcaught; [reflexivity|reflexivity|rewrite F1; reflexivity].
    + specialize (Hnone eq_refl). lia.
  - rewrite E1, F1. discriminate.
Qed.

(** X15.  Between two calls the window is in order ([window_ok]); then,
    outside a flush, every frame a call of filter_frame passes on carries a
    timestamp from the timestamp of the older frame of the window up to, but
    not including, that of the newer one, so that its ratio lies between 0
    and the maximum; and a call that answers 0 leaves the window in order. *)
Theorem X15_filter_frame_outputs_in_window {graph : FilterGraph} (fuel : nat)
    (s s' : Ctx.t) (f : Frame.t) (ret : Z) (evs : list event) :
  window_ok s ->
  Ctx.flush s = false ->
  0 < period_den s <= period_num s ->
  dest_pts s f <> AV_NOPTS_VALUE ->
  filter_frame fuel s f = Some (ret, s', evs) ->
  Forall (fun w =>
            is_set (Ctx.f0 s') = true
            /\ Ctx.pts0 s' <= Frame.pts w < Ctx.pts1 s'
            /\ (0 <= Ctx.max s' ->
                0 <= av_rescale (Frame.pts w - Ctx.pts0 s') (Ctx.max s')
                                (Ctx.delta s')
                <= Ctx.max s'))
         (outputs evs)
  /\ (ret = 0 -> window_ok s').
Proof.
  intros Hok Hfl Hper Hpts H. split.
  2:{ intros ->. exact (filter_frame_keeps_window fuel s s' f evs
                          Hok Hfl Hper Hpts H). }
  apply filter_frame_cases in H.
  destruct H as [(_ & _ & -> & _)|(Hp & Hne & evs1 & Hloop & ->)];
    [constructor|].
  pose proof (shifted_window s f Hok Hper Hpts Hne) as Hs. cbv zeta in Hs.
  set (s1 := fst (shift_window s f (dest_pts s f))) in *.
  destruct Hs as (Hper1 & F1 & Fl & Hwin & _).
  destruct (output_loop_window fuel s1 s' ret evs1)
    as (Hall & _ & _ & Hbut); [congruence|exact Hper1|exact Hloop|].
  destruct (but_output_fields s1 s' Hbut)
    as (E0 & _ & E2 & E3 & E4 & _ & _ & E7 & _).
  eapply Forall_impl; [exact Hall|].
  intros w (Hset & Hlo & Hhi). cbn beta.
  destruct (Hwin Hset) as (Hd & Hdpos & Hfrom).
  rewrite E0, E2, E3, E4, E7.
  split; [exact Hset|]. split; [lia|].
  intros Hmax. apply ratio_in_window; lia.
Qed.

(** The second frame of a stream at 25 frames a second, output at 50: the
    outputs 0 and 1, between the timestamps 0 and 2 of the two frames. *)
Lemma X15_filter_frame_outputs_in_window_witness :
  let g := plain_graph 1 1 1 0 in
  let a := flat_frame 1 1 10 128 128 0 in
  let b := flat_frame 1 1 20 128 128 1 in
  let s := fst (shift_window (example_context [1; 1; 1; 0]) a 0) in
  option_map (fun evs => map Frame.pts (outputs evs))
             (events_of (@filter_frame g 3 s b)) = Some [0; 1]
  /\ match @filter_frame g 3 s b with
     | Some (ret, s', evs) =>
         Forall (fun w =>
                   is_set (Ctx.f0 s') = true
                   /\ Ctx.pts0 s' <= Frame.pts w < Ctx.pts1 s'
                   /\ (0 <= Ctx.max s' ->
                       0 <= av_rescale (Frame.pts w - Ctx.pts0 s')
                                       (Ctx.max s') (Ctx.delta s')
                       <= Ctx.max s'))
                (outputs evs)
         /\ (ret = 0 -> window_ok s')
     | None => False
     end.
Proof.
  intros g a b s. split; [vm_compute; reflexivity|].
  assert (Hrun : is_set (@filter_frame g 3 s b) = true)
    by (vm_compute; reflexivity).
  destruct (@filter_frame g 3 s b) as [[[ret s'] evs]|] eqn:E;
    [|discriminate Hrun].
  apply (@X15_filter_frame_outputs_in_window g 3 s s' b ret evs).
  - split; [|split].
    + intros H. vm_compute in H. discriminate H.
    + intros _. split; [vm_compute; discriminate|].
      split; apply Z.leb_le; vm_compute; reflexivity.
    + intros H. vm_compute in H. discriminate H.
  - reflexivity.
  - split; [apply Z.ltb_lt|apply Z.leb_le]; vm_compute; reflexivity.
  - vm_compute. discriminate.
  - exact E.
Defined.

Lemma emit_work_with_frame (work_pts : Z) (s : Ctx.t) :
  is_set (Ctx.work s) = true -> fst (emit_work work_pts s) = 1.
Proof. unfold emit_work. destruct (Ctx.work s); [reflexivity|discriminate]. Qed.

Lemma process_work_frame_with_memory {graph : FilterGraph} (s : Ctx.t) :
  (forall fr, is_set (av_frame_clone fr) = true) ->
  is_set (ff_get_video_buffer outlink_w outlink_h) = true ->
  fst (process_work_frame s) <> AVERROR_ENOMEM.
Proof.
  intros Hclone Hbuf.
  assert (Hemit : forall p fr (a : Ctx.t),
    fst (emit_work p (Ctx.set_work (av_frame_clone fr) a)) <> AVERROR_ENOMEM).
  { intros p fr a. rewrite emit_work_with_frame; [discriminate|].
    cbn. apply Hclone. }
  unfold process_work_frame.
  destruct (Ctx.f1 s) as [fr1|]; [|cbn; discriminate].
  destruct (negb (is_set (Ctx.f0 s)) && negb (Ctx.flush s));
    [cbn; discriminate|].
  destruct ((work_pts_of s >=? Ctx.pts1 s) && negb (Ctx.flush s));
    [cbn; discriminate|].
  destruct (Ctx.f0 s) as [fr0|] eqn:E0; [|apply Hemit].
  destruct ((work_pts_of s >=? Ctx.pts1 s + Ctx.delta s) && Ctx.flush s);
    [cbn; discriminate|].
  destruct (_ >? Ctx.interp_end s); [apply Hemit|].
  destruct (_ <? Ctx.interp_start s); [apply Hemit|].
  match goal with
  | |- context [blend_frames s ?i] =>
      pose proof (blend_frames_result s i) as Hr;
      assert (Hb : fst (blend_frames s i) <> AVERROR_ENOMEM);
      [|destruct (blend_frames s i) as [ret s1]]
  end.
  { unfold blend_frames. rewrite E0.
    destruct (Ctx.f1 s); [|cbn; discriminate].
    destruct (if negb _ then _ else _) as [sc s1].
    destruct (fp_lt sc (Ctx.scene_score s1)); [|cbn; discriminate].
    destruct (ff_get_video_buffer outlink_w outlink_h); [|discriminate].
    cbn. discriminate. }
  cbn [fst] in Hb. destruct Hr as [_ [->|[[-> Hw]| ->]]].
  - cbn. apply Hemit.
  - cbn. rewrite emit_work_with_frame by exact Hw. discriminate.
  - contradiction.
Qed.

Lemma output_loop_never_fails {graph : FilterGraph} (fuel : nat) :
  never_fails graph ->
  forall (s s' : Ctx.t) (ret : Z) (evs : list event),
    output_loop fuel s = Some (ret, s', evs) -> ret = 0.
Proof.
  intros (Hclone & Hbuf & Hsink).
  induction fuel as [|fuel IH]; intros s s' ret evs H; [discriminate|].
  apply output_loop_step in H.
  destruct H as [(_ & -> & _)|[(_ & Hp & _)|(_ & s1 & w & _ & _ & _ & H)]].
  - reflexivity.
  - exfalso. apply (process_work_frame_with_memory s Hclone Hbuf).
    rewrite Hp. reflexivity.
  - destruct H as [(Hneg & _)|(_ & evs2 & Hloop & _)].
    + specialize (Hsink w). lia.
    + exact (IH _ _ _ _ Hloop).
Qed.

Lemma filter_frame_never_fails {graph : FilterGraph} (fuel : nat)
    (s s' : Ctx.t) (f : Frame.t) (ret : Z) (evs : list event) :
  never_fails graph ->
  filter_frame fuel s f = Some (ret, s', evs) -> ret = 0.
Proof.
  intros Hnf H. apply filter_frame_cases in H.
  destruct H as [(-> & _)|(_ & _ & evs1 & Hloop & _)]; [reflexivity|].
  exact (output_loop_never_fails fuel Hnf _ _ _ _ Hloop).
Qed.

Lemma filter_frame_time_bases {graph : FilterGraph} (fuel : nat)
    (s s' : Ctx.t) (f : Frame.t) (ret : Z) (evs : list event) :
  filter_frame fuel s f = Some (ret, s', evs) ->
  Ctx.srce_time_base s' = Ctx.srce_time_base s
  /\ Ctx.dest_time_base s' = Ctx.dest_time_base s
  /\ Ctx.dest_frame_rate s' = Ctx.dest_frame_rate s
  /\ Ctx.flush s' = Ctx.flush s.
Proof.
  intros H. pose proof (filter_frame_config fuel s s' f ret evs H)
    as (Er & Et & Efl).
  apply filter_frame_cases in H.
  destruct H as [(_ & -> & _)|(_ & _ & evs1 & Hloop & _)]; [auto|].
  destruct (output_loop_trace fuel _ _ _ _ Hloop) as (Hbut & _).
  destruct (but_output_fields _ _ Hbut)
    as (_ & _ & _ & _ & _ & _ & _ & _ & _ & _ & _ & Es & _).
  destruct (shift_window_config s f (dest_pts s f))
    as (_ & _ & _ & _ & _ & Es').
  repeat split; try assumption. congruence.
Qed.

(** X16.  In a graph in which nothing fails every call of filter_frame
    answers 0, so that the window stays in order from call to call: what the
    window is at the beginning of a stream ([window_ok]) it is after every
    frame of the stream, discontinuities and dropped frames included. *)
Theorem X16_run_keeps_window {graph : FilterGraph} (s : Ctx.t)
    (frames : list Frame.t) :
  never_fails graph ->
  window_ok s ->
  Ctx.flush s = false ->
  0 < period_den s <= period_num s ->
  Forall (fun f => dest_pts s f <> AV_NOPTS_VALUE) frames ->
  (forall fuel s1 f ret evs,
      filter_frame fuel s f = Some (ret, s1, evs) -> ret = 0)
  /\ (forall fuel s' evs,
         run fuel s frames = Some (s', evs) ->
         window_ok s' /\ Ctx.flush s' = false).
Proof.
  intros Hnf Hok Hfl Hper Hpts. split.
  { intros fuel s1 f ret evs H. exact (filter_frame_never_fails _ _ _ _ _ _ Hnf H). }
  intros fuel. revert s Hok Hfl Hper Hpts.
  induction frames as [|f rest IH]; intros s Hok Hfl Hper Hpts s' evs H.
  { cbn in H. injection H as <- <-. split; assumption. }
  cbn in H.
  destruct (filter_frame fuel s f) as [[[r1 s1] evs1]|] eqn:E1;
    [|discriminate].
  destruct (run fuel s1 rest) as [[s2 evs2]|] eqn:E2; [|discriminate].
  injection H as <- <-.
  inversion Hpts as [|? ? Hf Hrest]; subst.
  pose proof (filter_frame_never_fails _ _ _ _ _ _ Hnf E1) as ->.
  pose proof (filter_frame_keeps_window fuel s s1 f evs1
                Hok Hfl Hper Hf E1) as Hok1.
  destruct (filter_frame_time_bases fuel s s1 f 0 evs1 E1)
    as (Es & Et & Er & Efl).
  apply (fun a b c d => IH s1 a b c d s2 evs2 E2); try assumption.
  - congruence.
  - unfold period_den, period_num. rewrite Er, Et. exact Hper.
  - eapply Forall_impl; [exact Hrest|]. intros g Hg. cbn beta.
    rewrite (dest_pts_ext s1 s g Es Et). exact Hg.
Qed.

(** A filter fresh from its set-up and three frames, in a graph in which
    nothing fails. *)
Lemma X16_run_keeps_window_witness :
  let g := plain_graph 1 1 1 0 in
  let s := example_context [1; 1; 1; 0] in
  let frames := [flat_frame 1 1 10 128 128 0; flat_frame 1 1 20 128 128 1;
                 flat_frame 1 1 30 128 128 2] in
  option_map (fun r => (Ctx.pts0 (fst r), Ctx.pts1 (fst r),
                        work_pts_of (fst r)))
             (@run g 3 s frames) = Some (2, 4, 4)
  /\ (forall fuel s1 f ret evs,
         @filter_frame g fuel s f = Some (ret, s1, evs) -> ret = 0)
  /\ (forall fuel s' evs,
         @run g fuel s frames = Some (s', evs) ->
         window_ok s' /\ Ctx.flush s' = false).
Proof.
  intros g s frames. split; [vm_compute; reflexivity|].
  apply (@X16_run_keeps_window g s frames).
  - split; [intros f; reflexivity|]. split; [reflexivity|].
    intros w. cbn. lia.
  - split; [|split].
    + intros H. vm_compute in H. discriminate H.
    + intros H. vm_compute in H. discriminate H.
    + intros _. split; reflexivity.
  - reflexivity.
  - split; [apply Z.ltb_lt|apply Z.leb_le]; vm_compute; reflexivity.
  - repeat constructor; vm_compute; discriminate.
Defined.

(** A candidate on the timestamp of the older frame. *)
Lemma process_work_frame_on_older {graph : FilterGraph} (s : Ctx.t)
    (fr0 fr1 : Frame.t) :
  Ctx.f0 s = Some fr0 -> Ctx.f1 s = Some fr1 ->
  work_pts_of s = Ctx.pts0 s ->
  0 < Ctx.delta s -> Ctx.delta s = Ctx.pts1 s - Ctx.pts0 s ->
  0 <= Ctx.max s -> 0 < Ctx.interp_start s -> 0 <= Ctx.interp_end s ->
  process_work_frame s
  = emit_work (Ctx.pts0 s) (Ctx.set_work (av_frame_clone fr0) s).
Proof.
  intros H0 H1 Hwp Hd Hdelta Hmax Hstart Hend.
  unfold process_work_frame. rewrite H0, H1, Hwp. cbn [is_set negb andb].
  assert (E1 : (Ctx.pts0 s >=? Ctx.pts1 s) = false).
  { rewrite Z.geb_leb. apply Z.leb_gt. lia. }
  assert (E2 : (Ctx.pts0 s >=? Ctx.pts1 s + Ctx.delta s) = false).
  { rewrite Z.geb_leb. apply Z.leb_gt. lia. }
  rewrite E1, E2. cbn [andb].
  rewrite Z.sub_diag.
  assert (E3 : av_rescale 0 (Ctx.max s) (Ctx.delta s) = 0).
  { unfold av_rescale. rewrite av_rescale_rnd_nonneg by lia.
    rewrite Z.mul_0_l, Z.add_0_l. apply Z.div_small. split.
    - apply Z.div_pos; lia.
    - apply Z.div_lt; lia. }
  rewrite E3. change (to_int 0) with 0.
  assert (E4 : (0 >? Ctx.interp_end s) = false).
  { rewrite Z.gtb_ltb. apply Z.ltb_ge. lia. }
  assert (E5 : (0 <? Ctx.interp_start s) = true) by (apply Z.ltb_lt; lia).
  rewrite E4, E5. reflexivity.
Qed.

(** X17.  A candidate that falls on the timestamp of the older frame of the
    window is that frame: with a positive [interp_start] the output is a new
    reference to f0 that carries the candidate timestamp, whatever the scene
    detector would say, in a flush too. *)
Theorem X17_candidate_on_older_frame {graph : FilterGraph} (s : Ctx.t)
    (fr0 fr1 : Frame.t) :
  Ctx.f0 s = Some fr0 -> Ctx.f1 s = Some fr1 ->
  work_pts_of s = Ctx.pts0 s ->
  0 < Ctx.delta s -> Ctx.delta s = Ctx.pts1 s - Ctx.pts0 s ->
  0 <= Ctx.max s -> 0 < Ctx.interp_start s -> 0 <= Ctx.interp_end s ->
  is_set (av_frame_clone fr0) = true ->
  process_work_frame s
  = (1, Ctx.set_n (Ctx.n s + 1)
          (Ctx.set_work (Some (Frame.set_pts (Ctx.pts0 s) fr0)) s)).
Proof.
  intros H0 H1 Hwp Hd Hdelta Hmax Hstart Hend Hclone.
  rewrite (process_work_frame_on_older s fr0 fr1) by assumption.
  destruct (av_frame_clone fr0) as [g|] eqn:Eg; [|discriminate].
  apply av_frame_clone_ref in Eg. subst g. reflexivity.
Qed.

(** The window after two frames at the destination timestamps 0 and 2,
    before any output: the first candidate is the timestamp 0. *)
Lemma X17_candidate_on_older_frame_witness :
  let g := plain_graph 1 1 1 0 in
  let a := flat_frame 1 1 10 100 100 0 in
  let b := flat_frame 1 1 200 100 100 1 in
  let s := fst (shift_window
                  (fst (shift_window (example_context [1; 1; 1; 0]) a 0))
                  b 2) in
  option_map luma (Ctx.work (snd (@process_work_frame g s))) = Some [10]
  /\ @process_work_frame g s
     = (1, Ctx.set_n (Ctx.n s + 1)
             (Ctx.set_work (Some (Frame.set_pts (Ctx.pts0 s) a)) s)).
Proof.
  intros g a b s. split; [vm_compute; reflexivity|].
  apply (@X17_candidate_on_older_frame g s a b); try reflexivity;
    try (apply Z.ltb_lt; vm_compute; reflexivity);
    try (apply Z.leb_le; vm_compute; reflexivity).
Defined.

(** X18.  The first output of a stream is its first frame: when the first two
    frames with distinct, rising timestamps have arrived at a filter fresh
    from its set-up (with a positive [interp_start]), the first frame passed
    on is a new reference to the first input, at its own timestamp in the
    destination time base. *)
Theorem X18_first_output_is_first_input {graph : FilterGraph} (s : Ctx.t)
    (a b : Frame.t) :
  window_ok s -> Ctx.f1 s = None -> Ctx.flush s = false ->
  0 < period_den s <= period_num s ->
  0 <= Ctx.max s -> 0 < Ctx.interp_start s -> 0 <= Ctx.interp_end s ->
  Frame.pts a <> AV_NOPTS_VALUE -> Frame.pts b <> AV_NOPTS_VALUE ->
  dest_pts s a <> AV_NOPTS_VALUE ->
  dest_pts s a < dest_pts s b ->
  is_set (av_frame_clone a) = true ->
  forall fuel s' evs,
    run fuel s [a; b] = Some (s', evs) ->
    exists rest, outputs evs = Frame.set_pts (dest_pts s a) a :: rest.
Proof.
  intros Hok Hf1 Hfl Hper Hmax Hstart Hend Hpa Hpb Hda Hlt Hclone
         fuel s' evs H.
  cbn in H.
  destruct (filter_frame fuel s a) as [[[r1 s1] evs1]|] eqn:E1;
    [|discriminate].
  destruct (filter_frame fuel s1 b) as [[[r2 s2] evs2]|] eqn:E2;
    [|discriminate].
  injection H as <- <-. rewrite app_nil_r, outputs_app.
  destruct Hok as (Hok1 & _ & Hok3).
  assert (Hnone : is_set (Ctx.f1 s) = false) by (rewrite Hf1; reflexivity).
  destruct (Hok3 Hnone) as (Hst & Hn).
  (* the first call *)
  pose proof (filter_frame_time_bases fuel s s1 a r1 evs1 E1)
    as (Es & Et & Er & Efl).
  apply filter_frame_cases in E1.
  destruct E1 as [(_ & _ & _ & [Hbad|[Hbad _]])|(_ & _ & ev1 & Hloop1 & Hout1)];
    [contradiction|congruence|].
  pose proof (shift_window_fields s a (dest_pts s a)) as Hs.
  pose proof (shift_window_config s a (dest_pts s a)) as Hc.
  set (sa := fst (shift_window s a (dest_pts s a))) in *. cbv zeta in Hs, Hc.
  destruct Hs as (F1 & P1 & _ & _ & Fl & F0 & N & St & _).
  destruct Hc as (Cmax & Cst & Cend & _).
  assert (F0' : Ctx.f0 sa = None).
  { rewrite F0, Hf1. destruct (_ <? 0); reflexivity. }
  assert (N' : Ctx.n sa = 0).
  { rewrite N, Hn. destruct (_ <? 0); reflexivity. }
  assert (St' : Ctx.start_pts sa = dest_pts s a).
  { rewrite St, Hst, Z.eqb_refl. destruct (_ <? 0); reflexivity. }
  assert (Hidle : candidate_due sa = false).
  { unfold candidate_due. rewrite F0', F1, Fl, Hfl. reflexivity. }
  destruct fuel as [|fuel]; [discriminate|].
  apply output_loop_step in Hloop1.
  destruct Hloop1 as [(_ & -> & -> & ->)|[(Hd & _)|(Hd & _)]];
    [|congruence|congruence].
  rewrite Hout1. cbn [outputs omap app].
  (* the second call *)
  assert (Hdb : dest_pts sa b = dest_pts s b) by (apply dest_pts_ext; assumption).
  apply filter_frame_cases in E2.
  destruct E2 as [(_ & _ & _ & [Hbad|[_ Hbad]])|(_ & _ & ev2 & Hloop2 & Hout2)];
    [contradiction|rewrite Hdb, P1 in Hbad; lia|].
  rewrite Hdb in Hloop2.
  pose proof (shift_window_fields sa b (dest_pts s b)) as Hs.
  pose proof (shift_window_config sa b (dest_pts s b)) as Hc.
  set (sb := fst (shift_window sa b (dest_pts s b))) in *. cbv zeta in Hs, Hc.
  destruct Hs as (G1 & Q1 & Q0 & D & Gl & G0 & M & Tt & _).
  destruct Hc as (Dmax & Dst & Dend & Drate & Dtb & _).
  assert (Hreset : (dest_pts s b - Ctx.pts1 sa <? 0) = false).
  { apply Z.ltb_ge. rewrite P1. lia. }
  rewrite Hreset in *. rewrite F1 in G0. rewrite N' in M.
  rewrite St' in Tt. apply Z.eqb_neq in Hda. rewrite Hda in Tt.
  apply Z.eqb_neq in Hda.
  assert (Hwp : work_pts_of sb = Ctx.pts0 sb).
  { rewrite work_pts_of_periods, Tt, M, Q0, P1.
    rewrite periods_zero; [lia| |].
    - unfold period_den. rewrite Drate, Dtb.
      destruct (shift_window_config s a (dest_pts s a))
        as (_ & _ & _ & Ar & At & _).
      fold sa in Ar, At. rewrite Ar, At. apply Hper.
    - unfold period_num. rewrite Drate, Dtb.
      destruct (shift_window_config s a (dest_pts s a))
        as (_ & _ & _ & Ar & At & _).
      fold sa in Ar, At. rewrite Ar, At.
      unfold period_den, period_num in Hper. lia. }
  assert (Hproc : process_work_frame sb
                  = (1, Ctx.set_n (Ctx.n sb + 1)
                          (Ctx.set_work
                             (Some (Frame.set_pts (Ctx.pts0 sb) a)) sb))).
  { rewrite (process_work_frame_on_older sb a b); try assumption;
      try (rewrite ?D, ?Q0, ?Q1, ?P1; lia);
      try (rewrite ?Dmax, ?Dst, ?Dend, ?Cmax, ?Cst, ?Cend; assumption).
    destruct (av_frame_clone a) as [g|] eqn:Eg; [|discriminate].
    apply av_frame_clone_ref in Eg. subst g. reflexivity. }
  assert (Hdue : candidate_due sb = true).
  { unfold candidate_due. rewrite G1, G0, Gl, Fl, Hfl. cbn.
    apply Z.ltb_lt. rewrite Hwp, Q0, Q1, P1. lia. }
  apply output_loop_step in Hloop2.
  destruct Hloop2 as [(Hbad & _)|[(_ & Hbad & _)|(_ & s3 & w & Hp & Hw & _ & Hrest)]].
  - congruence.
  - rewrite Hproc in Hbad. discriminate.
  - rewrite Hproc in Hp. injection Hp as <-. cbn in Hw. injection Hw as <-.
    rewrite Hout2.
    destruct Hrest as [(_ & _ & _ & ->)|(_ & evs3 & _ & ->)].
    + exists []. cbn. rewrite Q0, P1. reflexivity.
    + exists (outputs evs3). cbn. rewrite Q0, P1. reflexivity.
Qed.

Lemma X18_first_output_is_first_input_witness :
  let g := plain_graph 1 1 1 0 in
  let s := example_context [1; 1; 1; 0] in
  let a := flat_frame 1 1 10 128 128 0 in
  let b := flat_frame 1 1 200 128 128 1 in
  option_map (fun r => map (fun w => (Frame.pts w, luma w)) (outputs (snd r)))
             (@run g 3 s [a; b]) = Some [(0, [10]); (1, [105])]
  /\ forall fuel s' evs,
       @run g fuel s [a; b] = Some (s', evs) ->
       exists rest, outputs evs = Frame.set_pts (dest_pts s a) a :: rest.
Proof.
  intros g s a b. split; [vm_compute; reflexivity|].
  apply (@X18_first_output_is_first_input g s a b).
  - split; [|split].
    + intros H. vm_compute in H. discriminate H.
    + intros H. vm_compute in H. discriminate H.
    + intros _. split; reflexivity.
  - reflexivity.
  - reflexivity.
  - split; [apply Z.ltb_lt|apply Z.leb_le]; vm_compute; reflexivity.
  - apply Z.leb_le; vm_compute; reflexivity.
  - apply Z.ltb_lt; vm_compute; reflexivity.
  - apply Z.leb_le; vm_compute; reflexivity.
  - vm_compute. discriminate.
  - vm_compute. discriminate.
  - vm_compute. discriminate.
  - apply Z.ltb_lt; vm_compute; reflexivity.
  - reflexivity.
Defined.

Lemma flushing_loop {graph : FilterGraph} (fuel : nat) :
  (forall fr, is_set (av_frame_clone fr) = true) ->
  (forall w, 0 <= ff_filter_frame w) ->
  forall s : Ctx.t,
    Ctx.flush s = true -> Ctx.f0 s = None -> is_set (Ctx.f1 s) = true ->
    output_loop fuel s = None.
Proof.
  intros Hclone Hsink.
  induction fuel as [|fuel IH]; intros s Hfl H0 H1; [reflexivity|].
  cbn. unfold process_work_frame.
  destruct (Ctx.f1 s) as [fr1|] eqn:E1; [|discriminate].
  rewrite H0, Hfl. cbn [is_set negb andb].
  rewrite andb_false_r.
  specialize (Hclone fr1).
  destruct (av_frame_clone fr1) as [g|]; [|discriminate].
  cbn. specialize (Hsink (Frame.set_pts (work_pts_of s) g)).
  assert (E : (ff_filter_frame (Frame.set_pts (work_pts_of s) g) >=? 0)
              = true).
  { rewrite Z.geb_leb. apply Z.leb_le. exact Hsink. }
  rewrite E. rewrite IH; [reflexivity| | |]; cbn; try assumption.
  rewrite E1. reflexivity.
Qed.

(** X19.  A frame that arrives while the filter is flushing, and that leaves
    the window without an older frame (the first frame, or one with an
    earlier timestamp than the last), sends the loop of filter_frame round
    without end: every turn passes a reference to that frame on and no test
    stops it, as long as there is memory and the output link takes the
    frames. *)
Theorem X19_flushing_filter_frame_never_returns {graph : FilterGraph} (s : Ctx.t)
    (f : Frame.t) :
  Ctx.flush s = true ->
  Frame.pts f <> AV_NOPTS_VALUE ->
  (is_set (Ctx.f1 s) = true -> dest_pts s f < Ctx.pts1 s) ->
  (forall fr, is_set (av_frame_clone fr) = true) ->
  (forall w, 0 <= ff_filter_frame w) ->
  forall fuel, filter_frame fuel s f = None.
Proof.
  intros Hfl Hp Hreset Hclone Hsink fuel. unfold filter_frame.
  apply Z.eqb_neq in Hp. rewrite Hp. fold (dest_pts s f).
  assert (Hkeep : is_set (Ctx.f1 s) && (dest_pts s f =? Ctx.pts1 s) = false).
  { destruct (is_set (Ctx.f1 s)) eqn:E; [|reflexivity].
    specialize (Hreset eq_refl). cbn. apply Z.eqb_neq. lia. }
  rewrite Hkeep.
  pose proof (shift_window_fields s f (dest_pts s f)) as Hs.
  destruct (shift_window s f (dest_pts s f)) as [s1 log1].
  cbn [fst snd] in Hs.
  destruct Hs as (F1 & _ & _ & _ & Fl & F0 & _).
  rewrite (flushing_loop fuel Hclone Hsink s1); [reflexivity| | |].
  - congruence.
  - rewrite F0. destruct (dest_pts s f - Ctx.pts1 s <? 0) eqn:E;
      [reflexivity|].
    destruct (Ctx.f1 s) as [fr|] eqn:E1; [|reflexivity].
    specialize (Hreset eq_refl). apply Z.ltb_ge in E. lia.
  - rewrite F1. reflexivity.
Qed.

(** A frame with an earlier timestamp after the flush has begun. *)
Lemma X19_flushing_filter_frame_never_returns_witness :
  let g := plain_graph 1 1 1 0 in
  let a := flat_frame 1 1 10 128 128 5 in
  let b := flat_frame 1 1 20 128 128 1 in
  let s := Ctx.set_flush true
             (fst (shift_window (example_context [1; 1; 1; 0]) a 10)) in
  (Ctx.flush s = true /\ dest_pts s b = 2 /\ Ctx.pts1 s = 10)
  /\ forall fuel, @filter_frame g fuel s b = None.
Proof.
  intros g a b s. split; [vm_compute; repeat split|].
  apply (@X19_flushing_filter_frame_never_returns g s b).
  - reflexivity.
  - vm_compute. discriminate.
  - intros _. apply Z.ltb_lt. vm_compute. reflexivity.
  - intros fr. reflexivity.
  - intros w. cbn. lia.
Defined.

(** X20.  A frame that arrives before the next candidate is due is taken
    into the window and nothing else happens: the call answers 0 without an
    output, the counter stays, and the frame that was the newer one becomes
    the older one.  This is how frames are left out when the output rate is
    the lower one. *)
Theorem X20_early_frame_makes_no_output {graph : FilterGraph} (fuel : nat)
    (s : Ctx.t) (f : Frame.t) :
  Frame.pts f <> AV_NOPTS_VALUE ->
  is_set (Ctx.f1 s) = true ->
  Ctx.flush s = false ->
  Ctx.start_pts s <> AV_NOPTS_VALUE ->
  Ctx.pts1 s < dest_pts s f <= work_pts_of s ->
  exists s' evs,
    filter_frame (S fuel) s f = Some (0, s', evs)
    /\ outputs evs = []
    /\ Ctx.n s' = Ctx.n s /\ work_pts_of s' = work_pts_of s
    /\ Ctx.f0 s' = Ctx.f1 s /\ Ctx.f1 s' = Some f
    /\ Ctx.pts0 s' = Ctx.pts1 s /\ Ctx.pts1 s' = dest_pts s f.
Proof.
  intros Hp Hset Hfl Hst Hearly. unfold filter_frame.
  set (log0 := if Frame.interlaced_frame f then [Warn WInterlaced] else []).
  assert (Hlog0 : outputs log0 = [])
    by (subst log0; destruct (Frame.interlaced_frame f); reflexivity).
  apply Z.eqb_neq in Hp. rewrite Hp. fold (dest_pts s f).
  assert (Hkeep : is_set (Ctx.f1 s) && (dest_pts s f =? Ctx.pts1 s) = false).
  { rewrite Hset. cbn. apply Z.eqb_neq. lia. }
  rewrite Hkeep.
  pose proof (shift_window_fields s f (dest_pts s f)) as Hs.
  pose proof (shift_window_config s f (dest_pts s f)) as Hc.
  destruct (shift_window s f (dest_pts s f)) as [s1 log1].
  cbn [fst snd] in Hs, Hc. cbv zeta in Hs, Hc.
  assert (Hreset : (dest_pts s f - Ctx.pts1 s <? 0) = false)
    by (apply Z.ltb_ge; lia).
  rewrite Hreset in Hs. apply Z.eqb_neq in Hst. rewrite Hst in Hs.
  destruct Hs as (F1 & P1 & P0 & _ & Fl & F0 & N & St & Hlog).
  destruct Hc as (_ & _ & _ & Er & Et & _).
  assert (Hwp : work_pts_of s1 = work_pts_of s).
  { unfold work_pts_of. rewrite St, N, Er, Et. reflexivity. }
  assert (Hidle : candidate_due s1 = false).
  { unfold candidate_due. rewrite F1, Fl, Hfl, F0, Hset, P1, Hwp. cbn.
    apply Z.ltb_ge. lia. }
  cbn [output_loop]. rewrite (process_work_frame_idle s1 Hidle). cbn.
  exists s1, (log0 ++ log1 ++ []). split; [reflexivity|].
  rewrite !outputs_app, Hlog0, Hlog. repeat split; assumption.
Qed.

(** Frames at 50 a second into a filter for 25: the second frame arrives
    before the next output, at the timestamp 2, is due. *)
Lemma X20_early_frame_makes_no_output_witness :
  let g := plain_graph 1 1 1 0 in
  let a := flat_frame 1 1 10 128 128 0 in
  let b := flat_frame 1 1 20 128 128 1 in
  let s0 := fst (config_output no_approximation
                   (config_input
                      (init (new_context (AVRational.mk 25 1) 15 240
                                         scene_default 1))
                      8 0 [1; 1; 1; 0] (AVRational.mk 1 50))) in
  let s := Ctx.set_n 1 (fst (shift_window s0 a 0)) in
  (dest_pts s b = 1 /\ work_pts_of s = 2)
  /\ exists s' evs,
       @filter_frame g 1 s b = Some (0, s', evs)
       /\ outputs evs = []
       /\ Ctx.n s' = Ctx.n s /\ work_pts_of s' = work_pts_of s
       /\ Ctx.f0 s' = Ctx.f1 s /\ Ctx.f1 s' = Some b
       /\ Ctx.pts0 s' = Ctx.pts1 s /\ Ctx.pts1 s' = dest_pts s b.
Proof.
  intros g a b s0 s. split; [split; vm_compute; reflexivity|].
  apply (@X20_early_frame_makes_no_output g 0 s b).
  - vm_compute. discriminate.
  - reflexivity.
  - reflexivity.
  - vm_compute. discriminate.
  - split; [apply Z.ltb_lt|apply Z.leb_le]; vm_compute; reflexivity.
Defined.

(** ** More on the set-up *)

(** X21.  config_input brings the two thresholds, given on the scale of 8
    bits, to the scale of the depth: they are the parameters times
    [2 ^ (depth - 8)], in the order of the parameters, and below the maximum
    [2 ^ depth].  A ratio between them gives the two sources weights from 0
    to the maximum, the older frame a positive one: the [uint16_t] factors
    of the blend never wrap. *)
Theorem X21_config_input_scales_thresholds (s : Ctx.t) (depth log2_chroma_h : Z)
    (line_sizes : list Z) (time_base : AVRational.t) :
  8 <= depth <= 12 ->
  0 <= Ctx.interp_start_param s <= 255 ->
  0 <= Ctx.interp_end_param s <= 255 ->
  let s' := config_input s depth log2_chroma_h line_sizes time_base in
  Ctx.max s' = 2 ^ depth
  /\ Ctx.interp_start s' = Ctx.interp_start_param s * 2 ^ (depth - 8)
  /\ Ctx.interp_end s' = Ctx.interp_end_param s * 2 ^ (depth - 8)
  /\ (Ctx.interp_start_param s <= Ctx.interp_end_param s ->
      Ctx.interp_start s' <= Ctx.interp_end s')
  /\ (forall ratio,
         Ctx.interp_start s' <= ratio <= Ctx.interp_end s' ->
         u16 ratio = ratio
         /\ u16 (Ctx.max s' - u16 ratio) = Ctx.max s' - ratio
         /\ 0 <= ratio < Ctx.max s'
         /\ 0 < Ctx.max s' - ratio <= Ctx.max s').
Proof.
  intros Hd Hs He. cbv zeta. unfold config_input.
  cbn [Ctx.interp_start Ctx.interp_end Ctx.max].
  rewrite !Z.shiftl_mul_pow2 by lia. rewrite Z.mul_1_l.
  assert (Hpow : 2 ^ depth = 256 * 2 ^ (depth - 8)).
  { replace depth with (8 + (depth - 8)) at 1 by lia.
    rewrite Z.pow_add_r by lia. reflexivity. }
  assert (Hp : 0 < 2 ^ (depth - 8)) by (apply Z.pow_pos_nonneg; lia).
  assert (Hle : 2 ^ depth <= 2 ^ 12) by (apply Z.pow_le_mono_r; lia).
  change (2 ^ 12) with 4096 in Hle.
  split; [reflexivity|]. split; [reflexivity|]. split; [reflexivity|].
  split; [intros Hord; nia|].
  intros ratio Hr.
  assert (Hrange : 0 <= ratio < 2 ^ depth) by nia.
  rewrite (u16_small ratio) by (change (2 ^ 16) with 65536; lia).
  rewrite u16_small by (change (2 ^ 16) with 65536; lia).
  repeat split; lia.
Qed.

Lemma X21_config_input_scales_thresholds_witness :
  let s := init (new_context (AVRational.mk 50 1) 15 240 scene_default 1) in
  let s' := config_input s 10 1 [8; 4; 4; 0] (AVRational.mk 1 25) in
  (Ctx.interp_start s' = 60 /\ Ctx.interp_end s' = 960)
  /\ Ctx.max s' = 2 ^ 10
  /\ Ctx.interp_start s' = Ctx.interp_start_param s * 2 ^ (10 - 8)
  /\ Ctx.interp_end s' = Ctx.interp_end_param s * 2 ^ (10 - 8)
  /\ (Ctx.interp_start_param s <= Ctx.interp_end_param s ->
      Ctx.interp_start s' <= Ctx.interp_end s')
  /\ (forall ratio,
         Ctx.interp_start s' <= ratio <= Ctx.interp_end s' ->
         u16 ratio = ratio
         /\ u16 (Ctx.max s' - u16 ratio) = Ctx.max s' - ratio
         /\ 0 <= ratio < Ctx.max s'
         /\ 0 < Ctx.max s' - ratio <= Ctx.max s').
Proof.
  intros s s'. split; [split; reflexivity|].
  apply (X21_config_input_scales_thresholds s 10 1 [8; 4; 4; 0]
           (AVRational.mk 1 25)); cbn; lia.
Defined.

(** The two clocks in ticks of the destination time base, when it is
    exact. *)
Lemma config_output_ticks (best_effort : Z -> Z -> Z -> AVRational.t)
    (s : Ctx.t) :
  0 < AVRational.num (Ctx.srce_time_base s) ->
  0 < AVRational.den (Ctx.srce_time_base s) ->
  0 < AVRational.num (Ctx.dest_frame_rate s) ->
  0 < AVRational.den (Ctx.dest_frame_rate s) ->
  snd (config_output best_effort s) = [] ->
  let s' := fst (config_output best_effort s) in
  let a := AVRational.num (Ctx.srce_time_base s)
           * AVRational.num (Ctx.dest_frame_rate s) in
  let b := AVRational.den (Ctx.srce_time_base s)
           * AVRational.den (Ctx.dest_frame_rate s) in
  let k := a / Z.gcd a b in
  let d := b / Z.gcd a b in
  0 < k /\ 0 < d
  /\ (forall f, dest_pts s' f = Frame.pts f * k)
  /\ (forall n, periods s' n = n * d).
Proof.
  intros Hsn Hsd Hrn Hrd Hexact. cbv zeta.
  pose proof (config_output_period best_effort s Hsn Hsd Hrn Hrd Hexact)
    as Hper.
  cbv zeta in Hper. destruct Hper as [Hper Hmod].
  destruct (config_output_cases best_effort s)
    as [(_ & _ & _ & Htb)|(Hw & _)]; [|congruence].
  cbv zeta in Htb.
  destruct (config_output_rates best_effort s) as [Hsrce Hrate].
  unfold dest_pts, periods, av_rescale_q, av_inv_q.
  unfold period_den, period_num in Hper, Hmod.
  rewrite Htb, ?Hsrce, ?Hrate in *. clear Hexact Htb Hsrce Hrate.
  cbn [AVRational.num AVRational.den] in *.
  set (sn := AVRational.num (Ctx.srce_time_base s)) in *.
  set (sd := AVRational.den (Ctx.srce_time_base s)) in *.
  set (rn := AVRational.num (Ctx.dest_frame_rate s)) in *.
  set (rd := AVRational.den (Ctx.dest_frame_rate s)) in *.
  set (g := Z.gcd (sn * rn) (sd * rd)) in *.
  set (G := Z.gcd g (sd * rn)) in *.
  assert (Hg : 0 < g).
  { pose proof (Z.gcd_nonneg (sn * rn) (sd * rd)).
    assert (g <> 0); [|lia]. intros E. apply Z.gcd_eq_0_l in E. nia. }
  assert (HG : 0 < G).
  { pose proof (Z.gcd_nonneg g (sd * rn)).
    assert (G <> 0); [|lia]. intros E. apply Z.gcd_eq_0_l in E. lia. }
  destruct (Z.gcd_divide_l (sn * rn) (sd * rd)) as [k Hk]. fold g in Hk.
  destruct (Z.gcd_divide_r (sn * rn) (sd * rd)) as [d Hd]. fold g in Hd.
  destruct (Z.gcd_divide_l g (sd * rn)) as [g' Hg']. fold G in Hg'.
  destruct (Z.gcd_divide_r g (sd * rn)) as [c' Hc']. fold G in Hc'.
  clearbody G g.
  assert (Ek : sn * rn / g = k) by (rewrite Hk; apply Z.div_mul; lia).
  assert (Ed : sd * rd / g = d) by (rewrite Hd; apply Z.div_mul; lia).
  assert (Eg : g / G = g') by (rewrite Hg'; apply Z.div_mul; lia).
  assert (Ec : sd * rn / G = c') by (rewrite Hc'; apply Z.div_mul; lia).
  rewrite Ek, Ed, Eg, Ec in *.
  assert (Hkpos : 0 < k).
  { apply (Z.mul_pos_cancel_r k g Hg). rewrite <- Hk.
    apply Z.mul_pos_pos; assumption. }
  assert (Hdpos : 0 < d).
  { apply (Z.mul_pos_cancel_r d g Hg). rewrite <- Hd.
    apply Z.mul_pos_pos; assumption. }
  assert (Hg'pos : 0 < g') by (apply (Z.mul_pos_cancel_r g' G HG); lia).
  assert (Hc'pos : 0 < c').
  { apply (Z.mul_pos_cancel_r c' G HG). rewrite <- Hc'.
    apply Z.mul_pos_pos; assumption. }
  split; [exact Hkpos|]. split; [exact Hdpos|].
  assert (Hsrc : sn * c' = k * (g' * sd)).
  { apply (Z.mul_reg_r _ _ G); [lia|].
    replace (sn * c' * G) with (sn * (c' * G)) by lia. rewrite <- Hc'.
    replace (k * (g' * sd) * G) with (k * (g' * G) * sd) by lia.
    rewrite <- Hg'. replace (k * g * sd) with (k * g * sd) by lia.
    rewrite <- Hk. lia. }
  assert (Hout : rd * c' = d * (g' * rn)).
  { apply (Z.mul_reg_r _ _ G); [lia|].
    replace (rd * c' * G) with (rd * (c' * G)) by lia. rewrite <- Hc'.
    replace (d * (g' * rn) * G) with (d * (g' * G) * rn) by lia.
    rewrite <- Hg', <- Hd. lia. }
  split.
  - intros f. rewrite av_rescale_rnd_exact.
    + rewrite Hsrc. rewrite Z.div_mul by nia. reflexivity.
    + nia.
    + nia.
    + rewrite Hsrc. apply Z.mod_mul. nia.
  - intros n. rewrite av_rescale_rnd_exact.
    + rewrite Hout. rewrite Z.div_mul by nia. reflexivity.
    + nia.
    + nia.
    + rewrite Hout. apply Z.mod_mul. nia.
Qed.

(** A time base that no pair of [int]s holds: a source clock of
    1/1000000007 and 1000000009 frames a second give the fraction
    1/1000000016000000063 in lowest terms.  config_output logs that the
    conversion is not exact and takes what libavutil approximates the fraction
    by. *)
Lemma config_output_inexact (best_effort : Z -> Z -> Z -> AVRational.t) :
  let s := config_input
             (init (new_context (AVRational.mk 1000000009 1) 15 240
                                scene_default 1))
             8 0 [1; 1; 1; 0] (AVRational.mk 1 1000000007) in
  snd (config_output best_effort s) = [Warn WInexact]
  /\ Ctx.dest_time_base (fst (config_output best_effort s))
     = best_effort 1 1000000016000000063 INT_MAX.
Proof.
  intros s.
  destruct (config_output_cases best_effort s)
    as [(_ & _ & H & _)|(Hw & _ & Htb)]; cbv zeta in *.
  - exfalso. apply Z.leb_le in H. vm_compute in H. discriminate H.
  - split; [exact Hw|]. rewrite Htb. reflexivity.
Qed.

(** X22.  The time base config_output chooses without the warning
    "Timebase conversion is not exact", that is, when the fraction in lowest
    terms fits two [int]s, holds both clocks exactly:
    with [g] the greatest common divisor of [srce_time_base.num * fps.num]
    and [srce_time_base.den * fps.den], a tick of the source is
    [k = srce_time_base.num * fps.num / g] ticks of the destination and a
    period of the output [d = srce_time_base.den * fps.den / g] ticks, so
    that rescaling a source timestamp or a count of frames rounds nothing;
    [k] and [d] have no common divisor, no coarser tick would do. *)
Theorem X22_config_output_exact (best_effort : Z -> Z -> Z -> AVRational.t)
    (s : Ctx.t) :
  0 < AVRational.num (Ctx.srce_time_base s) ->
  0 < AVRational.den (Ctx.srce_time_base s) ->
  0 < AVRational.num (Ctx.dest_frame_rate s) ->
  0 < AVRational.den (Ctx.dest_frame_rate s) ->
  snd (config_output best_effort s) = [] ->
  let s' := fst (config_output best_effort s) in
  let a := AVRational.num (Ctx.srce_time_base s)
           * AVRational.num (Ctx.dest_frame_rate s) in
  let b := AVRational.den (Ctx.srce_time_base s)
           * AVRational.den (Ctx.dest_frame_rate s) in
  let k := a / Z.gcd a b in
  let d := b / Z.gcd a b in
  0 < k /\ 0 < d /\ Z.gcd k d = 1
  /\ (forall f, dest_pts s' f = Frame.pts f * k)
  /\ (forall n, periods s' n = n * d).
Proof.
  intros Hsn Hsd Hrn Hrd Hexact.
  pose proof (config_output_ticks best_effort s Hsn Hsd Hrn Hrd Hexact)
    as Hticks.
  cbv zeta in Hticks |- *. destruct Hticks as (Hk & Hd & Hsrc & Hout).
  split; [exact Hk|]. split; [exact Hd|]. split; [|split; assumption].
  apply Z.gcd_div_gcd; [|reflexivity].
  intros E. apply Z.gcd_eq_0_l in E.
  assert (0 < AVRational.num (Ctx.srce_time_base s)
              * AVRational.num (Ctx.dest_frame_rate s))
    by (apply Z.mul_pos_pos; assumption).
  lia.
Qed.

(** A source clock of 1/30000 and an output at 30000/1001 frames a second:
    a tick of the destination is a tick of the source, a period 1001
    ticks. *)
Lemma X22_config_output_exact_witness :
  let s := config_input
             (init (new_context (AVRational.mk 30000 1001) 15 240 scene_default 1))
             8 1 [8; 4; 4; 0] (AVRational.mk 1 30000) in
  let s' := fst (config_output no_approximation s) in
  (Ctx.dest_time_base s' = AVRational.mk 1 30000)
  /\ let a := AVRational.num (Ctx.srce_time_base s)
              * AVRational.num (Ctx.dest_frame_rate s) in
     let b := AVRational.den (Ctx.srce_time_base s)
              * AVRational.den (Ctx.dest_frame_rate s) in
     let k := a / Z.gcd a b in
     let d := b / Z.gcd a b in
     0 < k /\ 0 < d /\ Z.gcd k d = 1
     /\ (forall f, dest_pts s' f = Frame.pts f * k)
     /\ (forall n, periods s' n = n * d).
Proof.
  intros s s'. split; [vm_compute; reflexivity|].
  apply (X22_config_output_exact no_approximation s);
    try (vm_compute; reflexivity).
Defined.

(** X23.  From the set-up to the outputs: a filter set up by init,
    config_input and config_output for positive rates, without the warning
    that the time base is not exact, fed with a stream
    whose first frame has the timestamp [P], passes on, as long as the
    timestamps do not go back, frames at [P * k], [P * k + d],
    [P * k + 2 * d] and so on in the destination time base, [k] being the
    ticks of a tick of the source and [d] those of a period of the output. *)
Theorem X23_set_up_timeline {graph : FilterGraph} (fps : AVRational.t)
    (interp_start_param interp_end_param : Z) (scene : spec_float)
    (flags : Z) (depth log2_chroma_h : Z) (line_sizes : list Z)
    (time_base : AVRational.t)
    (best_effort : Z -> Z -> Z -> AVRational.t)
    (first : Frame.t) (rest : list Frame.t) :
  0 < AVRational.num time_base -> 0 < AVRational.den time_base ->
  0 < AVRational.num fps -> 0 < AVRational.den fps ->
  let s0 := config_input
              (init (new_context fps interp_start_param interp_end_param
                                 scene flags))
              depth log2_chroma_h line_sizes time_base in
  snd (config_output best_effort s0) = [] ->
  let s := fst (config_output best_effort s0) in
  let a := AVRational.num time_base * AVRational.num fps in
  let b := AVRational.den time_base * AVRational.den fps in
  let k := a / Z.gcd a b in
  let d := b / Z.gcd a b in
  Frame.pts first <> AV_NOPTS_VALUE ->
  Forall (fun f => dest_pts s f <> AV_NOPTS_VALUE) (first :: rest) ->
  forall fuel s' evs,
    run fuel s (first :: rest) = Some (s', evs) ->
    Warn WDiscontinuity ∉ evs ->
    forall i v,
      map Frame.pts (outputs evs) !! i = Some v ->
      v = Frame.pts first * k + Z.of_nat i * d.
Proof.
  intros Htn Htd Hfn Hfd s0 Hexact s a b k d Hfirst Hpts fuel s' evs Hrun Hdisc
    i v Hi.
  pose proof (config_output_ticks best_effort s0 Htn Htd Hfn Hfd Hexact)
    as Hticks.
  cbv zeta in Hticks. fold s in Hticks.
  change (AVRational.num (Ctx.srce_time_base _)) with (AVRational.num time_base)
    in Hticks.
  change (AVRational.den (Ctx.srce_time_base _)) with (AVRational.den time_base)
    in Hticks.
  change (AVRational.num (Ctx.dest_frame_rate _)) with (AVRational.num fps)
    in Hticks.
  change (AVRational.den (Ctx.dest_frame_rate _)) with (AVRational.den fps)
    in Hticks.
  fold a b in Hticks. fold k d in Hticks.
  destruct Hticks as (Hk & Hd & Hsrc & Hout).
  cbn in Hrun.
  destruct (filter_frame fuel s first) as [[[r1 s1] evs1]|] eqn:E1;
    [|discriminate].
  destruct (run fuel s1 rest) as [[s2 evs2]|] eqn:E2; [|discriminate].
  injection Hrun as <- <-.
  inversion Hpts as [|? ? Hf Hrest]; subst.
  assert (Hd1 : Warn WDiscontinuity ∉ evs1).
  { intros H. apply Hdisc. apply elem_of_app. left. exact H. }
  assert (Hd2 : Warn WDiscontinuity ∉ evs2).
  { intros H. apply Hdisc. apply elem_of_app. right. exact H. }
  (* the first frame starts the cursor *)
  pose proof (filter_frame_time_bases fuel s s1 first r1 evs1 E1)
    as (Es & Et & Er & _).
  pose proof (filter_frame_trace fuel s s1 first r1 evs1 E1 Hd1 Hf)
    as (_ & Hn1 & _ & _ & _).
  assert (Hf1 : Ctx.f1 s = None)
    by (subst s; rewrite config_output_sets; reflexivity).
  assert (Hfl0 : Ctx.flush s = false)
    by (subst s; rewrite config_output_sets; reflexivity).
  assert (Hst0 : Ctx.start_pts s = AV_NOPTS_VALUE)
    by (subst s; rewrite config_output_sets; reflexivity).
  assert (Hn0 : Ctx.n s = 0)
    by (subst s; rewrite config_output_sets; reflexivity).
  apply filter_frame_cases in E1.
  destruct E1 as [(_ & _ & _ & [Hbad|[Hbad _]])|(_ & _ & ev1 & Hloop1 & Hout1)];
    [contradiction|rewrite Hf1 in Hbad; discriminate Hbad|].
  pose proof (shift_window_fields s first (dest_pts s first)) as Hs.
  set (sa := fst (shift_window s first (dest_pts s first))) in *.
  cbv zeta in Hs. destruct Hs as (F1 & _ & _ & _ & Fl & F0 & N & St & _).
  rewrite Hf1, Hst0, Hn0, ?Hfl0 in *.
  assert (F0' : Ctx.f0 sa = None).
  { rewrite F0. destruct (_ <? 0); reflexivity. }
  assert (St' : Ctx.start_pts sa = dest_pts s first).
  { rewrite St. destruct (_ <? 0); reflexivity. }
  assert (N' : Ctx.n sa = 0).
  { rewrite N. destruct (_ <? 0); reflexivity. }
  assert (Hidle : candidate_due sa = false).
  { unfold candidate_due. rewrite F0', F1, Fl. reflexivity. }
  destruct fuel as [|fuel]; [discriminate|].
  apply output_loop_step in Hloop1.
  destruct Hloop1 as [(_ & _ & -> & ->)|[(Hdue & _)|(Hdue & _)]];
    [|congruence|congruence].
  rewrite outputs_app, Hout1 in Hi.
  change (outputs []) with (@nil Frame.t) in Hi. cbn [app] in Hi.
  (* the rest of the stream follows it *)
  assert (Hrest' : Forall (fun f => dest_pts sa f <> AV_NOPTS_VALUE) rest).
  { eapply Forall_impl; [exact Hrest|]. intros g Hg. cbn beta.
    rewrite (dest_pts_ext sa s g Es Et). exact Hg. }
  destruct (run_trace (S fuel) rest sa s2 evs2 E2 Hd2 Hrest')
    as ((Hr2 & Ht2 & _ & _) & _ & Hp2 & Hkeep).
  rewrite Hp2 in Hi. apply cursor_pts_lookup in Hi. destruct Hi as [-> _].
  rewrite Hkeep by (rewrite St'; exact Hf).
  rewrite St', N', Hsrc, Z.add_0_l.
  assert (Hper : periods s2 (Z.of_nat i) = periods s (Z.of_nat i)).
  { unfold periods. rewrite Hr2, Ht2, Er, Et. reflexivity. }
  rewrite Hper, Hout. reflexivity.
Qed.

(** Frames with the timestamps 3, 4 and 5 of a clock of 1/25 into a filter
    for 50 frames a second: a tick of the source is 2 ticks of the
    destination, a period 1. *)
Lemma X23_set_up_timeline_witness :
  let g := plain_graph 1 1 1 0 in
  let first := flat_frame 1 1 10 128 128 3 in
  let rest := [flat_frame 1 1 20 128 128 4; flat_frame 1 1 30 128 128 5] in
  let s := fst (config_output no_approximation
                  (config_input
                     (init (new_context (AVRational.mk 50 1) 15 240
                                        scene_default 1))
                     8 0 [1; 1; 1; 0] (AVRational.mk 1 25))) in
  option_map (fun r => map Frame.pts (outputs (snd r)))
             (@run g 3 s (first :: rest)) = Some [6; 7; 8; 9]
  /\ forall fuel s' evs,
       @run g fuel s (first :: rest) = Some (s', evs) ->
       Warn WDiscontinuity ∉ evs ->
       forall i v,
         map Frame.pts (outputs evs) !! i = Some v ->
         v = Frame.pts first * (1 * 50 / Z.gcd (1 * 50) (25 * 1))
             + Z.of_nat i * (25 * 1 / Z.gcd (1 * 50) (25 * 1)).
Proof.
  intros g first rest s. split; [vm_compute; reflexivity|].
  apply (@X23_set_up_timeline g (AVRational.mk 50 1) 15 240 scene_default 1 8 0
           [1; 1; 1; 0] (AVRational.mk 1 25) no_approximation first rest);
    try reflexivity.
  - vm_compute. discriminate.
  - repeat constructor; vm_compute; discriminate.
Defined.
